(** * PeptideScreening: clustering of peptide structures by backbone RMSD

    A shallow embedding of [perResidueCluster.py]: the score-table reader
    [parse_score_file], the coordinate reader [extract_backbone_coords], the
    alignment [kabsch_algorithm], the greedy clustering [cluster_structures]
    and the driver [main]; and of [parse_pocket_for_boltzgen.py]: the reader
    [parse_pocket_residues], the writer [create_boltzgen_yaml] and its
    [main]; followed by the properties proved about them.

    Conventions of the embedding.
    - A Python [float] is a binary64 value: Rocq's primitive [float], with
      the IEEE comparisons [PrimFloat.ltb], [PrimFloat.leb] that Python's
      [<] and [<=] compute (false whenever an operand is NaN).
    - A Python [dict] is an association list in insertion order with unique
      keys ([dict_set] overwrites in place or appends), because [main] lists
      and sorts the keys of its dictionaries.
    - A Python [set] of names is a [gset string]; the order in which Python
      iterates over it is not fixed by the language, so it is a parameter
      [set_iter] of the model, constrained only to enumerate the set.
    - A Python exception is the [Raise] outcome of the result type [Res]. *)

From Stdlib Require Import Floats Uint63 ZArith Ascii String List Sorted DecimalString.
From stdpp Require Import gmap strings list sorting.

Local Open Scope string_scope.
Local Open Scope list_scope.
Local Open Scope nat_scope.
#[local] Set Warnings "-clear-no-such-hyp,-inexact-float".

(** ** Exceptions and results *)

(** The exceptions the modelled code can raise. [OutOfFuel] is not a Python
    exception: it is what the fuel-bounded rendering of the [while] loop
    answers when its fuel is spent, which the fuel that [cluster_structures]
    gives it excludes: from the size of the working set on, more fuel
    changes nothing ([cluster_loop_fuel]). [ReadError] stands for whatever
    [gemmi.read_structure] raises on a file it cannot parse. *)
Inductive exn : Type :=
  | KeyError (key : string)
  | IndexError
  | ValueError
  | TypeError
  | AxisError
  | LinAlgError
  | ReadError
  | OutOfFuel.

Inductive Res (A : Type) : Type :=
  | Ok (a : A)
  | Raise (e : exn).
Arguments Ok {A} a.
Arguments Raise {A} e.

Definition bind {A B : Type} (r : Res A) (k : A -> Res B) : Res B :=
  match r with
  | Ok a => k a
  | Raise e => Raise e
  end.

Notation "x <- r ;; k" := (bind r (fun x => k))
  (at level 100, r at next level, right associativity).

Definition is_Ok {A : Type} (r : Res A) : Prop := exists a, r = Ok a.

(** ** Python dictionaries *)

Section Dict.
Context {K V : Type} `{EqDecision K}.

Definition dict : Type := list (K * V).

(** [k in d] *)
Definition dict_mem (d : dict) (k : K) : bool :=
  existsb (fun kv => bool_decide (kv.1 = k)) d.

(** [d.get(k)] *)
Fixpoint dict_find (d : dict) (k : K) : option V :=
  match d with
  | [] => None
  | (k', v) :: d' => if decide (k' = k) then Some v else dict_find d' k
  end.

(** [d[k] = v]: an existing key keeps its position, a new key goes last. *)
Fixpoint dict_set (d : dict) (k : K) (v : V) : dict :=
  match d with
  | [] => [(k, v)]
  | (k', v') :: d' =>
      if decide (k' = k) then (k', v) :: d' else (k', v') :: dict_set d' k v
  end.

(** [list(d.keys())] *)
Definition dict_keys (d : dict) : list K := map fst d.

(** [list(d.values())] *)
Definition dict_values (d : dict) : list V := map snd d.
End Dict.
Arguments dict : clear implicits.

(** [d[k]] on a dictionary keyed by names: a missing key raises. *)
Definition dict_get {V : Type} (d : dict string V) (k : string) : Res V :=
  match dict_find d k with
  | Some v => Ok v
  | None => Raise (KeyError k)
  end.

(** ** numpy arrays *)

(** The arrays the program builds have at most two axes. [Mat c rows] is an
    array of shape [(length rows, c)], every row holding [c] numbers;
    [Vec v] has shape [(length v,)]; [Scalar x] is a 0-d value. *)
Inductive ndarray : Type :=
  | Scalar (x : float)
  | Vec (v : list float)
  | Mat (ncols : nat) (rows : list (list float)).

(** The part of numpy that [kabsch_algorithm] and [extract_backbone_coords]
    use. Sums are accumulated left to right; numpy may associate a long sum
    differently and so round its last bits differently, which none of the
    properties below depends on. *)
Module np.

Definition fsum (l : list float) : float := fold_left PrimFloat.add l 0%float.

Definition float_of_nat (n : nat) : float :=
  PrimFloat.of_uint63 (Uint63.of_Z (Z.of_nat n)).

Definition ndim (a : ndarray) : nat :=
  match a with Scalar _ => 0 | Vec _ => 1 | Mat _ _ => 2 end.

(** The shape, read as two axes (a missing axis has extent 1). *)
Definition shape2 (a : ndarray) : nat * nat :=
  match a with
  | Scalar _ => (1, 1)
  | Vec v => (1, length v)
  | Mat c rows => (length rows, c)
  end.

Definition at2 (a : ndarray) (i j : nat) : float :=
  match a with
  | Scalar x => x
  | Vec v => nth j v 0%float
  | Mat _ rows => nth j (nth i rows []) 0%float
  end.

Definition build (nd n c : nat) (f : nat -> nat -> float) : ndarray :=
  match nd with
  | 0 => Scalar (f 0 0)
  | 1 => Vec (map (f 0) (seq 0 c))
  | _ => Mat c (map (fun i => map (f i) (seq 0 c)) (seq 0 n))
  end.

(** [np.array(rows)] on a list of coordinate triples: an empty list gives
    the 1-d array of shape [(0,)]. *)
Definition array (rows : list (list float)) : ndarray :=
  match rows with
  | [] => Vec []
  | r :: _ => Mat (length r) rows
  end.

(** [len(a)] *)
Definition len (a : ndarray) : Res nat :=
  match a with
  | Scalar _ => Raise TypeError
  | Vec v => Ok (length v)
  | Mat _ rows => Ok (length rows)
  end.

(** Broadcasting of one axis: equal extents, or one of them 1. *)
Definition bdim (m n : nat) : option nat :=
  if Nat.eqb m n then Some m
  else if Nat.eqb m 1 then Some n
  else if Nat.eqb n 1 then Some m
  else None.

(** An elementwise binary operation with broadcasting ([a - b], [a + b]). *)
Definition elementwise (op : float -> float -> float) (a b : ndarray)
    : Res ndarray :=
  let '(ra, ca) := shape2 a in
  let '(rb, cb) := shape2 b in
  match bdim ra rb, bdim ca cb with
  | Some n, Some c =>
      let ix (extent i : nat) := if Nat.eqb extent 1 then 0 else i in
      Ok (build (ndim a `max` ndim b) n c
            (fun i j => op (at2 a (ix ra i) (ix ca j))
                           (at2 b (ix rb i) (ix cb j))))
  | _, _ => Raise ValueError
  end.

Definition sub : ndarray -> ndarray -> Res ndarray := elementwise PrimFloat.sub.
Definition add : ndarray -> ndarray -> Res ndarray := elementwise PrimFloat.add.

(** [a ** 2] *)
Definition square (a : ndarray) : ndarray :=
  let sq x := PrimFloat.mul x x in
  match a with
  | Scalar x => Scalar (sq x)
  | Vec v => Vec (map sq v)
  | Mat c rows => Mat c (map (map sq) rows)
  end.

(** [np.sum(a)] over all elements *)
Definition sum (a : ndarray) : float :=
  match a with
  | Scalar x => x
  | Vec v => fsum v
  | Mat _ rows => fsum (concat rows)
  end.

Definition column (j : nat) (rows : list (list float)) : list float :=
  map (fun row => nth j row 0%float) rows.

(** [np.mean(a, axis=0)]: over no rows every mean is 0/0, a NaN that numpy
    reports with a warning and returns. *)
Definition mean0 (a : ndarray) : Res ndarray :=
  match a with
  | Scalar _ => Raise AxisError
  | Vec v => Ok (Scalar (PrimFloat.div (fsum v) (float_of_nat (length v))))
  | Mat c rows =>
      Ok (Vec (map (fun j => PrimFloat.div (fsum (column j rows))
                               (float_of_nat (length rows)))
                 (seq 0 c)))
  end.

(** [a.T] *)
Definition T (a : ndarray) : ndarray :=
  match a with
  | Mat c rows => Mat (length rows) (map (fun j => column j rows) (seq 0 c))
  | _ => a
  end.

Definition dot (u v : list float) : float :=
  fsum (zip_with PrimFloat.mul u v).

(** [a @ b]: the inner extents must agree. *)
Definition matmul (a b : ndarray) : Res ndarray :=
  match a, b with
  | Scalar _, _ | _, Scalar _ => Raise ValueError
  | Vec u, Vec v =>
      if Nat.eqb (length u) (length v) then Ok (Scalar (dot u v)) else Raise ValueError
  | Mat c rows, Vec v =>
      if Nat.eqb c (length v) then Ok (Vec (map (fun row => dot row v) rows))
      else Raise ValueError
  | Vec u, Mat c rows =>
      if Nat.eqb (length u) (length rows)
      then Ok (Vec (map (fun j => dot u (column j rows)) (seq 0 c)))
      else Raise ValueError
  | Mat c1 rows1, Mat c2 rows2 =>
      if Nat.eqb c1 (length rows2)
      then Ok (Mat c2 (map (fun row =>
                         map (fun j => dot row (column j rows2)) (seq 0 c2))
                       rows1))
      else Raise ValueError
  end.

(** [Vt[-1, :] *= -1] *)
Definition negate_last_row (a : ndarray) : Res ndarray :=
  match a with
  | Mat c rows =>
      match rev rows with
      | [] => Raise IndexError
      | last :: front =>
          Ok (Mat c (rev front ++ [map (fun x => PrimFloat.mul x (-1)%float) last]))
      end
  | _ => Raise IndexError
  end.

Section Linalg.
(** LAPACK's routines are taken as given: [svd m n rows] is the
    factorisation of an [m] by [n] matrix ([None] when it does not
    converge), [det rows] the determinant of a square matrix. *)
Variable svd : nat -> nat -> list (list float) ->
               option (list (list float) * list float * list (list float)).
Variable det : list (list float) -> float.

(** [np.linalg.svd(a)] *)
Definition linalg_svd (a : ndarray) : Res (ndarray * ndarray * ndarray) :=
  match a with
  | Mat n rows =>
      let m := length rows in
      match svd m n rows with
      | Some (U, Sv, Vt) => Ok (Mat m U, Vec Sv, Mat n Vt)
      | None => Raise LinAlgError
      end
  | _ => Raise LinAlgError
  end.

(** [np.linalg.det(a)] *)
Definition linalg_det (a : ndarray) : Res float :=
  match a with
  | Mat n rows => if Nat.eqb n (length rows) then Ok (det rows) else Raise LinAlgError
  | _ => Raise LinAlgError
  end.
End Linalg.
End np.

(** ** kabsch_algorithm *)

Section Kabsch.
Variable svd : nat -> nat -> list (list float) ->
               option (list (list float) * list float * list (list float)).
Variable det : list (list float) -> float.

Definition kabsch_algorithm (P Q : ndarray) : Res (ndarray * ndarray * float) :=
  (* Calculate centroids *)
  centroid_P <- np.mean0 P ;;
  centroid_Q <- np.mean0 Q ;;
  (* Center the points *)
  P_centered <- np.sub P centroid_P ;;
  Q_centered <- np.sub Q centroid_Q ;;
  (* Covariance matrix *)
  H <- np.matmul (np.T P_centered) Q_centered ;;
  (* SVD *)
  usv <- np.linalg_svd svd H ;;
  let '(U, _, Vt) := usv in
  (* Rotation matrix *)
  R <- np.matmul (np.T Vt) (np.T U) ;;
  (* Handle reflection case *)
  d <- np.linalg_det det R ;;
  R <- (if PrimFloat.ltb d 0%float then
          Vt <- np.negate_last_row Vt ;;
          np.matmul (np.T Vt) (np.T U)
        else Ok R) ;;
  (* Translation vector *)
  R_centroid_P <- np.matmul R centroid_P ;;
  t <- np.sub centroid_Q R_centroid_P ;;
  (* Apply transformation and calculate RMSD *)
  R_Pt <- np.matmul R (np.T P) ;;
  P_aligned <- np.add (np.T R_Pt) t ;;
  diff <- np.sub Q P_aligned ;;
  n <- np.len P ;;
  let rmsd :=
    PrimFloat.sqrt (PrimFloat.div (np.sum (np.square diff)) (np.float_of_nat n)) in
  Ok (R, t, rmsd).
End Kabsch.

(** ** cluster_structures *)

Section Clustering.
(** The clustering never looks inside a coordinate set: it hands two of
    them to the alignment and compares the RMSD that comes back. *)
Context {coords : Type}.
(** [kabsch P Q] is the call [kabsch_algorithm(P, Q)], returning rotation,
    translation and RMSD or raising. *)
Variable kabsch : coords -> coords -> Res (ndarray * ndarray * float).
(** [set_iter s] is [list(s)]: the order in which the interpreter
    enumerates the set. *)
Variable set_iter : gset string -> list string.

Variable coords_dict : dict string coords.
Variable structure_order : list string.
Variable rmsd_cutoff : float.

(** The first name of the processing order still unclustered:
    the inner [for struct in structure_order: ... break]. *)
Definition pick_center (unclustered : gset string) : option string :=
  find (fun struct => bool_decide (struct ∈ unclustered)) structure_order.

(** [for struct in list(unclustered)]: the seed is skipped, every other
    name is aligned onto the seed and appended when its RMSD is strictly
    below the cutoff. *)
Fixpoint absorb (center : string) (center_coords : coords)
    (todo : list string) (members : list string) : Res (list string) :=
  match todo with
  | [] => Ok members
  | struct :: todo' =>
      if decide (struct = center) then
        absorb center center_coords todo' members
      else
        struct_coords <- dict_get coords_dict struct ;;
        aligned <- kabsch struct_coords center_coords ;;
        let '(_, _, rmsd) := aligned in
        if PrimFloat.ltb rmsd rmsd_cutoff
        then absorb center center_coords todo' (members ++ [struct])
        else absorb center center_coords todo' members
  end.

(** [for member in members: unclustered.discard(member)] *)
Definition discard_all (unclustered : gset string) (members : list string)
    : gset string :=
  fold_left (fun u member => u ∖ {[member]}) members unclustered.

(** The [while unclustered:] loop, one unit of fuel per iteration. *)
Fixpoint cluster_loop (fuel : nat) (unclustered : gset string)
    (clusters : dict string (list string))
    : Res (dict string (list string)) :=
  if decide (unclustered = ∅) then Ok clusters
  else
    match fuel with
    | O => Raise OutOfFuel
    | S fuel' =>
        match pick_center unclustered with
        | None => Ok clusters
        | Some center =>
            center_coords <- dict_get coords_dict center ;;
            members <- absorb center center_coords
                         (set_iter unclustered) [center] ;;
            cluster_loop fuel' (discard_all unclustered members)
              (dict_set clusters center members)
        end
    end.

Definition cluster_structures : Res (dict string (list string)) :=
  let unclustered : gset string := list_to_set structure_order in
  cluster_loop (size unclustered) unclustered [].
End Clustering.

(** ** Strings *)

(** Names and lines are sequences of characters with codes below 256. *)
Module str.

Definition tab : string := String (ascii_of_nat 9) EmptyString.
Definition newline : string := String (ascii_of_nat 10) EmptyString.

(** [c.isspace()] *)
Definition isspace (c : ascii) : bool :=
  let n := nat_of_ascii c in
  ((9 <=? n) && (n <=? 13)) || ((28 <=? n) && (n <=? 32))
  || Nat.eqb n 133 || Nat.eqb n 160.

Fixpoint lstrip (l : list ascii) : list ascii :=
  match l with
  | c :: l' => if isspace c then lstrip l' else l
  | [] => []
  end.

(** [s.strip()] *)
Definition strip (s : string) : string :=
  string_of_list_ascii
    (rev (lstrip (rev (lstrip (list_ascii_of_string s))))).

Fixpoint split_ws (cur : list ascii) (l : list ascii) : list string :=
  match l with
  | [] => match cur with [] => [] | _ => [string_of_list_ascii (rev cur)] end
  | c :: l' =>
      if isspace c then
        match cur with
        | [] => split_ws [] l'
        | _ => string_of_list_ascii (rev cur) :: split_ws [] l'
        end
      else split_ws (c :: cur) l'
  end.

(** [s.split()]: the maximal runs of characters that are not white space. *)
Definition split (s : string) : list string :=
  split_ws [] (list_ascii_of_string s).

Fixpoint split_chars (sep : ascii) (l : list ascii) : list (list ascii) :=
  match l with
  | [] => [[]]
  | c :: l' =>
      if decide (c = sep) then [] :: split_chars sep l'
      else match split_chars sep l' with
           | piece :: pieces => (c :: piece) :: pieces
           | [] => [[c]]
           end
  end.

(** [s.split(sep)] for a separator of one character *)
Definition split_on (sep : ascii) (s : string) : list string :=
  map string_of_list_ascii (split_chars sep (list_ascii_of_string s)).

(** [sep.join(pieces)] *)
Definition join (sep : string) (pieces : list string) : string :=
  String.concat sep pieces.

(** [str(n)] for a non-negative integer *)
Definition of_N (n : N) : string :=
  DecimalString.NilZero.string_of_uint (N.to_uint n).

Definition of_nat (n : nat) : string := of_N (N.of_nat n).

(** [s.startswith(prefix)] *)
Definition startswith (prefix s : string) : bool := String.prefix prefix s.

(** [str(z)] for an integer *)
Definition of_Z (z : Z) : string :=
  if (z <? 0)%Z then "-" ++ of_N (Z.to_N (- z)) else of_N (Z.to_N z).

(** The double quote, as a string of one character. *)
Definition quote : string := String (ascii_of_nat 34) EmptyString.

End str.

(** ** Sorting *)

(** [sorted(l, key=key)] is a stable sort that compares keys with [<] only.
    On keys totally ordered by [lt] its result is the one stable ordering,
    which insertion from the right builds. With a key that is a NaN, [<] is
    no total order, and the merge sort of CPython can leave the elements in
    another order than this insertion does: what is proved below of an
    order either assumes that no key is a NaN or holds of every
    arrangement of the elements. *)
Section Sorted.
Context {A K : Type}.
Variable lt : K -> K -> bool.

Fixpoint insert_keyed (kx : K * A) (l : list (K * A)) : list (K * A) :=
  match l with
  | [] => [kx]
  | ky :: l' =>
      if lt ky.1 kx.1 then ky :: insert_keyed kx l' else kx :: ky :: l'
  end.

Definition sort_keyed (l : list (K * A)) : list (K * A) :=
  foldr insert_keyed [] l.
End Sorted.

(** [sorted(l)] on a list of integers. *)
Definition sorted_ints (l : list Z) : list Z :=
  map snd (sort_keyed Z.ltb (map (fun z => (z, z)) l)).

(** ** parse_score_file *)

Section Scores.
(** [float(s)]: the number a string denotes, [None] when Python raises
    [ValueError]. *)
Variable float_of_string : string -> option float.

(** One iteration of [for line in lines[1:]]. *)
Definition score_line (scores : dict string float) (line : string)
    : Res (dict string float) :=
  let parts := str.split (str.strip line) in
  if 3 <=? length parts then
    let structure_name := nth 1 parts "" in
    match float_of_string (nth 2 parts "") with
    | Some score => Ok (dict_set scores structure_name score)
    | None => Raise ValueError
    end
  else Ok scores.

Fixpoint score_lines (scores : dict string float) (lines : list string)
    : Res (dict string float) :=
  match lines with
  | [] => Ok scores
  | line :: lines' =>
      scores' <- score_line scores line ;;
      score_lines scores' lines'
  end.

(** [lines] is [f.readlines()] of the score file. *)
Definition parse_score_file (lines : list string) : Res (dict string float) :=
  score_lines [] (drop 1 lines).
End Scores.

(** ** Structure files *)

(** What [gemmi.read_structure] hands to the program: models of chains of
    residues of atoms. *)
Module gemmi.
Record Position : Type := { x : float; y : float; z : float }.
Record Atom : Type := { name : string; altloc : ascii; pos : Position }.
Definition Residue : Type := list Atom.
Definition Chain : Type := list Residue.
Definition Model : Type := list Chain.
Definition Structure : Type := list Model.

(** [residue.find_atom(name, altloc)]: the first atom of that name and
    alternative-location tag, if any. *)
Definition find_atom (residue : Residue) (atom_name : string) (alt : ascii)
    : option Atom :=
  find (fun a => bool_decide (name a = atom_name) && bool_decide (altloc a = alt))
    residue.
End gemmi.

(** A CIF file of the working directory: its name, and what reading it
    gives. *)
Record cif_file : Type := {
  file_name : string;
  read_structure : Res gemmi.Structure
}.

Definition atom_names : list string := ["N"; "CA"; "C"; "O"].

(** [for atom_name in atom_names], on one residue: the positions of the
    backbone atoms that [find_atom] returns. *)
Definition residue_backbone (residue : gemmi.Residue) : list (list float) :=
  flat_map (fun atom_name =>
    match gemmi.find_atom residue atom_name zero with
    | Some atom =>
        let pos := gemmi.pos atom in
        [[gemmi.x pos; gemmi.y pos; gemmi.z pos]]
    | None => []
    end) atom_names.

Definition extract_backbone_coords (f : cif_file) : Res (ndarray * nat) :=
  structure <- read_structure f ;;
  model <- match structure with
           | model :: _ => Ok model
           | [] => Raise IndexError
           end ;;
  let backbone_atoms :=
    flat_map (fun chain => flat_map residue_backbone chain) model in
  let coords := np.array backbone_atoms in
  n <- np.len coords ;;
  let n_residues := n / 4 in
  Ok (coords, n_residues).

(** ** Number formatting *)

(** Rounding of the non-negative rational [num / den] to the nearest
    integer, ties to even. *)
Definition round_half_even (num den : Z) : Z :=
  let q := (num / den)%Z in
  let r := (num mod den)%Z in
  match (2 * r ?= den)%Z with
  | Lt => q
  | Gt => (q + 1)%Z
  | Eq => if Z.even q then q else (q + 1)%Z
  end.

Definition pad3 (n : N) : string :=
  let digits := str.of_N n in
  match String.length digits with
  | 1 => "00" ++ digits
  | 2 => "0" ++ digits
  | _ => digits
  end.

(** [f"{v:.3f}"]: the exact binary value rounded to three decimals, ties to
    even, with the sign of [v]. *)
Definition format_3f (v : float) : string :=
  match Prim2SF v with
  | S754_nan => "nan"
  | S754_infinity s => if s then "-inf" else "inf"
  | S754_zero s => (if s then "-" else "") ++ "0.000"
  | S754_finite s m e =>
      let num := (Z.pos m * 1000)%Z in
      let thousandths :=
        if (0 <=? e)%Z then (num * 2 ^ e)%Z
        else round_half_even num (2 ^ (- e))%Z in
      (if s then "-" else "")
        ++ str.of_N (Z.to_N (thousandths / 1000))
        ++ "." ++ pad3 (Z.to_N (thousandths mod 1000))
  end.

(** ** main *)

(** [sorted(l, key=key)] with a key function that may raise: Python computes
    every key before it compares any. *)
Section SortedBy.
Context {A K : Type}.
Variable lt : K -> K -> bool.
Variable key : A -> Res K.

Fixpoint keyed (l : list A) : Res (list (K * A)) :=
  match l with
  | [] => Ok []
  | a :: l' =>
      k <- key a ;;
      kl <- keyed l' ;;
      Ok ((k, a) :: kl)
  end.

Definition sorted_by (l : list A) : Res (list A) :=
  kl <- keyed l ;;
  Ok (map snd (sort_keyed lt kl)).
End SortedBy.

(** The clustering of one length group as [main] runs it: the names of the
    group sorted by score ([sorted(structures_this_length, key=get_score)]),
    then [cluster_structures]. *)
Definition sort_and_cluster {coords : Type}
    (kabsch : coords -> coords -> Res (ndarray * ndarray * float))
    (score : string -> Res float) (rmsd_cutoff : float)
    (set_iter : gset string -> list string) (coords_dict : dict string coords)
    : Res (dict string (list string)) :=
  let structures_this_length := dict_keys coords_dict in
  structures_sorted <- sorted_by PrimFloat.ltb score structures_this_length ;;
  cluster_structures kabsch set_iter coords_dict structures_sorted rmsd_cutoff.

(** [for x in l: body] over a state, stopping at the first exception. *)
Fixpoint for_each {A St : Type} (body : St -> A -> Res St) (l : list A) (st : St)
    : Res St :=
  match l with
  | [] => Ok st
  | a :: l' =>
      st' <- body st a ;;
      for_each body l' st'
  end.

(** ['_'.join(structure_name.split('_')[2:])]: the name without its
    [alpha_X.XX_] prefix. *)
Definition base_name (structure_name : string) : string :=
  str.join "_" (drop 2 (str.split_on "_" structure_name)).

(** The value stored in [all_clusters] for one representative. *)
Record cluster_info : Type := {
  members : list string;
  n_residues : nat;
  n_members : nat;
  representative_score : float
}.

(** The state of the loading loop: the two dictionaries it fills, and one
    entry per warning it prints. *)
Record loaded : Type := {
  coords_by_length : dict nat (dict string ndarray);
  structure_info : dict string (nat * float);
  warnings : list (string * exn)
}.

(** The body of [for cif_file in cif_files]. The [try] block stores the
    coordinates before it looks the score up, so an exception of the lookup
    would leave them stored. *)
Definition load_file (scores : dict string float) (st : loaded) (f : cif_file)
    : loaded :=
  let structure_name := file_name f in
  let base := base_name structure_name in
  if negb (dict_mem scores base) then st
  else
    match extract_backbone_coords f with
    | Raise e =>
        {| coords_by_length := coords_by_length st;
           structure_info := structure_info st;
           warnings := warnings st ++ [(structure_name, e)] |}
    | Ok (coords, n_residues) =>
        let group := default [] (dict_find (coords_by_length st) n_residues) in
        let by_length :=
          dict_set (coords_by_length st) n_residues
            (dict_set group structure_name coords) in
        match dict_find scores base with
        | Some score =>
            {| coords_by_length := by_length;
               structure_info :=
                 dict_set (structure_info st) structure_name (n_residues, score);
               warnings := warnings st |}
        | None =>
            {| coords_by_length := by_length;
               structure_info := structure_info st;
               warnings := warnings st ++ [(structure_name, KeyError base)] |}
        end
    end.

Definition load_files (scores : dict string float) (cif_files : list cif_file)
    : loaded :=
  fold_left (load_file scores) cif_files
    {| coords_by_length := []; structure_info := []; warnings := [] |}.

Definition title_line : string :=
  "# Cluster representatives (sorted by score)" ++ str.newline.
Definition header_line : string :=
  "# Representative" ++ str.tab ++ "N_residues" ++ str.tab ++ "N_members"
    ++ str.tab ++ "Score" ++ str.newline.

(** One row of [cluster_representatives.txt]. *)
Definition representative_row (rep : string) (info : cluster_info) : string :=
  rep ++ str.tab ++ str.of_nat (n_residues info) ++ str.tab
    ++ str.of_nat (n_members info) ++ str.tab
    ++ format_3f (representative_score info) ++ str.newline.

(** The strings written to [cluster_representatives.txt], one per
    [f.write]. *)
Definition write_representatives (all_clusters : dict string cluster_info)
    (all_representatives : list string) : Res (list string) :=
  reps_sorted <-
    sorted_by PrimFloat.ltb
      (fun r => info <- dict_get all_clusters r ;; Ok (representative_score info))
      all_representatives ;;
  rows <-
    for_each (fun rows rep =>
                info <- dict_get all_clusters rep ;;
                Ok (rows ++ [representative_row rep info]))
      reps_sorted [] ;;
  Ok (title_line :: header_line :: rows).

(** What a run leaves behind: the dictionary dumped to [clusters.json], the
    strings written to [cluster_representatives.txt], the warnings. *)
Record run : Type := {
  clusters_json : dict string cluster_info;
  representatives_txt : list string;
  run_warnings : list (string * exn)
}.

Section Main.
Variable float_of_string : string -> option float.
Variable svd : nat -> nat -> list (list float) ->
               option (list (list float) * list float * list (list float)).
Variable det : list (list float) -> float.
Variable set_iter : gset string -> list string.

Definition get_score (scores : dict string float) (struct_name : string)
    : Res float :=
  dict_get scores (base_name struct_name).

(** The body of [for length in sorted(coords_by_length.keys())]. *)
Definition cluster_group (scores : dict string float)
    (by_length : dict nat (dict string ndarray))
    (acc : dict string cluster_info * list string) (length : nat)
    : Res (dict string cluster_info * list string) :=
  coords_dict <- match dict_find by_length length with
                 | Some d => Ok d
                 | None => Raise (KeyError (str.of_nat length))
                 end ;;
  clusters <-
    sort_and_cluster (kabsch_algorithm svd det) (get_score scores) 1.5%float
      set_iter coords_dict ;;
  for_each (fun '(all_clusters, all_representatives) '(rep, members) =>
              score <- dict_get scores (base_name rep) ;;
              Ok (dict_set all_clusters rep
                    {| members := members;
                       n_residues := length;
                       n_members := List.length members;
                       representative_score := score |},
                  all_representatives ++ [rep]))
    clusters acc.

(** [main], from the lines of the score file and the CIF files that the
    glob found, in the order it found them. *)
Definition main (score_file : list string) (cif_files : list cif_file)
    : Res run :=
  scores <- parse_score_file float_of_string score_file ;;
  let st := load_files scores cif_files in
  lengths <- sorted_by Nat.ltb (fun n => Ok n) (dict_keys (coords_by_length st)) ;;
  clustered <- for_each (cluster_group scores (coords_by_length st)) lengths ([], []) ;;
  let '(all_clusters, all_representatives) := clustered in
  txt <- write_representatives all_clusters all_representatives ;;
  Ok {| clusters_json := all_clusters;
        representatives_txt := txt;
        run_warnings := warnings st |}.
End Main.

(** * parse_pocket_for_boltzgen.py

    The residue numbers of a pocket file of fpocket, and the BoltzGen
    configuration written from them. What [main] prints is left out. *)

Module parse_pocket_for_boltzgen.

Section ParsePocket.
(** [int(s)]: the integer a string denotes, [None] when Python raises
    [ValueError]. *)
Variable int_of_string : string -> option Z.

(** One iteration of [for line in f]: the residue number of an [ATOM] or
    [HETATM] line of fifteen fields or more is added to the set; a
    fifteenth field that is no integer is passed over. *)
Definition pocket_line (residues : gset Z) (line : string) : gset Z :=
  if str.startswith "ATOM" line || str.startswith "HETATM" line then
    let parts := str.split line in
    if 15 <=? length parts then
      match int_of_string (nth 14 parts "") with
      | Some res_num => residues ∪ {[res_num]}
      | None => residues
      end
    else residues
  else residues.

(** [lines] are the lines of the pocket file. The set is enumerated by
    [elements]; in whatever order Python enumerates it, sorting its
    distinct integers gives the same list ([sorted_ints_enumeration]). *)
Definition parse_pocket_residues (lines : list string) : list Z :=
  let residues := fold_left pocket_line lines ∅ in
  sorted_ints (elements residues).
End ParsePocket.

(** [Path(path).name]: the last component of the path that is neither
    empty nor a dot, the empty string when there is none. *)
Definition path_name (path : string) : string :=
  List.last (filter (fun part => part ≠ "" /\ part ≠ ".") (str.split_on "/" path)) "".

(** The file that [create_boltzgen_yaml] writes. *)
Record yaml_file : Type := { yaml_path : string; yaml_text : string }.

Definition create_boltzgen_yaml (structure_file : string)
    (pocket_residues : list Z) (peptide_sequence : string) (chain_id : string)
    (output_file : option string) : Res (yaml_file * string) :=
  (* Format residues as comma-separated string *)
  let binding_residues := str.join "," (map str.of_Z pocket_residues) in
  (* Get structure filename *)
  let structure_name := path_name structure_file in
  (* Generate YAML content *)
  let yaml_content :=
    String.concat ""
      (map (fun line : string => (line ++ str.newline)%string)
         ["entities:";
          "  - protein:";
          "      id: B";
          ("      sequence: " ++ peptide_sequence)%string;
          "      cyclic: true";
          "  - file:";
          ("      path: " ++ structure_name)%string;
          "      include:";
          "        - chain:";
          ("            id: " ++ chain_id)%string;
          "";
          "binding_types:";
          "  - chain:";
          ("      id: " ++ chain_id)%string;
          ("      binding: " ++ binding_residues)%string;
          "";
          ("structure_groups: " ++ str.quote ++ "all" ++ str.quote)%string]) in
  (* Write YAML file: [open(None, 'w')] raises *)
  match output_file with
  | Some path =>
      Ok ({| yaml_path := path; yaml_text := yaml_content |}, binding_residues)
  | None => Raise TypeError
  end.

(** The command line after [parser.parse_args()]. *)
Record arguments : Type := {
  structure : string;
  pocket : string;
  sequence : string;
  chain : string;
  output : string
}.

Section Main.
Variable int_of_string : string -> option Z.
(** The file system: [path_exists p] is [Path(p).exists()], and
    [lines_of p] the lines of the file [p] when it can be opened and
    read. *)
Variable path_exists : string -> bool.
Variable lines_of : string -> list string.

(** The exit status and the file written, if any. *)
Definition main (args : arguments) : Res (Z * option yaml_file) :=
  (* Check files exist *)
  if negb (path_exists (structure args)) then Ok (1%Z, None)
  else if negb (path_exists (pocket args)) then Ok (1%Z, None)
  else
    (* Parse pocket residues *)
    let residues := parse_pocket_residues int_of_string (lines_of (pocket args)) in
    match residues with
    | [] => Ok (1%Z, None)
    | _ :: _ =>
        (* Create YAML *)
        created <- create_boltzgen_yaml (structure args) residues
                     (sequence args) (chain args) (Some (output args)) ;;
        Ok (0%Z, Some created.1)
    end.
End Main.
End parse_pocket_for_boltzgen.

(** * Vocabulary of the properties *)

(** [list(s)] enumerates the set [s]: every element once, in some order. *)
Definition enumerates (set_iter : gset string -> list string) : Prop :=
  forall s, set_iter s ≡ₚ elements s.

Module Float.
Definition le (a b : float) : Prop := PrimFloat.leb a b = true.
(** Two scores are tied when [==] holds of them. *)
Definition tied (a b : float) : Prop := PrimFloat.eqb a b = true.
(** Not a NaN. *)
Definition finite_or_inf (a : float) : Prop := PrimFloat.is_nan a = false.
End Float.

Section ClusteringVocabulary.
Context {coords : Type}.
Variable kabsch : coords -> coords -> Res (ndarray * ndarray * float).
Variable coords_dict : dict string coords.
Variable structure_order : list string.
Variable set_iter : gset string -> list string.
Variable rmsd_cutoff : float.

(** The coordinates of [struct] are found and their alignment onto the
    seed returns. *)
Definition aligns (center_coords : coords) (struct : string) : Prop :=
  exists c r, dict_get coords_dict struct = Ok c /\ kabsch c center_coords = Ok r.

(** The alignment of [struct] onto the seed returns an RMSD strictly below
    the cutoff. *)
Definition within (center_coords : coords) (struct : string) : bool :=
  match dict_get coords_dict struct with
  | Ok c =>
      match kabsch c center_coords with
      | Ok (_, _, rmsd) => PrimFloat.ltb rmsd rmsd_cutoff
      | Raise _ => false
      end
  | Raise _ => false
  end.

(** The members a seed collects from the names [todo]. *)
Definition joiners (center : string) (center_coords : coords)
    (todo : list string) : list string :=
  filter (fun s => s ≠ center /\ within center_coords s = true) todo.

(** One turn of the [while] loop, as a relation between the state
    before and the state after. *)
Definition turn (U : gset string) (Cl : dict string (list string))
    (U' : gset string) (Cl' : dict string (list string)) : Prop :=
  exists center cc,
    U ≠ ∅ /\ pick_center structure_order U = Some center /\
    dict_get coords_dict center = Ok cc /\
    (forall s, s ∈ set_iter U -> s ≠ center -> aligns cc s) /\
    let ms := center :: joiners center cc (set_iter U) in
    U' = U ∖ list_to_set ms /\ Cl' = dict_set Cl center ms.

(** The names ranked are the names of the group, and any two coordinate
    sets of the group can be aligned. *)
Definition ranked : Prop :=
  forall name, name ∈ structure_order <-> name ∈ dict_keys coords_dict.
Definition comparable : Prop :=
  forall ca cb, ca ∈ dict_values coords_dict -> cb ∈ dict_values coords_dict ->
                is_Ok (kabsch ca cb).

(** The alignment of [p] and [q], either way round, returns the RMSD [r]. *)
Definition rmsd_between (p q : coords) (r : float) : Prop :=
  (exists R t, kabsch p q = Ok (R, t, r)) /\ (exists R t, kabsch q p = Ok (R, t, r)).
End ClusteringVocabulary.

(** The clusters [Cl] hold the names of [S0] that are no longer in the
    working set [U], each once, every cluster starting with its
    representative. *)
Definition partitions (S0 U : gset string) (Cl : dict string (list string))
    : Prop :=
  U ⊆ S0 /\
  NoDup (concat (dict_values Cl)) /\
  (forall name, name ∈ concat (dict_values Cl) <-> name ∈ S0 /\ name ∉ U) /\
  Forall (fun kv => head kv.2 = Some kv.1) Cl /\
  length Cl + size U <= size S0.

(** Every cluster holds its representative, and no member scores lower. *)
Definition lowest_first (score : string -> float)
    (Cl : dict string (list string)) : Prop :=
  forall rep members, (rep, members) ∈ Cl ->
    rep ∈ members /\
    forall m, m ∈ members -> PrimFloat.ltb (score m) (score rep) = false.

(** Two runs assign alike: the same representatives in the same order, each
    with the same members, the representative first. *)
Definition same_assignment (Cl1 Cl2 : dict string (list string)) : Prop :=
  Forall2 (fun c1 c2 => c1.1 = c2.1 /\ head c1.2 = head c2.2 /\ c1.2 ≡ₚ c2.2)
    Cl1 Cl2.

Definition no_nan_score (score : string -> Res float) (names : list string)
    : Prop :=
  forall name sc, name ∈ names -> score name = Ok sc -> Float.finite_or_inf sc.

(** Every representative that the clustering loop of [main] lists has its
    entry in [all_clusters]. *)
Definition listed (acc : dict string cluster_info * list string) : Prop :=
  forall rep, rep ∈ acc.2 -> is_Some (dict_find acc.1 rep).

Definition no_tied_scores (score : string -> Res float) (names : list string)
    : Prop :=
  forall a b sa sb, a ∈ names -> b ∈ names ->
    score a = Ok sa -> score b = Ok sb -> Float.tied sa sb -> a = b.

(** A residue with its four backbone atoms; the residues of the first model
    of a file. *)
Definition complete (residue : gemmi.Residue) : Prop :=
  forall atom_name, atom_name ∈ atom_names ->
    is_Some (gemmi.find_atom residue atom_name zero).

Definition residues_of (f : cif_file) : list gemmi.Residue :=
  match read_structure f with
  | Ok (model :: _) => concat model
  | _ => []
  end.

(** Two states of the loading loop hold the same structures. *)
Definition same_data (st st' : loaded) : Prop :=
  coords_by_length st = coords_by_length st' /\
  structure_info st = structure_info st'.

(** [line] is the row of [rep]: its name, residue count, member count and
    score to three decimals, separated by tabs. *)
Definition row_of (all_clusters : dict string cluster_info)
    (rep : string) (line : string) : Prop :=
  exists info,
    dict_find all_clusters rep = Some info /\
    line = (rep ++ str.tab ++ str.of_nat (n_residues info) ++ str.tab
              ++ str.of_nat (n_members info) ++ str.tab
              ++ format_3f (representative_score info) ++ str.newline)%string.

(** The representative [a] scores no higher than [b]. *)
Definition score_le (all_clusters : dict string cluster_info)
    (a b : string) : Prop :=
  exists ia ib,
    dict_find all_clusters a = Some ia /\ dict_find all_clusters b = Some ib /\
    Float.le (representative_score ia) (representative_score ib).

(** Threshold monotonicity of a clustering run, as a function of the
    cutoff: a lower cutoff gives no fewer clusters, and to no representative
    more members. *)
Definition threshold_monotone (run : float -> Res (dict string (list string)))
    : Prop :=
  forall lo hi clusters_lo clusters_hi,
    Float.le lo hi -> run lo = Ok clusters_lo -> run hi = Ok clusters_hi ->
    length clusters_hi <= length clusters_lo /\
    forall rep members_lo members_hi,
      dict_find clusters_lo rep = Some members_lo ->
      dict_find clusters_hi rep = Some members_hi ->
      length members_lo <= length members_hi.

(** The scenario of three structures A, B and C. *)
Definition three {coords : Type} (cA cB cC : coords) : dict string coords :=
  [("A", cA); ("B", cB); ("C", cC)].
Definition three_scores : dict string float :=
  [("A", 1%float); ("B", 2%float); ("C", 0.5%float)].

(** ** The guarantees of the clustering *)

Section ClusterGuaranteesVocabulary.
Context {coords : Type}.
Variable kabsch : coords -> coords -> Res (ndarray * ndarray * float).
Variable coords_dict : dict string coords.
Variable rmsd_cutoff : float.

(** The alignment of [struct] onto the coordinates [center_coords] returns
    an RMSD that is, or is not, strictly below the cutoff. *)
Definition rmsd_below (below : bool) (center_coords : coords) (struct : string)
    : Prop :=
  exists c R t rmsd,
    dict_get coords_dict struct = Ok c /\
    kabsch c center_coords = Ok (R, t, rmsd) /\
    PrimFloat.ltb rmsd rmsd_cutoff = below.

(** Every cluster of [Cl] has the coordinates of its representative, and
    its other members are below the cutoff from them. *)
Definition all_close (Cl : dict string (list string)) : Prop :=
  forall rep members, (rep, members) ∈ Cl ->
    exists rep_coords,
      dict_get coords_dict rep = Ok rep_coords /\
      forall m, m ∈ members -> m = rep \/ rmsd_below true rep_coords m.

(** The state of the loop, for the separation of the clusters: no
    representative is still unclustered, every unclustered name is outside
    every cluster formed, and so is every member of a later cluster. *)
Definition separated (U : gset string) (Cl : dict string (list string)) : Prop :=
  (forall k, k ∈ dict_keys Cl -> k ∉ U) /\
  (forall rep ms, (rep, ms) ∈ Cl ->
     exists cc, dict_get coords_dict rep = Ok cc /\
                forall s, s ∈ U -> rmsd_below false cc s) /\
  (forall i j ci cj, Cl !! i = Some ci -> Cl !! j = Some cj -> i < j ->
     exists cc, dict_get coords_dict ci.1 = Ok cc /\
                forall m, m ∈ cj.2 -> rmsd_below false cc m).
End ClusterGuaranteesVocabulary.

(** The covariance matrix that [kabsch_algorithm] hands to the
    decomposition. *)
Definition covariance (P Q : ndarray) : Res ndarray :=
  centroid_P <- np.mean0 P ;;
  centroid_Q <- np.mean0 Q ;;
  P_centered <- np.sub P centroid_P ;;
  Q_centered <- np.sub Q centroid_Q ;;
  np.matmul (np.T P_centered) Q_centered.

(** ** The score table, the loaded structures and the run *)

(** [line.strip().split()]: the fields of a line of the score file. *)
Definition fields (line : string) : list string := str.split (str.strip line).

(** A line that [parse_score_file] reads an entry from: three fields or
    more, the second the name, the third the score. *)
Definition names_score (float_of_string : string -> option float)
    (line : string) (name : string) (score : float) : Prop :=
  3 <= length (fields line) /\ nth 1 (fields line) "" = name /\
  float_of_string (nth 2 (fields line) "") = Some score.

(** A word: not empty, and free of white space. *)
Definition word (s : string) : Prop :=
  s ≠ "" /\ Forall (fun c => str.isspace c = false) (list_ascii_of_string s).

(** The loading loop has filed [coords] under the length [n] and the name
    [name]. *)
Definition grouped (st : loaded) (n : nat) (name : string) (coords : ndarray)
    : Prop :=
  exists group,
    dict_find (coords_by_length st) n = Some group /\
    dict_find group name = Some coords.

(** An entry of [clusters.json], against what was loaded: the member count
    is the number of members, the first member is the representative, the
    score is the representative's, and every other member was filed under
    the entry's residue count and aligned onto the representative with an
    RMSD below 1.5. *)
Definition entry_of
    (kabsch : ndarray -> ndarray -> Res (ndarray * ndarray * float))
    (scores : dict string float) (st : loaded)
    (rep : string) (info : cluster_info) : Prop :=
  n_members info = length (members info) /\
  head (members info) = Some rep /\
  dict_find scores (base_name rep) = Some (representative_score info) /\
  exists rep_coords,
    grouped st (n_residues info) rep rep_coords /\
    forall m, m ∈ members info ->
      m = rep \/
      exists c R t rmsd,
        grouped st (n_residues info) m c /\
        kabsch c rep_coords = Ok (R, t, rmsd) /\
        PrimFloat.ltb rmsd 1.5 = true.

(** The names clustered by a run: the members of all the entries of
    [clusters.json], entry after entry. *)
Definition clustered_names (all_clusters : dict string cluster_info)
    : list string :=
  concat (map members (dict_values all_clusters)).

(** What the loop over the length groups has built once the lengths [seen]
    are done. *)
Definition stored (st : loaded) (seen : list nat)
    (acc : dict string cluster_info * list string) : Prop :=
  acc.2 = dict_keys acc.1 /\
  Forall (fun kv => head (members kv.2) = Some kv.1 /\
                    n_members kv.2 = length (members kv.2)) acc.1 /\
  NoDup (clustered_names acc.1) /\
  forall name, name ∈ clustered_names acc.1 <->
               exists n c, n ∈ seen /\ grouped st n name c.

(** ** The pocket file *)

(** The line [line] gives the residue number [z]: it starts with [ATOM] or
    [HETATM], has fifteen fields or more, and its fifteenth field reads as
    the integer [z]. *)
Definition gives_residue (int_of_string : string -> option Z)
    (line : string) (z : Z) : Prop :=
  (str.startswith "ATOM" line = true \/ str.startswith "HETATM" line = true) /\
  15 <= length (str.split line) /\
  int_of_string (nth 14 (str.split line) "") = Some z.

(** A string free of the character [c]. *)
Definition free_of (c : ascii) (s : string) : Prop :=
  c ∉ list_ascii_of_string s.

(** * Worked inputs *)

Module Example.

(** A singular value decomposition of a diagonal matrix with non-negative
    entries: identity matrices around the diagonal. (LAPACK lists the
    values in descending order, which permutes the columns of [U] and the
    rows of [Vt] together and leaves [Vt.T @ U.T] the identity.) *)
Definition identity (n : nat) : list (list float) :=
  map (fun i => map (fun j => if Nat.eqb i j then 1%float else 0%float) (seq 0 n))
    (seq 0 n).

Definition svd_of_diagonal (m n : nat) (rows : list (list float))
    : option (list (list float) * list float * list (list float)) :=
  Some (identity m,
        map (fun i => nth i (nth i rows []) 0%float) (seq 0 (m `min` n)),
        identity n).

(** The determinant of a 3 by 3 matrix, by its first row. *)
Definition det_3x3 (rows : list (list float)) : float :=
  let e i j := nth j (nth i rows []) 0%float in
  let '(a, b, c) := (e 0 0, e 0 1, e 0 2) in
  let '(d, f, g) := (e 1 0, e 1 1, e 1 2) in
  let '(h, i, j) := (e 2 0, e 2 1, e 2 2) in
  (a * (f * j - g * i) - b * (d * j - g * h) + c * (d * i - f * h))%float.

Definition kabsch : ndarray -> ndarray -> Res (ndarray * ndarray * float) :=
  kabsch_algorithm svd_of_diagonal det_3x3.

(** Eight backbone atoms (two residues) on the coordinate axes, at
    distances [a], [b] and 1 from their centroid, the origin. For two
    such structures the covariance matrix is diagonal and the RMSD is
    half the distance between [(a, b)] and [(a', b')]. *)
Definition cross (a b : float) : ndarray :=
  Mat 3 [[a; 0; 0]; [-a; 0; 0]; [0; b; 0]; [0; -b; 0];
         [0; 0; 1]; [0; 0; -1]; [0; 0; 0]; [0; 0; 0]]%float.

Definition six : dict string ndarray :=
  [("a", cross 10 10); ("b", cross 12.5 10); ("c", cross 14 10);
   ("d", cross 6.5 11.625); ("e", cross 6.5 8.375); ("f", cross 7.5 10)]%float.

Definition six_order : list string := ["a"; "c"; "f"; "b"; "d"; "e"].

Definition six_scores : dict string float :=
  [("a", -6.5); ("c", -6.25); ("f", -4); ("b", -3.5); ("d", -1.125);
   ("e", 0.75)]%float.

Definition six_score (name : string) : float :=
  default 0%float (dict_find six_scores name).

(** The scenario's alignment, as a table of RMSD values over the names. *)
Definition three_rmsd (p q : string) : float :=
  match p, q with
  | "A", "B" | "B", "A" => 0.3
  | "A", "C" | "C", "A" => 2
  | "B", "C" | "C", "B" => 1.75
  | _, _ => 0
  end%float.

Definition three_kabsch (p q : string) : Res (ndarray * ndarray * float) :=
  Ok (Mat 3 (identity 3), Vec [0; 0; 0]%float, three_rmsd p q).

(** Two ways to enumerate a set. *)
Definition forwards (s : gset string) : list string := elements s.
Definition backwards (s : gset string) : list string := reverse (elements s).

(** [float] on a plain decimal numeral: an optional sign, digits, an
    optional point and digits. With few digits (the digits read as one
    integer below 2^53) the quotient of the two integers is the nearest
    binary64 value, as Python's [float] gives; longer numerals are not
    among the worked inputs. *)
Fixpoint digits (acc : N) (l : list ascii) : option N :=
  match l with
  | [] => Some acc
  | c :: l' =>
      let n := N_of_ascii c in
      if ((48 <=? n) && (n <=? 57))%N then digits (acc * 10 + (n - 48))%N l'
      else None
  end.

Definition float_of_N (n : N) : float :=
  PrimFloat.of_uint63 (Uint63.of_Z (Z.of_N n)).

Definition float_of_decimal (s : string) : option float :=
  let '(negative, body) :=
    match list_ascii_of_string s with
    | "-"%char :: body => (true, body)
    | body => (false, body)
    end in
  match str.split_chars "."%char body with
  | [whole] =>
      match whole, digits 0 whole with
      | _ :: _, Some n =>
          Some (if negative then - float_of_N n else float_of_N n)%float
      | _, _ => None
      end
  | [whole; frac] =>
      match whole ++ frac, digits 0 (whole ++ frac) with
      | _ :: _, Some n =>
          let v := (float_of_N n / float_of_N (10 ^ N.of_nat (length frac)))%float in
          Some (if negative then - v else v)%float
      | _, _ => None
      end
  | _ => None
  end.

(** A structure file with one model of one chain; every four points make
    a residue with the atoms N, CA, C and O. *)
Definition atom (name : string) (p : list float) : gemmi.Atom :=
  {| gemmi.name := name; gemmi.altloc := zero;
     gemmi.pos := {| gemmi.x := nth 0 p 0%float; gemmi.y := nth 1 p 0%float;
                     gemmi.z := nth 2 p 0%float |} |}.

Fixpoint residues (points : list (list float)) : gemmi.Chain :=
  match points with
  | n :: ca :: c :: o :: rest =>
      [atom "N" n; atom "CA" ca; atom "C" c; atom "O" o] :: residues rest
  | _ => []
  end.

Definition points_of (a : ndarray) : list (list float) :=
  match a with Mat _ rows => rows | _ => [] end.

Definition cif (name : string) (a : ndarray) : cif_file :=
  {| file_name := ("alpha_0.01_" ++ name ++ "_chainA.cif")%string;
     read_structure := Ok [[residues (points_of a)]] |}.

Definition six_files : list cif_file :=
  map (fun '(name, a) => cif name a) six.

Definition six_score_file : list string :=
  map (fun line : string => (line ++ str.newline)%string)
    ["rank structure min_internal_hbonds";
     "1 a_chainA.cif -6.5";
     "2 c_chainA.cif -6.25";
     "3 f_chainA.cif -4";
     "4 b_chainA.cif -3.5";
     "5 d_chainA.cif -1.125";
     "6 e_chainA.cif 0.75"].

(** The mapping that [six_score_file] holds. *)
Definition six_file_scores : dict string float :=
  [("a_chainA.cif", -6.5); ("c_chainA.cif", -6.25); ("f_chainA.cif", -4);
   ("b_chainA.cif", -3.5); ("d_chainA.cif", -1.125); ("e_chainA.cif", 0.75)]%float.

(** The clusters of the six files, as [main] stores them. *)
Definition six_clusters : dict string cluster_info :=
  [("alpha_0.01_a_chainA.cif",
    {| members := ["alpha_0.01_a_chainA.cif"; "alpha_0.01_f_chainA.cif";
                   "alpha_0.01_b_chainA.cif"];
       n_residues := 2; n_members := 3; representative_score := -6.5 |});
   ("alpha_0.01_c_chainA.cif",
    {| members := ["alpha_0.01_c_chainA.cif"];
       n_residues := 2; n_members := 1; representative_score := -6.25 |});
   ("alpha_0.01_d_chainA.cif",
    {| members := ["alpha_0.01_d_chainA.cif"];
       n_residues := 2; n_members := 1; representative_score := -1.125 |});
   ("alpha_0.01_e_chainA.cif",
    {| members := ["alpha_0.01_e_chainA.cif"];
       n_residues := 2; n_members := 1; representative_score := 0.75 |})]%float.

(** Two residues with all their backbone atoms, and three residues the
    last of which has only its N. *)
Definition complete_file : cif_file := cif "a" (cross 10 10).
Definition clipped_file : cif_file :=
  {| file_name := "alpha_0.01_b_chainA.cif";
     read_structure :=
       Ok [[residues (points_of (cross 12.5 10))
              ++ [[atom "N" [1; 2; 3]%float]]]] |}.
(** A file that cannot be parsed, and one that holds no model. *)
Definition broken_file : cif_file :=
  {| file_name := "alpha_0.01_c_chainA.cif"; read_structure := Raise ReadError |}.
Definition empty_file : cif_file :=
  {| file_name := "alpha_0.01_d_chainA.cif"; read_structure := Ok [] |}.

(** A score table with a line of four fields whose third is no number. *)
Definition malformed_score_file : list string :=
  "rank structure score"
  :: ["1 a_chainA.cif -6.5"] ++ "# sorted by score" :: ["2 c_chainA.cif -6.25"].

(** The run on the six files. *)
Definition six_run : run :=
  {| clusters_json := six_clusters;
     representatives_txt :=
       ["# Cluster representatives (sorted by score)" ++ str.newline;
        "# Representative" ++ str.tab ++ "N_residues" ++ str.tab
          ++ "N_members" ++ str.tab ++ "Score" ++ str.newline;
        "alpha_0.01_a_chainA.cif" ++ str.tab ++ "2" ++ str.tab ++ "3"
          ++ str.tab ++ "-6.500" ++ str.newline;
        "alpha_0.01_c_chainA.cif" ++ str.tab ++ "2" ++ str.tab ++ "1"
          ++ str.tab ++ "-6.250" ++ str.newline;
        "alpha_0.01_d_chainA.cif" ++ str.tab ++ "2" ++ str.tab ++ "1"
          ++ str.tab ++ "-1.125" ++ str.newline;
        "alpha_0.01_e_chainA.cif" ++ str.tab ++ "2" ++ str.tab ++ "1"
          ++ str.tab ++ "0.750" ++ str.newline]%string;
     run_warnings := [] |}.

(** A structure file that the table of the six does not score. *)
Definition unscored_file : cif_file := cif "g" (cross 9 9).

(** A score table that names one structure twice. *)
Definition twice_header : string := "rank structure min_internal_hbonds".
Definition twice_first : string := "1 a_chainA.cif 5".
Definition twice_second : string := "2 a_chainA.cif -6.5".
Definition twice_other : string := "3 b_chainA.cif 1".

(** A reading of integers for the worked inputs: a plain decimal numeral,
    digits after an optional minus sign, and nothing else. *)
Definition int_of_decimal (s : string) : option Z :=
  match list_ascii_of_string s with
  | [] => None
  | "-"%char :: [] => None
  | "-"%char :: body => (fun n => (- Z.of_N n)%Z) <$> digits 0 body
  | body => Z.of_N <$> digits 0 body
  end.

(** Lines of a pocket file: two atoms of residue 25, one of residue 7, a
    line whose fifteenth field is no number, a line of eight fields and a
    line that is no atom record. *)
Definition pocket_lines : list string :=
  map (fun line : string => (line ++ str.newline)%string)
    ["ATOM 1 N N . LEU A 1 25 ? 1.0 2.0 3.0 1.0 25 A";
     "ATOM 2 C CA . LEU A 1 25 ? 1.5 2.0 3.0 1.0 25 A";
     "HETATM 3 O O . HOH B 2 7 ? 4.0 5.0 6.0 1.0 7 B";
     "ATOM 4 C CB . LEU A 1 . ? 1.0 2.5 3.0 1.0 . A";
     "ATOM 5 N N . GLY A 1";
     "loop_ 1 2 3 4 5 6 7 8 9 10 11 12 13 14 15"].

(** A command line of the pocket script, and a file system that holds
    every path, each with the sample lines. *)
Definition pocket_arguments : parse_pocket_for_boltzgen.arguments :=
  {| parse_pocket_for_boltzgen.structure := "/data/4QKZ.cif";
     parse_pocket_for_boltzgen.pocket := "4QKZ_out/pockets/pocket1_atm.cif";
     parse_pocket_for_boltzgen.sequence := "14..20";
     parse_pocket_for_boltzgen.chain := "A";
     parse_pocket_for_boltzgen.output := "4QKZ_pocket1_cyclic.yaml" |}.
Definition every_path (path : string) : bool := true.
Definition sample_lines (path : string) : list string := pocket_lines.

(** A score table whose last line has a third field that is no number. *)
Definition unread_score_file : list string :=
  ["rank structure min_internal_hbonds";
   "1 a_chainA.cif 5";
   "2 b_chainA.cif n/a"].

End Example.

(** * Properties *)

(** ** The order of floats *)

(** Case analysis over the specification of the IEEE comparison. *)
Ltac sf_order :=
  unfold SFltb, SFleb, SFeqb, SFcompare;
  repeat match goal with
         | x : spec_float |- _ => destruct x as [[]|[]| |[] ? ?]
         end;
  simpl; intros; try discriminate; try reflexivity; auto;
  rewrite ?Pos.compare_cont_spec in *; simpl in *;
  repeat match goal with
         | |- context [Z.compare ?a ?b] => destruct (Z.compare_spec a b)
         | H : context [Z.compare ?a ?b] |- _ => destruct (Z.compare_spec a b)
         end;
  simpl in *; try discriminate; try reflexivity; try lia; subst;
  repeat match goal with
         | |- context [Pos.compare ?a ?b] => destruct (Pos.compare_spec a b)
         | H : context [Pos.compare ?a ?b] |- _ => destruct (Pos.compare_spec a b)
         end;
  simpl in *; try discriminate; try reflexivity; try lia.

Lemma SF_lt_le_trans a b c :
  SFltb a b = true -> SFleb b c = true -> SFltb a c = true.
Proof. revert a b c. intros a b c. sf_order. Qed.

Lemma SF_le_trans a b c :
  SFleb a b = true -> SFleb b c = true -> SFleb a c = true.
Proof. sf_order. Qed.

Lemma SF_lt_irrefl a : SFltb a a = false.
Proof. sf_order. Qed.

Lemma SF_le_not_gt a b : SFleb a b = true -> SFltb b a = false.
Proof. sf_order. Qed.

Lemma SF_not_gt_le a b :
  SFeqb a a = true -> SFeqb b b = true -> SFltb b a = false -> SFleb a b = true.
Proof. sf_order. Qed.

Lemma SF_lt_le a b : SFltb a b = true -> SFleb a b = true.
Proof. sf_order. Qed.

Lemma SF_le_antisym a b :
  SFleb a b = true -> SFleb b a = true -> SFeqb a b = true.
Proof. sf_order. Qed.

Module FloatOrder.
Import Float.
Lemma lt_le_trans a b c :
  PrimFloat.ltb a b = true -> le b c -> PrimFloat.ltb a c = true.
Proof. unfold le. rewrite !FloatAxioms.ltb_spec, FloatAxioms.leb_spec. apply SF_lt_le_trans. Qed.

Lemma le_trans a b c : le a b -> le b c -> le a c.
Proof. unfold le. rewrite !FloatAxioms.leb_spec. apply SF_le_trans. Qed.

Lemma lt_irrefl a : PrimFloat.ltb a a = false.
Proof. rewrite FloatAxioms.ltb_spec. apply SF_lt_irrefl. Qed.

Lemma le_not_gt a b : le a b -> PrimFloat.ltb b a = false.
Proof. unfold le. rewrite FloatAxioms.ltb_spec, FloatAxioms.leb_spec. apply SF_le_not_gt. Qed.

Lemma not_gt_le a b :
  finite_or_inf a -> finite_or_inf b -> PrimFloat.ltb b a = false -> le a b.
Proof.
  unfold finite_or_inf, le, PrimFloat.is_nan.
  rewrite FloatAxioms.ltb_spec, FloatAxioms.leb_spec, !FloatAxioms.eqb_spec, !negb_false_iff.
  apply SF_not_gt_le.
Qed.

Lemma lt_le a b : PrimFloat.ltb a b = true -> le a b.
Proof. unfold le. rewrite FloatAxioms.ltb_spec, FloatAxioms.leb_spec. apply SF_lt_le. Qed.

Lemma le_antisym a b : le a b -> le b a -> tied a b.
Proof. unfold le, tied. rewrite !FloatAxioms.leb_spec, FloatAxioms.eqb_spec. apply SF_le_antisym. Qed.
End FloatOrder.

Lemma elem_of_concat {A : Type} (x : A) (ls : list (list A)) :
  x ∈ concat ls <-> exists l, x ∈ l /\ l ∈ ls.
Proof.
  rewrite list_elem_of_In, in_concat. split; intros (l & ? & ?); exists l.
  - by rewrite !list_elem_of_In.
  - by rewrite <- !list_elem_of_In.
Qed.

(** ** Dictionaries *)

Section DictFacts.
Context {K V : Type} `{EqDecision K}.
Implicit Types (d : dict K V) (k : K) (v : V).

Lemma dict_find_Some_keys d k v : dict_find d k = Some v -> k ∈ dict_keys d.
Proof.
  induction d as [|[k' v'] d IH]; simpl; [done|].
  case_decide; subst; intros; [left | right; auto].
Qed.

Lemma dict_find_keys d k : k ∈ dict_keys d -> is_Some (dict_find d k).
Proof.
  induction d as [|[k' v'] d IH]; simpl.
  - by intros ?%elem_of_nil.
  - case_decide; [eauto|]. intros [?|?]%elem_of_cons; [congruence | auto].
Qed.

Lemma dict_find_elem_of d k v : dict_find d k = Some v -> (k, v) ∈ d.
Proof.
  induction d as [|[k' v'] d IH]; simpl; [done|].
  case_decide; subst.
  - intros [= ->]. left.
  - right; auto.
Qed.

Lemma dict_set_fresh d k v : k ∉ dict_keys d -> dict_set d k v = d ++ [(k, v)].
Proof.
  induction d as [|[k' v'] d IH]; simpl; [done|].
  rewrite not_elem_of_cons. intros [? ?].
  case_decide; [congruence|]. by rewrite IH.
Qed.

Lemma dict_set_elem_of d k v kv : kv ∈ dict_set d k v -> kv ∈ d \/ kv = (k, v).
Proof.
  induction d as [|[k' v'] d IH]; simpl.
  - intros ?%list_elem_of_singleton; auto.
  - case_decide; subst.
    + intros [->|?]%elem_of_cons; [by right | left; by right].
    + intros [->|?]%elem_of_cons; [left; left|].
      destruct IH as [?|?]; auto. left; by right.
Qed.

Lemma dict_find_set_eq d k v : dict_find (dict_set d k v) k = Some v.
Proof.
  induction d as [|[k' v'] d IH]; simpl.
  - by rewrite decide_True.
  - case_decide as Hk; simpl; [by rewrite decide_True|].
    by rewrite decide_False.
Qed.

Lemma dict_find_set_ne d k k' v :
  k ≠ k' -> dict_find (dict_set d k v) k' = dict_find d k'.
Proof.
  intros Hne. induction d as [|[k0 v0] d IH]; simpl.
  - by rewrite decide_False.
  - case_decide as Hk; simpl.
    + subst k0. by rewrite !decide_False.
    + by rewrite IH.
Qed.

Lemma dict_mem_keys d k : dict_mem d k = true <-> k ∈ dict_keys d.
Proof.
  unfold dict_mem, dict_keys. rewrite existsb_exists, list_elem_of_fmap.
  split.
  - intros ([k' v] & Hin & Hk). apply bool_decide_eq_true in Hk.
    exists (k', v). by rewrite list_elem_of_In.
  - intros ([k' v] & -> & Hin). exists (k', v).
    rewrite <- list_elem_of_In. by rewrite bool_decide_eq_true.
Qed.
End DictFacts.

Lemma dict_get_Ok {V : Type} (d : dict string V) k v :
  dict_get d k = Ok v <-> dict_find d k = Some v.
Proof. unfold dict_get. destruct (dict_find d k); naive_solver. Qed.

(** ** Sorting *)

Lemma StronglySorted_weaken {A : Type} (R1 R2 : A -> A -> Prop) (l : list A) :
  (forall a b, R1 a b -> R2 a b) -> StronglySorted R1 l -> StronglySorted R2 l.
Proof.
  intros Himpl. induction 1 as [|a l Hsorted IH Hall]; constructor; [done|].
  eapply Forall_impl; [done|]. auto.
Qed.

Section SortFacts.
Context {A K : Type}.
Variable lt : K -> K -> bool.
(** The order that [lt] decides on the keys that satisfy [good]. *)
Variable le : K -> K -> Prop.
Variable good : K -> Prop.
Hypothesis le_trans : forall a b c, le a b -> le b c -> le a c.
Hypothesis lt_le : forall a b, lt a b = true -> le a b.
Hypothesis not_gt_le : forall a b, good a -> good b -> lt b a = false -> le a b.

Implicit Types (kx : K * A) (l : list (K * A)).

Lemma insert_keyed_perm kx l : insert_keyed lt kx l ≡ₚ kx :: l.
Proof.
  induction l as [|ky l IH]; simpl; [done|].
  destruct (lt ky.1 kx.1); [|done]. rewrite IH. apply Permutation_swap.
Qed.

Lemma sort_keyed_perm l : sort_keyed lt l ≡ₚ l.
Proof.
  induction l as [|kx l IH]; simpl; [done|].
  by rewrite insert_keyed_perm, IH.
Qed.

Local Abbreviation by_key := (fun kx ky : K * A => le kx.1 ky.1).

Lemma insert_keyed_sorted kx l :
  good kx.1 -> Forall (fun ky => good ky.1) l ->
  StronglySorted by_key l -> StronglySorted by_key (insert_keyed lt kx l).
Proof.
  intros Hkx Hgood Hsorted.
  induction Hsorted as [|ky l Hsorted IH Hall]; simpl.
  - by repeat constructor.
  - apply Forall_cons in Hgood as [Hky Hgood].
    destruct (lt ky.1 kx.1) eqn:Hlt.
    + constructor; [by apply IH|].
      rewrite insert_keyed_perm. constructor; [by apply lt_le | done].
    + assert (le kx.1 ky.1) by by apply not_gt_le.
      constructor; [by constructor|]. constructor; [done|].
      eapply Forall_impl; [done|]. simpl. eauto.
Qed.

Lemma sort_keyed_sorted l :
  Forall (fun ky => good ky.1) l -> StronglySorted by_key (sort_keyed lt l).
Proof.
  induction 1 as [|kx l Hkx Hgood IH]; simpl; [constructor|].
  apply insert_keyed_sorted; [done| |done].
  by rewrite sort_keyed_perm.
Qed.

Variable key : A -> Res K.

Lemma keyed_Ok xs kl :
  keyed key xs = Ok kl <->
  Forall2 (fun a ka => key a = Ok ka.1 /\ ka.2 = a) xs kl.
Proof.
  revert kl. induction xs as [|a xs IH]; intros kl; simpl.
  - split; [intros [= <-]; constructor | by intros ->%Forall2_nil_inv_l].
  - destruct (key a) as [k|e] eqn:Hk; simpl.
    2:{ split; [done|]. intros ([k a'] & kl' & [Hk' _] & _ & _)%Forall2_cons_inv_l.
        simpl in Hk'. congruence. }
    destruct (keyed key xs) as [kl0|e] eqn:Hkl; simpl.
    + split.
      * intros [= <-]. constructor; [done|]. by apply IH.
      * intros ([k' a'] & kl' & [Hk' Ha'] & Hrest & ->)%Forall2_cons_inv_l.
        simpl in *. apply IH in Hrest. congruence.
    + split; [done|].
      intros ([k' a'] & kl' & _ & Hrest & _)%Forall2_cons_inv_l.
      apply IH in Hrest. done.
Qed.

Lemma keyed_returns xs :
  (forall a, a ∈ xs -> is_Ok (key a)) -> is_Ok (keyed key xs).
Proof.
  induction xs as [|a xs IH]; simpl; intros Hall; [by eexists|].
  destruct (Hall a) as [k ->]; [left|]. simpl.
  destruct IH as [kl ->]; [|by eexists]. intros; apply Hall. by right.
Qed.

Lemma sorted_by_Ok xs ys :
  sorted_by lt key xs = Ok ys ->
  ys ≡ₚ xs /\ forall a, a ∈ xs -> is_Ok (key a).
Proof.
  unfold sorted_by. destruct (keyed key xs) as [kl|] eqn:Hkl; simpl; [|done].
  intros [= <-]. apply keyed_Ok in Hkl. split.
  - rewrite sort_keyed_perm. clear -Hkl.
    induction Hkl as [|a [k a'] xs kl [_ Ha] _ IH]; simpl in *; [done|].
    subst. by rewrite IH.
  - intros a [i Hi]%list_elem_of_lookup.
    eapply Forall2_lookup_l in Hkl as (ka & _ & [Hk _]); [|done].
    by exists ka.1.
Qed.

Lemma sorted_by_returns xs :
  (forall a, a ∈ xs -> is_Ok (key a)) -> is_Ok (sorted_by lt key xs).
Proof.
  intros [kl Hkl]%keyed_returns. unfold sorted_by. rewrite Hkl. by eexists.
Qed.

(** The result is in ascending order of the keys. *)
Lemma sorted_by_sorted xs ys :
  sorted_by lt key xs = Ok ys ->
  (forall a k, a ∈ xs -> key a = Ok k -> good k) ->
  StronglySorted
    (fun a b => exists ka kb, key a = Ok ka /\ key b = Ok kb /\ le ka kb) ys.
Proof.
  unfold sorted_by. destruct (keyed key xs) as [kl|] eqn:Hkl; simpl; [|done].
  intros [= <-] Hgood. apply keyed_Ok in Hkl.
  assert (Forall (fun ka => key ka.2 = Ok ka.1 /\ good ka.1) kl) as Hall.
  { apply Forall_forall. intros ka [i Hi]%list_elem_of_lookup.
    eapply Forall2_lookup_r in Hkl as (a & Ha & [Hk <-]); [|done].
    split; [done|]. eapply Hgood; [|done].
    apply list_elem_of_lookup. by exists i. }
  assert (Forall (fun ka => key ka.2 = Ok ka.1) (sort_keyed lt kl)) as Hall'.
  { rewrite sort_keyed_perm. eapply Forall_impl; [done|]. naive_solver. }
  assert (StronglySorted by_key (sort_keyed lt kl)) as Hsorted.
  { apply sort_keyed_sorted. eapply Forall_impl; [done|]. naive_solver. }
  clear -Hall' Hsorted. induction Hsorted as [|ka l Hsorted IH Hle]; simpl.
  - constructor.
  - apply Forall_cons in Hall' as [Hka Hall'].
    constructor; [by apply IH|].
    apply Forall_fmap, Forall_forall. intros kb Hkb. simpl.
    rewrite Forall_forall in Hle, Hall'.
    exists ka.1, kb.1. split; [done|]. split; [by apply Hall'|by apply Hle].
Qed.

(** With no two elements tied, the order found does not depend on the
    order the elements came in. *)
Lemma sorted_by_unique xs xs' ys :
  xs ≡ₚ xs' ->
  (forall a k, a ∈ xs -> key a = Ok k -> good k) ->
  (forall a b ka kb, a ∈ xs -> b ∈ xs -> key a = Ok ka -> key b = Ok kb ->
                     le ka kb -> le kb ka -> a = b) ->
  sorted_by lt key xs = Ok ys ->
  sorted_by lt key xs' = Ok ys.
Proof.
  intros Hperm Hgood Hties Hrun.
  pose proof (sorted_by_Ok _ _ Hrun) as [Hp1 Hkeys].
  destruct (sorted_by_returns xs') as [ys' Hrun'].
  { intros a Ha. apply Hkeys. by rewrite Hperm. }
  rewrite Hrun'. f_equal.
  pose proof (sorted_by_Ok _ _ Hrun') as [Hp1' _].
  eapply StronglySorted_unique_strong; last first.
  - by rewrite Hp1', Hp1.
  - by eapply sorted_by_sorted.
  - eapply sorted_by_sorted; [done|].
    intros a k Ha. apply Hgood. by rewrite Hperm.
  - intros a b Ha Hb (ka & kb & Hka & Hkb & Hle) (kb' & ka' & Hkb' & Hka' & Hle').
    assert (kb' = kb) as -> by congruence.
    assert (ka' = ka) as -> by congruence.
    eapply (Hties a b ka kb); [| |done..].
    + by rewrite Hperm, <- Hp1'.
    + by rewrite <- Hp1.
Qed.
End SortFacts.

(** ** The clustering loop *)

Section ClusterFacts.
Context {coords : Type}.
Variable kabsch : coords -> coords -> Res (ndarray * ndarray * float).
Variable coords_dict : dict string coords.
Variable structure_order : list string.

Local Abbreviation aligned := (aligns kabsch coords_dict).
Local Abbreviation near := (within kabsch coords_dict).
Local Abbreviation seed_of := (pick_center structure_order).
Local Abbreviation joiners := (joiners kabsch coords_dict).

Lemma absorb_Ok cutoff center cc todo members ms :
  absorb kabsch coords_dict cutoff center cc todo members = Ok ms <->
  (forall s, s ∈ todo -> s ≠ center -> aligned cc s) /\
  ms = members ++ joiners cutoff center cc todo.
Proof.
  unfold joiners. revert members.
  induction todo as [|s todo IH]; intros members; simpl.
  - rewrite app_nil_r. split; [intros [= ->]|intros [_ ->]]; [|done].
    split; [|done]. by intros s ?%elem_of_nil.
  - rewrite filter_cons. case_decide as Hs; [subst s|].
    + rewrite IH. rewrite decide_False by naive_solver.
      split; intros [Hal ->]; (split; [|done]); intros s Hin Hne.
      * apply elem_of_cons in Hin as [?|?]; [done | eauto].
      * apply Hal; [by right | done].
    + unfold within, aligns.
      destruct (dict_get coords_dict s) as [c|e] eqn:Hget; simpl.
      2:{ split; [done|]. intros [Hal _].
          destruct (Hal s) as (c & r & ? & ?); [left | done | congruence]. }
      destruct (kabsch c cc) as [[[rot tr] rmsd]|e] eqn:Hk; simpl.
      2:{ split; [done|]. intros [Hal _].
          destruct (Hal s) as (c' & r & ? & ?); [left | done | congruence]. }
      destruct (PrimFloat.ltb rmsd cutoff) eqn:Hlt; rewrite IH.
      * rewrite decide_True by done. rewrite <- app_assoc. simpl.
        split; intros [Hal ->]; (split; [|done]); intros s' Hin Hne.
        -- apply elem_of_cons in Hin as [->|?]; [|by apply Hal].
           exists c, (rot, tr, rmsd); by rewrite Hget.
        -- apply Hal; [by right | done].
      * rewrite decide_False by naive_solver.
        split; intros [Hal ->]; (split; [|done]); intros s' Hin Hne.
        -- apply elem_of_cons in Hin as [->|?]; [|by apply Hal].
           exists c, (rot, tr, rmsd); by rewrite Hget.
        -- apply Hal; [by right | done].
Qed.

Lemma discard_all_difference (U : gset string) ms :
  discard_all U ms = U ∖ list_to_set ms.
Proof.
  unfold discard_all. revert U.
  induction ms as [|m ms IH]; intros U; simpl.
  - set_solver.
  - rewrite IH. set_solver.
Qed.

Lemma pick_center_Some (U : gset string) center :
  seed_of U = Some center ->
  center ∈ U /\ exists before after,
    structure_order = before ++ center :: after /\
    forall s, s ∈ before -> s ∉ U.
Proof.
  unfold pick_center.
  induction structure_order as [|s l IH]; simpl; [done|].
  destruct (bool_decide (s ∈ U)) eqn:Hs.
  - intros [= ->]. apply bool_decide_eq_true in Hs. split; [done|].
    exists [], l. split; [done|]. by intros ? ?%elem_of_nil.
  - intros H. apply bool_decide_eq_false in Hs.
    destruct (IH H) as (Hin & before & after & -> & Hb).
    split; [done|]. exists (s :: before), after. split; [done|].
    intros s' [->|?]%elem_of_cons; auto.
Qed.

Lemma pick_center_None (U : gset string) :
  seed_of U = None -> forall s, s ∈ structure_order -> s ∉ U.
Proof.
  unfold pick_center. intros H s Hin HU.
  eapply find_none in H; [|by apply list_elem_of_In].
  by apply bool_decide_eq_false in H.
Qed.

Section Loop.
Variable set_iter : gset string -> list string.
Variable rmsd_cutoff : float.

Local Abbreviation loop :=
  (cluster_loop kabsch set_iter coords_dict structure_order rmsd_cutoff).
Local Abbreviation turn :=
  (turn kabsch coords_dict structure_order set_iter rmsd_cutoff).
Local Abbreviation ranked := (ranked coords_dict structure_order).
Local Abbreviation comparable := (comparable kabsch coords_dict).

(** An invariant of the turns holds of the result, and the loop stops
    with every name of the processing order clustered. *)
Lemma cluster_loop_invariant (I : gset string -> dict string (list string) -> Prop) :
  (forall U Cl U' Cl', I U Cl -> turn U Cl U' Cl' -> I U' Cl') ->
  forall fuel U Cl Cl',
    I U Cl -> loop fuel U Cl = Ok Cl' ->
    exists U', I U' Cl' /\ forall s, s ∈ structure_order -> s ∉ U'.
Proof.
  intros Hstep fuel. induction fuel as [|fuel IH]; intros U Cl Cl' HI; simpl.
  - case_decide; [|done]. intros [= <-]. exists U. split; [done|]. set_solver.
  - case_decide as HU.
    { intros [= <-]. exists U. split; [done|]. set_solver. }
    destruct (seed_of U) as [center|] eqn:Hc.
    2:{ intros [= <-]. exists U. split; [done|]. by apply pick_center_None. }
    destruct (dict_get coords_dict center) as [cc|] eqn:Hcc; simpl; [|done].
    destruct (absorb _ _ _ _ _ _ _) as [ms|] eqn:Hab; simpl; [|done].
    apply absorb_Ok in Hab as [Hal ->]. rewrite discard_all_difference.
    apply IH, (Hstep U Cl). { done. }
    exists center, cc. by repeat split.
Qed.

(** The fuel [cluster_structures] gives the loop is never spent: from
    the size of the working set on, more fuel changes nothing. *)
Lemma cluster_loop_fuel fuel1 fuel2 (U : gset string) Cl :
  size U <= fuel1 -> size U <= fuel2 -> loop fuel1 U Cl = loop fuel2 U Cl.
Proof.
  revert fuel2 U Cl.
  induction fuel1 as [|fuel1 IH]; intros fuel2 U Cl Hsz1 Hsz2.
  - assert (U = ∅) as ->.
    { apply leibniz_equiv, size_empty_iff. lia. }
    destruct fuel2; simpl; by rewrite decide_True.
  - destruct fuel2 as [|fuel2].
    { assert (U = ∅) as ->.
      { apply leibniz_equiv, size_empty_iff. lia. }
      simpl; by rewrite decide_True. }
    simpl. case_decide as HU; [done|].
    destruct (seed_of U) as [center|] eqn:Hc; [|done].
    destruct (dict_get coords_dict center) as [cc|] eqn:Hcc; simpl; [|done].
    destruct (absorb _ _ _ _ _ _ _) as [ms|] eqn:Hab; simpl; [|done].
    apply absorb_Ok in Hab as [_ ->]. rewrite discard_all_difference.
    apply pick_center_Some in Hc as [Hin _].
    assert (size (U ∖ list_to_set
                    ([center] ++ joiners rmsd_cutoff center cc (set_iter U)))
            < size U).
    { apply subset_size. set_solver. }
    apply IH; lia.
Qed.

(** *** Partition *)

Lemma dict_get_ranked name :
  ranked -> name ∈ structure_order ->
  exists c, dict_get coords_dict name = Ok c /\ c ∈ dict_values coords_dict.
Proof.
  intros Hr Hin. apply Hr, dict_find_keys in Hin as [c Hc].
  exists c. split; [by apply dict_get_Ok|].
  apply dict_find_elem_of in Hc. unfold dict_values.
  apply list_elem_of_fmap. by exists (name, c).
Qed.

Lemma cluster_loop_returns fuel (U : gset string) Cl :
  enumerates set_iter -> ranked -> comparable ->
  U ⊆ list_to_set structure_order -> size U <= fuel ->
  is_Ok (loop fuel U Cl).
Proof.
  intros Hiter Hr Hcmp. revert U Cl.
  induction fuel as [|fuel IH]; intros U Cl HU Hsz; simpl.
  - rewrite decide_True; [by eexists|].
    apply leibniz_equiv, size_empty_iff. lia.
  - case_decide as Hne; [by eexists|].
    destruct (seed_of U) as [center|] eqn:Hc.
    2:{ exfalso. apply Hne, leibniz_equiv. intros s. split; [|set_solver].
        intros Hs. exfalso. eapply pick_center_None; [done| |done].
        apply HU in Hs. by apply elem_of_list_to_set in Hs. }
    apply pick_center_Some in Hc as [Hin _].
    destruct (dict_get_ranked center) as (cc & -> & Hcc); [done| |].
    { apply HU in Hin. by apply elem_of_list_to_set in Hin. }
    simpl.
    destruct (absorb _ _ _ _ _ _ _) as [ms|e] eqn:Hab; simpl.
    + apply absorb_Ok in Hab as [_ ->]. rewrite discard_all_difference.
      apply IH; [set_solver|].
      assert (size (U ∖ list_to_set
                      ([center] ++ joiners rmsd_cutoff center cc (set_iter U)))
              < size U); [|lia].
      apply subset_size. set_solver.
    + exfalso.
      assert (is_Ok (absorb kabsch coords_dict rmsd_cutoff center cc
                       (set_iter U) [center])) as [ms Hms]; [|congruence].
      eexists. apply absorb_Ok. split; [|done].
      intros s Hs _. rewrite (Hiter U), elem_of_elements in Hs.
      destruct (dict_get_ranked s) as (c & Hc & Hcv); [done| |].
      { apply HU in Hs. by apply elem_of_list_to_set in Hs. }
      destruct (Hcmp c cc) as [r Hk]; [done..|]. by exists c, r.
Qed.

Lemma joiners_elem_of center cc todo s :
  s ∈ joiners rmsd_cutoff center cc todo <->
  (s ≠ center /\ near rmsd_cutoff cc s = true) /\ s ∈ todo.
Proof. unfold joiners. by rewrite list_elem_of_filter. Qed.

Lemma keys_in_members (Cl : dict string (list string)) k :
  Forall (fun kv => head kv.2 = Some kv.1) Cl ->
  k ∈ dict_keys Cl -> k ∈ concat (dict_values Cl).
Proof.
  intros Hhd (kv & -> & Hin)%list_elem_of_fmap.
  rewrite Forall_forall in Hhd. specialize (Hhd _ Hin).
  apply elem_of_concat. exists kv.2. split.
  - destruct (kv.2); simplify_eq/=. left.
  - unfold dict_values. apply list_elem_of_fmap. by exists kv.
Qed.

Lemma partitions_turn S0 U Cl U' Cl' :
  enumerates set_iter ->
  partitions S0 U Cl -> turn U Cl U' Cl' -> partitions S0 U' Cl'.
Proof.
  intros Hiter (HU & Hnd & Hmem & Hhd & Hlen)
    (center & cc & Hne & Hc & Hcc & Hal & -> & ->).
  apply pick_center_Some in Hc as [Hin _].
  set (js := joiners rmsd_cutoff center cc (set_iter U)).
  assert (forall s, s ∈ js -> s ∈ U /\ s ≠ center) as Hjs.
  { intros s [[? _] Hs]%joiners_elem_of.
    rewrite (Hiter U), elem_of_elements in Hs. done. }
  assert (NoDup (center :: js)) as Hndms.
  { constructor; [intros ?%Hjs; naive_solver|].
    apply NoDup_filter. rewrite (Hiter U). apply NoDup_elements. }
  rewrite dict_set_fresh.
  2:{ intros Hk%keys_in_members; [|done]. apply Hmem in Hk. naive_solver. }
  unfold partitions, dict_values. rewrite fmap_app, concat_app. simpl.
  rewrite app_nil_r, length_app. simpl.
  split; [set_solver|]. split.
  { apply NoDup_app. split; [done|]. split; [|done].
    intros s Hs [->|Hj%Hjs]%elem_of_cons; apply Hmem in Hs; naive_solver. }
  split.
  { intros s.
    rewrite elem_of_app, Hmem, elem_of_difference, elem_of_union,
      elem_of_singleton, elem_of_list_to_set, elem_of_cons.
    split.
    - intros [[? ?]|[->|Hj]].
      + split; [done|]. intros [? ?]. done.
      + split; [by apply HU|]. intros [_ Hn]. apply Hn. by left.
      + split; [apply HU; by apply Hjs|]. intros [_ Hn]. apply Hn. by right.
    - intros [HS Hn]. destruct (decide (s ∈ U)) as [HsU|HsU]; [|by left].
      right. destruct (decide (s = center)) as [->|Hsc]; [by left|].
      right. destruct (decide (s ∈ js)) as [|Hnj]; [done|].
      exfalso. apply Hn. split; [done|]. tauto. }
  split.
  { apply Forall_app. split; [done|]. by repeat constructor. }
  match goal with
  | |- _ + size ?X <= _ =>
      assert (size X < size U) by (apply subset_size; set_solver)
  end.
  lia.
Qed.

(** C1. Partition completeness: on a length group whose names are all
    ranked and whose coordinate sets can be aligned with one another,
    [cluster_structures] returns; the member lists of the clusters,
    taken together, hold every name of the group exactly once; there
    are at most as many clusters as names; every cluster starts with
    its seed. *)
Theorem cluster_structures_partition :
  enumerates set_iter -> ranked -> comparable ->
  exists clusters,
    cluster_structures kabsch set_iter coords_dict structure_order rmsd_cutoff
      = Ok clusters /\
    NoDup (concat (dict_values clusters)) /\
    (forall name,
        name ∈ concat (dict_values clusters) <-> name ∈ dict_keys coords_dict) /\
    length clusters <= size (list_to_set (dict_keys coords_dict) : gset string) /\
    Forall (fun '(rep, members) => head members = Some rep) clusters.
Proof.
  intros Hiter Hr Hcmp. unfold cluster_structures.
  set (S0 := list_to_set structure_order : gset string).
  destruct (cluster_loop_returns (size S0) S0 []) as [clusters Hrun];
    [done..|].
  exists clusters. split; [done|].
  destruct (cluster_loop_invariant (partitions S0)) with (size S0) S0
    (@nil (string * list string)) clusters
    as (U' & (HU' & Hnd & Hmem & Hhd & Hlen) & Hdone); [| |done|].
  { intros U Cl U1 Cl1. by apply partitions_turn. }
  { split; [done|]. split; [constructor|]. split.
    - intros name. split; [by intros ?%elem_of_nil | naive_solver].
    - split; [constructor | simpl; lia]. }
  assert (U' = ∅) as ->.
  { apply leibniz_equiv. intros s. split; [|set_solver].
    intros Hs. exfalso. apply (Hdone s); [|done].
    apply HU' in Hs. by apply elem_of_list_to_set in Hs. }
  assert (S0 = list_to_set (dict_keys coords_dict)) as HS0.
  { apply leibniz_equiv. intros s. unfold S0.
    rewrite !elem_of_list_to_set. apply Hr. }
  split; [done|]. split.
  { intros name. rewrite Hmem, HS0, elem_of_list_to_set. set_solver. }
  split.
  { rewrite size_empty in Hlen. rewrite <- HS0. lia. }
  eapply Forall_impl; [done|]. by intros [rep members].
Qed.

(** *** Representatives *)

Section Representative.
Variable score : string -> float.
Local Abbreviation lowest_first := (lowest_first score).

Lemma lowest_first_turn (U : gset string) Cl U' Cl' :
  enumerates set_iter ->
  StronglySorted (fun a b => Float.le (score a) (score b)) structure_order ->
  U ⊆ list_to_set structure_order /\ lowest_first Cl ->
  turn U Cl U' Cl' ->
  U' ⊆ list_to_set structure_order /\ lowest_first Cl'.
Proof.
  intros Hiter Hsorted [HU Hlow]
    (center & cc & Hne & Hc & Hcc & Hal & -> & ->).
  split; [set_solver|].
  intros rep members [Hold| [= -> ->]]%dict_set_elem_of; [by apply Hlow|].
  split; [left|].
  apply pick_center_Some in Hc as (Hin & before & after & Horder & Hbefore).
  intros m [->|Hm]%elem_of_cons; [apply FloatOrder.lt_irrefl|].
  apply joiners_elem_of in Hm as [[Hmc _] Hm].
  rewrite (Hiter U), elem_of_elements in Hm.
  apply FloatOrder.le_not_gt.
  assert (m ∈ after) as Hafter.
  { pose proof (HU _ Hm) as Hmo. rewrite elem_of_list_to_set, Horder in Hmo.
    apply elem_of_app in Hmo as [Hb|[?|?]%elem_of_cons]; [|done..].
    by apply Hbefore in Hb. }
  rewrite Horder in Hsorted.
  apply StronglySorted_app_1_r, StronglySorted_cons in Hsorted as [Hall _].
  rewrite Forall_forall in Hall. by apply Hall.
Qed.

(** C6. Representative: with the processing order sorted ascending by
    score, every cluster that [cluster_structures] returns holds its
    representative, and none of its members scores lower than the
    representative; and on a group whose names are all ranked and whose
    coordinate sets can be aligned with one another it does return. *)
Theorem cluster_structures_representative :
  enumerates set_iter ->
  Sorted (fun a b => Float.le (score a) (score b)) structure_order ->
  (forall clusters,
      cluster_structures kabsch set_iter coords_dict structure_order rmsd_cutoff
        = Ok clusters ->
      forall rep members, (rep, members) ∈ clusters ->
        rep ∈ members /\
        forall m, m ∈ members -> PrimFloat.ltb (score m) (score rep) = false) /\
  (ranked -> comparable ->
   is_Ok (cluster_structures kabsch set_iter coords_dict structure_order
            rmsd_cutoff)).
Proof.
  intros Hiter Hsorted. unfold cluster_structures.
  set (S0 := list_to_set structure_order : gset string).
  split; [|intros Hr Hcmp; by apply cluster_loop_returns].
  intros clusters Hrun.
  apply Sorted_StronglySorted in Hsorted.
  2:{ intros a b c. apply FloatOrder.le_trans. }
  destruct (cluster_loop_invariant
              (fun U Cl => U ⊆ list_to_set structure_order /\ lowest_first Cl))
    with (size S0) S0 (@nil (string * list string)) clusters
    as (U' & [_ Hlow] & _); [| |done|done].
  - intros U Cl U1 Cl1. by apply lowest_first_turn.
  - split; [done|]. by intros rep members ?%elem_of_nil.
Qed.
End Representative.

(** *** The first cluster *)

Lemma cluster_loop_keeps_head fuel (U : gset string) Cl Cl' c0 :
  head Cl = Some c0 -> c0.1 ∉ U -> loop fuel U Cl = Ok Cl' ->
  head Cl' = Some c0.
Proof.
  intros Hhd Hc0 Hrun.
  destruct (cluster_loop_invariant (fun U Cl => head Cl = Some c0 /\ c0.1 ∉ U))
    with fuel U Cl Cl' as (U' & [? _] & _); [|done..].
  clear. intros U Cl U' Cl' [Hhd Hc0]
    (center & cc & Hne & Hc & Hcc & Hal & -> & ->).
  apply pick_center_Some in Hc as [Hin _]. split; [|set_solver].
  destruct Cl as [|[k v] Cl]; simplify_eq/=.
  rewrite decide_False; [done|]. by intros ->.
Qed.

(** The first cluster is the one of the best-ranked name, collected
    from all the names. *)
Lemma cluster_structures_first clusters :
  cluster_structures kabsch set_iter coords_dict structure_order rmsd_cutoff
    = Ok clusters ->
  match structure_order with
  | [] => clusters = []
  | center :: _ =>
      exists cc,
        dict_get coords_dict center = Ok cc /\
        head clusters =
          Some (center,
                center :: joiners rmsd_cutoff center cc
                            (set_iter (list_to_set structure_order)))
  end.
Proof.
  unfold cluster_structures.
  destruct structure_order as [|center l] eqn:Horder.
  { assert (size (list_to_set (@nil string) : gset string) = 0) as ->
      by apply size_empty.
    simpl. rewrite decide_True by done. by intros [= <-]. }
  rewrite <- Horder.
  set (S0 := list_to_set structure_order : gset string).
  assert (center ∈ S0) as Hin.
  { unfold S0. rewrite Horder. set_solver. }
  destruct (size S0) as [|fuel] eqn:Hsz.
  { apply size_empty_iff in Hsz. set_solver. }
  simpl. rewrite decide_False by set_solver.
  assert (seed_of S0 = Some center) as ->.
  { unfold pick_center. rewrite Horder. simpl.
    by rewrite bool_decide_eq_true_2. }
  destruct (dict_get coords_dict center) as [cc|]; simpl; [|done].
  destruct (absorb _ _ _ _ _ _ _) as [ms|] eqn:Hab; simpl; [|done].
  apply absorb_Ok in Hab as [_ ->]. rewrite discard_all_difference.
  intros Hrun. exists cc. split; [done|].
  eapply cluster_loop_keeps_head in Hrun; [done|done|]. set_solver.
Qed.

(** *** One turn, computed *)

Lemma cluster_loop_step fuel (U : gset string) Cl center cc :
  enumerates set_iter ->
  U ≠ ∅ -> seed_of U = Some center -> dict_get coords_dict center = Ok cc ->
  (forall s, s ∈ U -> s ≠ center -> aligned cc s) ->
  let ms := center :: joiners rmsd_cutoff center cc (set_iter U) in
  loop (S fuel) U Cl = loop fuel (U ∖ list_to_set ms) (dict_set Cl center ms).
Proof.
  intros Hiter Hne Hc Hcc Hal. simpl.
  rewrite decide_False by done. rewrite Hc, Hcc. simpl.
  assert (absorb kabsch coords_dict rmsd_cutoff center cc (set_iter U) [center]
          = Ok ([center] ++ joiners rmsd_cutoff center cc (set_iter U))) as ->.
  { apply absorb_Ok. split; [|done]. intros s Hs. apply Hal.
    by rewrite (Hiter U), elem_of_elements in Hs. }
  cbn [bind]. by rewrite discard_all_difference.
Qed.

Lemma joiners_exactly (U : gset string) center cc expected :
  enumerates set_iter -> NoDup expected ->
  (forall s, s ∈ expected <->
             s ∈ U /\ s ≠ center /\ near rmsd_cutoff cc s = true) ->
  joiners rmsd_cutoff center cc (set_iter U) ≡ₚ expected.
Proof.
  intros Hiter Hnd Hexp. apply NoDup_Permutation; [|done|].
  - apply NoDup_filter. rewrite (Hiter U). apply NoDup_elements.
  - intros s. rewrite joiners_elem_of, (Hiter U), elem_of_elements, Hexp.
    tauto.
Qed.
End Loop.
End ClusterFacts.

(** ** Two runs on the same data *)

Section TwoRuns.
Context {coords : Type}.
Variable kabsch : coords -> coords -> Res (ndarray * ndarray * float).
Variable structure_order : list string.
(** The same name-to-coordinates mapping, its keys possibly inserted in a
    different order in the two runs. *)
Variables coords_dict1 coords_dict2 : dict string coords.
Hypothesis same_coords :
  forall name, dict_find coords_dict1 name = dict_find coords_dict2 name.
(** The set iteration orders of the two runs. *)
Variables set_iter1 set_iter2 : gset string -> list string.
Hypothesis Hiter1 : enumerates set_iter1.
Hypothesis Hiter2 : enumerates set_iter2.

Lemma dict_get_same name : dict_get coords_dict1 name = dict_get coords_dict2 name.
Proof. unfold dict_get. by rewrite same_coords. Qed.

Lemma aligns_same cc s :
  aligns kabsch coords_dict1 cc s <-> aligns kabsch coords_dict2 cc s.
Proof. unfold aligns. by rewrite dict_get_same. Qed.

Lemma within_same cutoff cc s :
  within kabsch coords_dict1 cutoff cc s = within kabsch coords_dict2 cutoff cc s.
Proof. unfold within. by rewrite dict_get_same. Qed.

Lemma within_mono lo hi cc s :
  Float.le lo hi ->
  within kabsch coords_dict1 lo cc s = true ->
  within kabsch coords_dict2 hi cc s = true.
Proof.
  intros Hle. rewrite <- within_same. unfold within.
  destruct (dict_get coords_dict1 s) as [c|]; [|done].
  destruct (kabsch c cc) as [[[? ?] rmsd]|]; [|done].
  intros Hlt. by apply (FloatOrder.lt_le_trans rmsd lo hi).
Qed.

(** For one seed and one working set, a lower cutoff collects no name
    that a higher cutoff leaves out. *)
Lemma joiners_mono lo hi center cc (U : gset string) s :
  Float.le lo hi ->
  s ∈ joiners kabsch coords_dict1 lo center cc (set_iter1 U) ->
  s ∈ joiners kabsch coords_dict2 hi center cc (set_iter2 U).
Proof.
  intros Hle. unfold joiners. rewrite !list_elem_of_filter.
  rewrite (Hiter1 U), (Hiter2 U). intros [[? ?] ?].
  repeat split; [done| |done]. by eapply within_mono.
Qed.

Lemma joiners_same cutoff center cc (U : gset string) :
  joiners kabsch coords_dict1 cutoff center cc (set_iter1 U)
  ≡ₚ joiners kabsch coords_dict2 cutoff center cc (set_iter2 U).
Proof.
  unfold joiners. rewrite (Hiter1 U), (Hiter2 U).
  erewrite list_filter_iff; [done|].
  intros s. simpl. by rewrite within_same.
Qed.

Lemma same_assignment_set Cl1 Cl2 center ms1 ms2 :
  same_assignment Cl1 Cl2 -> head ms1 = head ms2 -> ms1 ≡ₚ ms2 ->
  same_assignment (dict_set Cl1 center ms1) (dict_set Cl2 center ms2).
Proof.
  intros HCl Hhd Hms. induction HCl as [|[k1 v1] [k2 v2] Cl1 Cl2 (Hk & ? & ?) ? IH];
    simpl in *.
  - by repeat constructor.
  - subst k2. case_decide; constructor; done.
Qed.

Lemma same_assignment_loop cutoff fuel (U : gset string) Cl1 Cl2 R1 :
  same_assignment Cl1 Cl2 ->
  cluster_loop kabsch set_iter1 coords_dict1 structure_order cutoff fuel U Cl1
    = Ok R1 ->
  exists R2,
    cluster_loop kabsch set_iter2 coords_dict2 structure_order cutoff fuel U Cl2
      = Ok R2 /\
    same_assignment R1 R2.
Proof.
  revert U Cl1 Cl2. induction fuel as [|fuel IH]; intros U Cl1 Cl2 HCl; simpl.
  - case_decide; [|done]. intros [= <-]. by exists Cl2.
  - case_decide; [intros [= <-]; by exists Cl2|].
    destruct (pick_center structure_order U) as [center|]; 
      [|intros [= <-]; by exists Cl2].
    rewrite <- dict_get_same.
    destruct (dict_get coords_dict1 center) as [cc|]; simpl; [|done].
    destruct (absorb kabsch coords_dict1 _ _ _ _ _) as [ms1|] eqn:Hab1;
      simpl; [|done].
    apply absorb_Ok in Hab1 as [Hal ->].
    assert (absorb kabsch coords_dict2 cutoff center cc (set_iter2 U) [center]
            = Ok ([center] ++ joiners kabsch coords_dict2 cutoff center cc
                                (set_iter2 U))) as ->.
    { apply absorb_Ok. split; [|done]. intros s Hs Hne.
      apply aligns_same, Hal; [|done]. by rewrite (Hiter1 U), <- (Hiter2 U). }
    cbn [bind]. rewrite !discard_all_difference.
    assert (list_to_set ([center] ++ joiners kabsch coords_dict1 cutoff center cc
                                       (set_iter1 U))
            =@{gset string}
            list_to_set ([center] ++ joiners kabsch coords_dict2 cutoff center cc
                                       (set_iter2 U))) as ->.
    { apply leibniz_equiv. intros s. rewrite !elem_of_list_to_set.
      by rewrite joiners_same. }
    apply IH, same_assignment_set; [done..|].
    by rewrite joiners_same.
Qed.
End TwoRuns.

(** ** Lowering the cutoff *)

Section Cutoffs.
Context {coords : Type}.
Variable kabsch : coords -> coords -> Res (ndarray * ndarray * float).
Variable coords_dict : dict string coords.
Variable structure_order : list string.
Variables set_iter_lo set_iter_hi : gset string -> list string.

(** C2, amended. Threshold monotonicity of the first cluster: on a group
    that can be clustered, both runs return, and the cluster of the
    best-ranked name at the lower cutoff has the same representative as
    at the higher cutoff, no member that the higher cutoff leaves out, and
    so no more members. *)
Theorem first_cluster_monotone (lo hi : float) :
  enumerates set_iter_lo -> enumerates set_iter_hi ->
  ranked coords_dict structure_order -> comparable kabsch coords_dict ->
  Float.le lo hi ->
  exists clusters_lo clusters_hi,
    cluster_structures kabsch set_iter_lo coords_dict structure_order lo
      = Ok clusters_lo /\
    cluster_structures kabsch set_iter_hi coords_dict structure_order hi
      = Ok clusters_hi /\
    forall rep members_lo,
      head clusters_lo = Some (rep, members_lo) ->
      exists members_hi,
        head clusters_hi = Some (rep, members_hi) /\
        (forall name, name ∈ members_lo -> name ∈ members_hi) /\
        length members_lo <= length members_hi.
Proof.
  intros Hlo Hhi Hr Hcmp Hle.
  set (S0 := list_to_set structure_order : gset string).
  destruct (cluster_loop_returns kabsch coords_dict structure_order
              set_iter_lo lo (size S0) S0 []) as [clusters_lo Hrun_lo]; [done..|].
  destruct (cluster_loop_returns kabsch coords_dict structure_order
              set_iter_hi hi (size S0) S0 []) as [clusters_hi Hrun_hi]; [done..|].
  exists clusters_lo, clusters_hi. split; [done|]. split; [done|].
  apply cluster_structures_first in Hrun_lo, Hrun_hi.
  destruct structure_order as [|center l] eqn:Horder.
  { subst. by intros. }
  destruct Hrun_lo as (cc & Hcc & ->), Hrun_hi as (cc' & Hcc' & ->).
  assert (cc' = cc) as -> by congruence.
  intros rep members_lo [= <- <-]. eexists. split; [done|].
  assert (forall name,
    name ∈ center :: joiners kabsch coords_dict lo center cc (set_iter_lo S0) ->
    name ∈ center :: joiners kabsch coords_dict hi center cc (set_iter_hi S0))
    as Hsub.
  { intros name [->|Hj]%elem_of_cons; [left|right].
    eapply joiners_mono in Hj; [exact Hj|done..]. }
  split; [done|].
  apply submseteq_length, NoDup_submseteq; [|done].
  constructor.
  - unfold joiners. rewrite list_elem_of_filter. naive_solver.
  - apply NoDup_filter. rewrite (Hlo _). apply NoDup_elements.
Qed.
End Cutoffs.



(** ** Repeated runs *)

Section Determinism.
Context {coords : Type}.
Variable kabsch : coords -> coords -> Res (ndarray * ndarray * float).
Variable score : string -> Res float.
Variable rmsd_cutoff : float.
Local Abbreviation sort_and_cluster := (sort_and_cluster kabsch score rmsd_cutoff).
Local Abbreviation no_nan_score := (no_nan_score score).
Local Abbreviation no_tied_scores := (no_tied_scores score).

End Determinism.

(** ** The three-structure scenario *)

Section Scenario.
Context {coords : Type}.
Variable kabsch : coords -> coords -> Res (ndarray * ndarray * float).
Variable set_iter : gset string -> list string.
Variables cA cB cC : coords.
Local Abbreviation three := (three cA cB cC).
Local Abbreviation rmsd_between := (rmsd_between kabsch).

Lemma three_sorted :
  sorted_by PrimFloat.ltb (dict_get three_scores) (dict_keys three)
  = Ok ["C"; "A"; "B"].
Proof. reflexivity. Qed.

Lemma within_rmsd (d : dict string coords) cutoff cc s c R t r :
  dict_get d s = Ok c -> kabsch c cc = Ok (R, t, r) ->
  within kabsch d cutoff cc s = PrimFloat.ltb r cutoff.
Proof. unfold within. by intros -> ->. Qed.

(** C7. The scenario: with RMSD 0.3 between A and B, 2.0 between A and C,
    at least 1.5 between B and C, scores A = 1.0, B = 2.0, C = 0.5 and
    cutoff 1.5, the clusters are C alone, then A with B. In general a name
    joins the cluster of a seed exactly when it is the seed or its
    alignment onto the seed returns an RMSD strictly below the cutoff. *)
Theorem three_structures_scenario (rBC : float) :
  enumerates set_iter ->
  rmsd_between cA cB 0.3%float ->
  rmsd_between cA cC 2%float ->
  rmsd_between cB cC rBC -> Float.le 1.5%float rBC ->
  sort_and_cluster kabsch (dict_get three_scores) 1.5%float set_iter three
  = Ok [("C", ["C"]); ("A", ["A"; "B"])]
  /\
  (forall (coords_dict : dict string coords) cutoff center cc todo ms,
      absorb kabsch coords_dict cutoff center cc todo [center] = Ok ms ->
      forall s,
        s ∈ ms <->
        s = center \/
        (s ∈ todo /\
         exists c R t rmsd,
           dict_get coords_dict s = Ok c /\ kabsch c cc = Ok (R, t, rmsd) /\
           PrimFloat.ltb rmsd cutoff = true)).
Proof.
  intros Hiter [_ (RAB & tAB & HAB)] [(RAC & tAC & HAC) _]
    [(RBC & tBC & HBC) _] HrBC.
  apply FloatOrder.le_not_gt in HrBC.
  split.
  - unfold sort_and_cluster. rewrite three_sorted. cbn [bind].
    unfold cluster_structures.
    set (order := ["C"; "A"; "B"]).
    assert (size (list_to_set order : gset string) = 3) as -> by by vm_compute.
    (* first turn: the seed is C, nothing joins *)
    rewrite (cluster_loop_step _ _ _ _ _ _ _ _ "C" cC); [|done|..]; cycle 1.
    { by vm_compute. }
    { by vm_compute. }
    { reflexivity. }
    { intros s Hs Hne.
      assert (s = "A" \/ s = "B") as [-> | ->] by set_solver.
      - exists cA, (RAC, tAC, 2%float). by split.
      - exists cB, (RBC, tBC, rBC). by split. }
    assert (joiners kabsch three 1.5 "C" cC (set_iter (list_to_set order)) = [])
      as ->.
    { apply Permutation_nil_r, joiners_exactly; [done|constructor|].
      intros s. split; [by intros ?%elem_of_nil|].
      intros (Hs & Hne & Hnear).
      assert (s = "A" \/ s = "B") as [-> | ->] by set_solver.
      - erewrite within_rmsd in Hnear; [|done..]. by vm_compute in Hnear.
      - erewrite within_rmsd in Hnear; [|done..]. congruence. }
    assert (list_to_set order ∖ list_to_set ["C"] =@{gset string}
            list_to_set ["A"; "B"]) as -> by by vm_compute.
    (* second turn: the seed is A, B joins *)
    rewrite (cluster_loop_step _ _ _ _ _ _ _ _ "A" cA); [|done|..]; cycle 1.
    { by vm_compute. }
    { by vm_compute. }
    { reflexivity. }
    { intros s Hs Hne. assert (s = "B") as -> by set_solver.
      exists cB, (RAB, tAB, 0.3%float). by split. }
    assert (joiners kabsch three 1.5 "A" cA (set_iter (list_to_set ["A"; "B"]))
            = ["B"]) as ->.
    { apply Permutation_singleton_r, joiners_exactly;
        [done|apply NoDup_singleton|].
      intros s. rewrite list_elem_of_singleton. split.
      - intros ->. split; [set_solver|]. split; [done|].
        erewrite within_rmsd; [|done..]. by vm_compute.
      - intros (Hs & Hne & _). set_solver. }
    assert (list_to_set ["A"; "B"] ∖ list_to_set ["A"; "B"] =@{gset string} ∅)
      as -> by by vm_compute.
    reflexivity.
  - intros coords_dict cutoff center cc todo ms [_ ->]%absorb_Ok s.
    rewrite elem_of_app, list_elem_of_singleton. unfold joiners.
    rewrite list_elem_of_filter. unfold within. split.
    + intros [->|[[Hne Hnear] Hin]]; [by left|right]. split; [done|].
      destruct (dict_get coords_dict s) as [c|]; [|done].
      destruct (kabsch c cc) as [[[R t] rmsd]|] eqn:Hk; [|done].
      by exists c, R, t, rmsd.
    + intros [->|(Hin & c & R & t & rmsd & -> & Hk & Hlt)]; [by left|].
      destruct (decide (s = center)) as [->|Hne]; [by left|right].
      by rewrite Hk.
Qed.
End Scenario.

(** ** The alignment *)

Section KabschFacts.
Variable svd : nat -> nat -> list (list float) ->
               option (list (list float) * list float * list (list float)).
Variable det : list (list float) -> float.

Lemma bdim_one n : np.bdim n 1 = Some n.
Proof.
  unfold np.bdim. destruct (Nat.eqb_spec n 1) as [->|]; [done|].
  by destruct (Nat.eqb_spec n 1).
Qed.

Lemma bdim_refl n : np.bdim n n = Some n.
Proof. unfold np.bdim. by rewrite Nat.eqb_refl. Qed.

(** Centering keeps the number of points. *)
Lemma centered_rows c rows :
  exists centroid rows',
    np.mean0 (Mat c rows) = Ok centroid /\
    np.sub (Mat c rows) centroid = Ok (Mat c rows') /\
    length rows' = length rows.
Proof.
  eexists _, _. split; [done|]. unfold np.sub, np.elementwise. simpl.
  rewrite length_map, length_seq, bdim_one, bdim_refl. simpl.
  split; [done|]. by rewrite length_map, length_seq.
Qed.

Lemma kabsch_rows_mismatch (c : nat) (rowsP rowsQ : list (list float)) :
  length rowsP ≠ length rowsQ ->
  kabsch_algorithm svd det (Mat c rowsP) (Mat c rowsQ) = Raise ValueError.
Proof.
  intros Hne. unfold kabsch_algorithm.
  destruct (centered_rows c rowsP) as (cP & rowsP' & -> & HP & HlenP).
  destruct (centered_rows c rowsQ) as (cQ & rowsQ' & -> & HQ & HlenQ).
  cbn [bind]. rewrite HP, HQ. cbn [bind np.T np.matmul].
  rewrite HlenP, HlenQ.
  destruct (Nat.eqb_spec (length rowsP) (length rowsQ)); [done|].
  reflexivity.
Qed.

(** C3, amended. On two coordinate arrays with different numbers of points
    [kabsch_algorithm] returns nothing: the covariance product raises
    [ValueError]. This for an N by c and an M by c array, and for the arrays
    that [np.array] builds from N and from M coordinate triples, the empty
    one among them included. *)
Theorem kabsch_unequal_lengths (rowsP rowsQ : list (list float)) :
  length rowsP ≠ length rowsQ ->
  (forall c,
      kabsch_algorithm svd det (Mat c rowsP) (Mat c rowsQ) = Raise ValueError) /\
  (Forall (fun p => length p = 3) rowsP -> Forall (fun q => length q = 3) rowsQ ->
   kabsch_algorithm svd det (np.array rowsP) (np.array rowsQ) = Raise ValueError).
Proof.
  intros Hne. split; [intros c; by apply kabsch_rows_mismatch|].
  intros HP HQ.
  destruct rowsP as [|p rowsP], rowsQ as [|q rowsQ]; [done| | |].
  - apply Forall_cons in HQ as [Hq _]. unfold np.array. rewrite Hq.
    unfold kabsch_algorithm.
    destruct (centered_rows 3 (q :: rowsQ)) as (cQ & rowsQ' & HcQ & HQ' & HlenQ).
    rewrite HcQ. cbn [bind np.mean0 np.sub]. rewrite HQ'.
    destruct rowsQ'; [done|]. reflexivity.
  - apply Forall_cons in HP as [Hp _]. unfold np.array. rewrite Hp.
    unfold kabsch_algorithm.
    destruct (centered_rows 3 (p :: rowsP)) as (cP & rowsP' & HcP & HP' & HlenP).
    rewrite HcP. cbn [bind np.mean0]. rewrite HP'.
    cbn [bind np.T np.matmul np.sub np.elementwise]. simpl.
    rewrite HlenP. reflexivity.
  - apply Forall_cons in HP as [Hp _], HQ as [Hq _]. unfold np.array.
    rewrite Hp, Hq. by apply kabsch_rows_mismatch.
Qed.

(** The empty array that [extract_backbone_coords] builds has one axis,
    and on two of them the decomposition is refused. *)
Lemma kabsch_empty_1d :
  kabsch_algorithm svd det (Vec []) (Vec []) = Raise LinAlgError.
Proof. reflexivity. Qed.

(** On two arrays of no points and three columns nothing is refused:
    whatever factors and determinant LAPACK gives for the 3 by 3 zero
    matrix, a result comes back, with the RMSD [sqrt(0 / 0)]. *)
Lemma kabsch_no_points U Sv Vt :
  svd 3 3 [[0; 0; 0]; [0; 0; 0]; [0; 0; 0]]%float = Some (U, Sv, Vt) ->
  length U = 3 -> length Vt = 3 ->
  exists R t, kabsch_algorithm svd det (Mat 3 []) (Mat 3 []) = Ok (R, t, nan).
Proof.
  intros Hsvd HU HVt.
  destruct U as [|u1 [|u2 [|u3 [|]]]]; try done.
  destruct Vt as [|v1 [|v2 [|v3 [|]]]]; try done.
  unfold kabsch_algorithm.
  change (np.mean0 (Mat 3 [])) with (Ok (Vec [nan; nan; nan])).
  cbn [bind].
  change (np.sub (Mat 3 []) (Vec [nan; nan; nan])) with (Ok (Mat 3 [])).
  cbn [bind].
  change (np.matmul (np.T (Mat 3 [])) (Mat 3 []))
    with (Ok (Mat 3 [[0; 0; 0]; [0; 0; 0]; [0; 0; 0]]%float)).
  cbn [bind np.linalg_svd length]. rewrite Hsvd. cbn [bind].
  cbn [np.T np.matmul length Nat.eqb seq map bind np.linalg_det].
  destruct (PrimFloat.ltb _ 0); cbn [bind np.negate_last_row rev app];
    eexists _, _; vm_compute; reflexivity.
Qed.
End KabschFacts.


(** ** Strings and numbers *)

(** The values below are the ones CPython prints and computes. *)
Example format_3f_samples :
  map format_3f
    [1; 0.5; -0.0001; 2.0005; 12345.6789; 0.0625; 0.0005; 0.0015; 0.9995;
     0.99949999; 123456789012345678; 5e-324; 0.1875; -0; nan; infinity;
     neg_infinity]%float
  = ["1.000"; "0.500"; "-0.000"; "2.001"; "12345.679"; "0.062"; "0.001";
     "0.002"; "1.000"; "0.999"; "123456789012345680.000"; "0.000"; "0.188";
     "-0.000"; "nan"; "inf"; "-inf"].
Proof. vm_compute. reflexivity. Qed.

Example base_name_samples :
  map base_name ["alpha_0.01_1a85_cyclic_044_chainA.cif"; "abc"; "a_b_"; "a_b_c_d"]
  = ["1a85_cyclic_044_chainA.cif"; ""; ""; "c_d"].
Proof. reflexivity. Qed.

Example split_samples :
  str.split (str.strip ("  1  name 2.5 x" ++ str.newline)) = ["1"; "name"; "2.5"; "x"]
  /\ str.split "" = []
  /\ str.split_on "_" "a__b" = ["a"; ""; "b"].
Proof. by vm_compute. Qed.

Example isspace_codes :
  filter (fun n => str.isspace (ascii_of_nat n) = true) (seq 0 256)
  = [9; 10; 11; 12; 13; 28; 29; 30; 31; 32; 133; 160].
Proof. by vm_compute. Qed.

(** ** The score table *)

Section ScoreFacts.
Variable float_of_string : string -> option float.

Lemma score_lines_app scores lines1 lines2 :
  score_lines float_of_string scores (lines1 ++ lines2) =
  (scores' <- score_lines float_of_string scores lines1 ;;
   score_lines float_of_string scores' lines2).
Proof.
  revert scores. induction lines1 as [|line lines1 IH]; intros scores; simpl.
  - done.
  - destruct (score_line float_of_string scores line); simpl; [apply IH|done].
Qed.

(** Whatever the table raises is the [ValueError] of [float]. *)
Lemma score_lines_ValueError scores lines e :
  score_lines float_of_string scores lines = Raise e -> e = ValueError.
Proof.
  revert scores. induction lines as [|line lines IH]; intros scores; simpl; [done|].
  unfold score_line.
  destruct (3 <=? _); [|apply IH].
  destruct (float_of_string _); simpl; [apply IH | by intros [= <-]].
Qed.

(** A line of three fields whose third is not a number is not ignored:
    [float] raises. *)
Lemma unparsable_score_raises scores line :
  3 <= length (str.split (str.strip line)) ->
  float_of_string (nth 2 (str.split (str.strip line)) "") = None ->
  score_line float_of_string scores line = Raise ValueError.
Proof.
  intros Hlen Hnone. unfold score_line. rewrite Hnone.
  by destruct (Nat.leb_spec 3 (length (str.split (str.strip line)))); [|lia].
Qed.

(** C10, amended. A data line with fewer than three fields raises nothing
    and leaves the mapping as it was: the file parses as it does without
    the line. A data line with three fields or more whose third field is
    no number is not ignored: [float] raises on it, and reading the file
    raises [ValueError]. *)
Theorem short_line_ignored (header : string) (before after : list string)
    (line : string) (scores : dict string float) :
  (length (str.split (str.strip line)) < 3 ->
   score_line float_of_string scores line = Ok scores /\
   parse_score_file float_of_string (header :: before ++ line :: after) =
   parse_score_file float_of_string (header :: before ++ after)) /\
  (3 <= length (str.split (str.strip line)) ->
   float_of_string (nth 2 (str.split (str.strip line)) "") = None ->
   score_line float_of_string scores line = Raise ValueError /\
   parse_score_file float_of_string (header :: before ++ line :: after) =
   Raise ValueError).
Proof.
  split.
  - intros Hshort.
    assert (forall sc, score_line float_of_string sc line = Ok sc) as Hline.
    { intros sc. unfold score_line.
      destruct (Nat.leb_spec 3 (length (str.split (str.strip line)))); [lia|done]. }
    split; [done|]. unfold parse_score_file.
    change (drop 1 (header :: ?l)) with l.
    rewrite !score_lines_app.
    destruct (score_lines float_of_string [] before) as [sc|]; simpl; [|done].
    by rewrite Hline.
  - intros Hlen Hnone. split; [by apply unparsable_score_raises|].
    unfold parse_score_file. change (drop 1 (header :: ?l)) with l.
    rewrite score_lines_app.
    destruct (score_lines float_of_string [] before) as [sc|e] eqn:Hbefore;
      simpl.
    + by rewrite unparsable_score_raises.
    + f_equal. by eapply score_lines_ValueError.
Qed.
End ScoreFacts.

(** ** Loading the structures *)

Section LoadFacts.
Variable scores : dict string float.

(** Reading the coordinates raises only when the file cannot be read or
    holds no model; a residue without one of its atoms raises nothing. *)
Lemma extract_backbone_coords_raises f e :
  extract_backbone_coords f = Raise e <->
  read_structure f = Raise e \/ (read_structure f = Ok [] /\ e = IndexError).
Proof.
  unfold extract_backbone_coords.
  destruct (read_structure f) as [[|model structure]|e']; simpl.
  - split; [intros [= <-]; by right | intros [?|[_ ->]]; done].
  - match goal with |- context [np.array ?l] => destruct l end; simpl;
      (split; [done|intros [?|[? _]]; done]).
  - split; [intros [= <-]; by left | intros [[= ->]|[? _]]; done].
Qed.

(** When every residue has its four backbone atoms, the coordinates hold
    four points for each residue counted: what the docstring of
    [extract_backbone_coords] describes. *)
Lemma extract_complete f coords n_residues :
  Forall complete (residues_of f) ->
  extract_backbone_coords f = Ok (coords, n_residues) ->
  n_residues = length (residues_of f) /\ np.len coords = Ok (4 * n_residues).
Proof.
  unfold extract_backbone_coords, residues_of.
  destruct (read_structure f) as [[|model structure]|e]; simpl; [done| |done].
  intros Hall.
  match goal with |- context [np.array ?l] => set (rows := l) end.
  assert (length rows = 4 * length (concat model)) as Hlen.
  { unfold rows. clear rows. induction model as [|chain model IH]; [done|].
    simpl in *. apply Forall_app in Hall as [Hchain Hmodel].
    rewrite !length_app, IH by done.
    assert (length (flat_map residue_backbone chain) = 4 * length chain) as ->;
      [|lia].
    clear -Hchain. induction Hchain as [|residue chain Hres _ IH]; [done|].
    simpl. rewrite !length_app, IH.
    assert (length (residue_backbone residue) = 4) as ->; [|lia].
    unfold residue_backbone. simpl.
    destruct (Hres "N") as [? ->]; [set_solver|].
    destruct (Hres "CA") as [? ->]; [set_solver|].
    destruct (Hres "C") as [? ->]; [set_solver|].
    destruct (Hres "O") as [? ->]; [set_solver|].
    done. }
  assert (np.len (np.array rows) = Ok (length rows)) as Hnp.
  { by destruct rows. }
  rewrite Hnp. cbn [bind]. intros Heq.
  assert (coords = np.array rows /\ n_residues = length rows / 4) as [-> ->]
    by (by injection Heq).
  rewrite Hnp, Hlen.
  assert (4 * length (concat model) / 4 = length (concat model)) as ->.
  { rewrite Nat.mul_comm. by apply Nat.div_mul. }
  done.
Qed.

Lemma load_file_same_data st st' f :
  same_data st st' -> same_data (load_file scores st f) (load_file scores st' f).
Proof.
  intros [Hc Hi]. unfold load_file.
  destruct (negb _); [done|].
  destruct (extract_backbone_coords f) as [[coords n]|e]; [|done].
  rewrite Hc, Hi. by destruct (dict_find scores _).
Qed.

Lemma load_file_warnings st f w :
  w ∈ warnings st -> w ∈ warnings (load_file scores st f).
Proof.
  intros Hw. unfold load_file.
  destruct (negb _); [done|].
  destruct (extract_backbone_coords f) as [[coords n]|e]; simpl.
  - destruct (dict_find scores _); simpl; [done|]. apply elem_of_app; by left.
  - apply elem_of_app; by left.
Qed.

Lemma fold_load_same_data files st st' :
  same_data st st' ->
  same_data (fold_left (load_file scores) files st)
            (fold_left (load_file scores) files st').
Proof.
  revert st st'. induction files as [|f files IH]; intros st st' H; simpl.
  - done.
  - by apply IH, load_file_same_data.
Qed.

Lemma fold_load_warnings files st w :
  w ∈ warnings st -> w ∈ warnings (fold_left (load_file scores) files st).
Proof.
  revert st. induction files as [|f files IH]; intros st H; simpl.
  - done.
  - by apply IH, load_file_warnings.
Qed.

(** X28. A scored structure whose file cannot be read, or holds no model,
    is skipped: a warning names it, it enters neither dictionary, and the
    files before and after it are loaded as they are without it. These are
    the only files that the loop skips with a warning: a scored file that
    is read and holds a model is loaded, and adds no warning. *)
Theorem unreadable_structure_skipped (before after : list cif_file)
    (f : cif_file) (e : exn) :
  dict_mem scores (base_name (file_name f)) = true ->
  read_structure f = Raise e \/ (read_structure f = Ok [] /\ e = IndexError) ->
  (coords_by_length (load_files scores (before ++ f :: after)) =
     coords_by_length (load_files scores (before ++ after)) /\
   structure_info (load_files scores (before ++ f :: after)) =
     structure_info (load_files scores (before ++ after)) /\
   (file_name f, e) ∈ warnings (load_files scores (before ++ f :: after))) /\
  (forall (g : cif_file) model rest (st : loaded),
      dict_mem scores (base_name (file_name g)) = true ->
      read_structure g = Ok (model :: rest) ->
      warnings (load_file scores st g) = warnings st /\
      is_Some (dict_find (structure_info (load_file scores st g)) (file_name g))).
Proof.
  intros Hscored Hraise%extract_backbone_coords_raises. split.
  - unfold load_files. rewrite !fold_left_app. simpl.
    set (st := fold_left (load_file scores) before _).
    assert (load_file scores st f =
            {| coords_by_length := coords_by_length st;
               structure_info := structure_info st;
               warnings := warnings st ++ [(file_name f, e)] |}) as ->.
    { unfold load_file. by rewrite Hscored, Hraise. }
    split; [|split].
    + by apply fold_load_same_data.
    + by apply fold_load_same_data.
    + apply fold_load_warnings. simpl. apply elem_of_app. right. left.
  - intros g model rest st Hg Hread. unfold load_file. rewrite Hg. simpl.
    destruct (extract_backbone_coords g) as [[coords n]|e'] eqn:Hext.
    2:{ apply extract_backbone_coords_raises in Hext as [?|[? _]]; congruence. }
    apply dict_mem_keys, dict_find_keys in Hg as [sc ->]. simpl.
    split; [done|]. rewrite dict_find_set_eq. by eexists.
Qed.
End LoadFacts.

(** ** The summary of representatives *)

Section SummaryFacts.
Variable all_clusters : dict string cluster_info.
Local Abbreviation row_of := (row_of all_clusters).
Local Abbreviation score_le := (score_le all_clusters).

Lemma rows_written reps acc :
  (forall rep, rep ∈ reps -> is_Some (dict_find all_clusters rep)) ->
  exists rows,
    for_each (fun rows rep =>
                info <- dict_get all_clusters rep ;;
                Ok (rows ++ [representative_row rep info])) reps acc
    = Ok (acc ++ rows) /\
    Forall2 row_of reps rows.
Proof.
  revert acc. induction reps as [|rep reps IH]; intros acc Hall; simpl.
  - exists []. by rewrite app_nil_r.
  - destruct (Hall rep) as [info Hinfo]; [left|].
    unfold dict_get at 1. rewrite Hinfo. simpl.
    destruct (IH (acc ++ [representative_row rep info])) as (rows & -> & Hrows).
    { intros; apply Hall; by right. }
    exists (representative_row rep info :: rows).
    rewrite <- app_assoc. split; [done|]. constructor; [|done].
    by exists info.
Qed.

End SummaryFacts.

(** ** What [main] hands to the clustering and to the summary *)

Section MainFacts.
Variable float_of_string : string -> option float.
Variable svd : nat -> nat -> list (list float) ->
               option (list (list float) * list float * list (list float)).
Variable det : list (list float) -> float.
Variable set_iter : gset string -> list string.

Lemma for_each_invariant {A St : Type} (I : St -> Prop)
    (body : St -> A -> Res St) (l : list A) (st st' : St) :
  (forall st a st', I st -> body st a = Ok st' -> I st') ->
  I st -> for_each body l st = Ok st' -> I st'.
Proof.
  intros Hstep. revert st. induction l as [|a l IH]; intros st HI; simpl.
  - by intros [= <-].
  - destruct (body st a) as [st1|] eqn:Hbody; simpl; [|done].
    apply IH. by eapply Hstep.
Qed.

(** The order in which a group is clustered ranks exactly its names. *)
Lemma sorted_keys_ranked {coords : Type} (coords_dict : dict string coords)
    (score : string -> Res float) (order : list string) :
  sorted_by PrimFloat.ltb score (dict_keys coords_dict) = Ok order ->
  ranked coords_dict order.
Proof.
  intros [Hperm _]%sorted_by_Ok name. by rewrite Hperm.
Qed.

(** With no NaN among the scores of a group, that order is ascending. *)
Lemma sorted_keys_ascending {coords : Type} (coords_dict : dict string coords)
    (score : string -> Res float) (order : list string) :
  sorted_by PrimFloat.ltb score (dict_keys coords_dict) = Ok order ->
  no_nan_score score (dict_keys coords_dict) ->
  Sorted (fun a b =>
            Float.le (match score a with Ok v => v | Raise _ => 0%float end)
                     (match score b with Ok v => v | Raise _ => 0%float end))
    order.
Proof.
  intros Hsort Hnan. apply StronglySorted_Sorted.
  eapply (sorted_by_sorted PrimFloat.ltb Float.le Float.finite_or_inf) in Hsort;
    [|apply FloatOrder.le_trans|apply FloatOrder.lt_le|apply FloatOrder.not_gt_le
     |exact Hnan].
  eapply StronglySorted_weaken; [|done].
  by intros a b (ka & kb & -> & -> & Hle).
Qed.

Lemma cluster_group_listed scores by_length acc length acc' :
  listed acc ->
  cluster_group svd det set_iter scores by_length acc length = Ok acc' ->
  listed acc'.
Proof.
  intros Hacc. unfold cluster_group.
  destruct (dict_find by_length length) as [coords_dict|]; simpl; [|done].
  destruct (sort_and_cluster _ _ _ _ _) as [clusters|]; simpl; [|done].
  apply for_each_invariant; [|done].
  intros [all_clusters reps] [rep members] st' Hst.
  destruct (dict_get scores (base_name rep)) as [score|]; simpl; [|done].
  intros [= <-] rep' [Hin| ->%list_elem_of_singleton]%elem_of_app; simpl.
  - destruct (decide (rep = rep')) as [->|Hne].
    + rewrite dict_find_set_eq. by eexists.
    + rewrite dict_find_set_ne by done. by apply Hst.
  - rewrite dict_find_set_eq. by eexists.
Qed.

(** The summary of a run is [write_representatives] on the clusters of the
    run and a list of representatives that all have their entry. *)
Lemma main_summary score_file cif_files r :
  main float_of_string svd det set_iter score_file cif_files = Ok r ->
  exists all_representatives,
    (forall rep, rep ∈ all_representatives ->
                 is_Some (dict_find (clusters_json r) rep)) /\
    write_representatives (clusters_json r) all_representatives
      = Ok (representatives_txt r).
Proof.
  unfold main.
  destruct (parse_score_file float_of_string score_file) as [scores|];
    simpl; [|done].
  destruct (sorted_by _ _ _) as [lengths|]; simpl; [|done].
  destruct (for_each _ lengths _) as [[all_clusters reps]|] eqn:Hloop;
    simpl; [|done].
  destruct (write_representatives all_clusters reps) as [txt|] eqn:Htxt;
    simpl; [|done].
  intros [= <-]. simpl. exists reps. split; [|done].
  eapply (for_each_invariant listed) in Hloop; [exact Hloop| |].
  - intros st a st'. apply cluster_group_listed.
  - by intros rep ?%elem_of_nil.
Qed.
End MainFacts.

(** * Further properties

    What the code guarantees beyond the properties above: of the strings
    and the score table, of the alignment, of the clustering, of the
    loading loop and the run, and of the pocket file. *)

(** ** More on dictionaries and results *)

Section DictMore.
Context {K V : Type} `{EqDecision K}.
Implicit Types (d : dict K V) (k : K) (v : V).

Lemma dict_keys_set d k v k' :
  k' ∈ dict_keys (dict_set d k v) <-> k' = k \/ k' ∈ dict_keys d.
Proof.
  induction d as [|[k0 v0] d IH]; simpl.
  - rewrite list_elem_of_singleton. split; [auto|]. intros [?|?%elem_of_nil]; done.
  - case_decide as Hk; simpl; rewrite !elem_of_cons.
    + subst k0. naive_solver.
    + rewrite IH. naive_solver.
Qed.

Lemma dict_set_NoDup d k v :
  NoDup (dict_keys d) -> NoDup (dict_keys (dict_set d k v)).
Proof.
  induction d as [|[k0 v0] d IH]; simpl.
  - intros _. apply NoDup_singleton.
  - intros [Hk0 Hd]%NoDup_cons. case_decide as Hk; simpl.
    + by constructor.
    + constructor; [|by apply IH].
      change (k0 ∉ dict_keys (dict_set d k v)). rewrite dict_keys_set.
      intros [?|?]; [congruence|done].
Qed.

Lemma dict_find_None d k : dict_find d k = None <-> k ∉ dict_keys d.
Proof.
  split.
  - intros Hnone Hin%dict_find_keys. rewrite Hnone in Hin. by destruct Hin.
  - intros Hk. destruct (dict_find d k) as [v|] eqn:Hf; [|done].
    by apply dict_find_Some_keys in Hf.
Qed.

Lemma dict_find_set d k v k' :
  dict_find (dict_set d k v) k' = if decide (k = k') then Some v else dict_find d k'.
Proof.
  case_decide as Hk; [subst; apply dict_find_set_eq | by apply dict_find_set_ne].
Qed.

Lemma dict_elem_of_find d k v :
  NoDup (dict_keys d) -> (k, v) ∈ d -> dict_find d k = Some v.
Proof.
  induction d as [|[k0 v0] d IH]; simpl.
  - by intros _ ?%elem_of_nil.
  - intros [Hk0 Hd]%NoDup_cons [[= -> ->]|Hin]%elem_of_cons.
    + by rewrite decide_True.
    + rewrite decide_False; [by apply IH|]. intros ->. apply Hk0.
      change (k ∈ dict_keys d). unfold dict_keys. apply list_elem_of_fmap.
      by exists (k, v).
Qed.
End DictMore.

Lemma bind_Ok {A B : Type} (r : Res A) (k : A -> Res B) b :
  bind r k = Ok b <-> exists a, r = Ok a /\ k a = Ok b.
Proof.
  destruct r as [a|e]; simpl.
  - split; [by exists a | by intros (a' & [= <-] & ?)].
  - split; [done | by intros (a' & ? & ?)].
Qed.

(** ** Strings *)

Lemma split_ws_lstrip l : str.split_ws [] (str.lstrip l) = str.split_ws [] l.
Proof.
  induction l as [|c l IH]; simpl; [done|].
  destruct (str.isspace c) eqn:Hc; [done|]. simpl. by rewrite Hc.
Qed.

Lemma split_ws_trailing cur l c :
  str.isspace c = true -> str.split_ws cur (l ++ [c]) = str.split_ws cur l.
Proof.
  intros Hc. revert cur. induction l as [|c' l IH]; intros cur; simpl.
  - rewrite Hc. by destruct cur.
  - destruct (str.isspace c'); [|by rewrite IH].
    rewrite IH. done.
Qed.

Lemma split_ws_rstrip cur l :
  str.split_ws cur (rev (str.lstrip (rev l))) = str.split_ws cur l.
Proof.
  induction l as [|c l IH] using rev_ind; [done|].
  rewrite rev_app_distr. simpl. destruct (str.isspace c) eqn:Hc.
  - by rewrite IH, split_ws_trailing.
  - simpl. by rewrite rev_involutive.
Qed.

(** X1. [line.strip().split()] gives the fields of [line.split()]: splitting
    at white space already ignores the white space at both ends. *)
Theorem split_ignores_strip (line : string) :
  str.split (str.strip line) = str.split line.
Proof.
  unfold str.split, str.strip.
  rewrite list_ascii_of_string_of_list_ascii, split_ws_rstrip.
  apply split_ws_lstrip.
Qed.

Lemma split_chars_nonempty sep l : str.split_chars sep l ≠ [].
Proof.
  destruct l as [|c l]; simpl; [done|].
  case_decide; [done|]. by destruct (str.split_chars sep l).
Qed.

Lemma split_chars_piece sep piece rest :
  sep ∉ piece ->
  str.split_chars sep (piece ++ sep :: rest) = piece :: str.split_chars sep rest.
Proof.
  induction piece as [|c piece IH]; simpl; intros Hsep.
  - by rewrite decide_True.
  - apply not_elem_of_cons in Hsep as [Hc Hpiece].
    rewrite decide_False by done. by rewrite IH.
Qed.

Lemma list_ascii_of_string_app s1 s2 :
  list_ascii_of_string (s1 ++ s2) = list_ascii_of_string s1 ++ list_ascii_of_string s2.
Proof. induction s1 as [|c s1 IH]; simpl; [done|]. by rewrite IH. Qed.

(** Joining the pieces of a split with the separator gives the string
    back. *)
Lemma join_split_on (sep : ascii) (s : string) :
  str.join (String sep EmptyString) (str.split_on sep s) = s.
Proof.
  unfold str.join, str.split_on.
  rewrite <- (string_of_list_ascii_of_string s) at 2.
  induction (list_ascii_of_string s) as [|c l IH]; [done|]. simpl.
  case_decide as Hc.
  - subst c. simpl. rewrite <- IH.
    pose proof (split_chars_nonempty sep l).
    by destruct (str.split_chars sep l).
  - rewrite <- IH. pose proof (split_chars_nonempty sep l).
    destruct (str.split_chars sep l) as [|piece [|piece' pieces]]; done.
Qed.

Lemma split_chars_length sep l :
  length (str.split_chars sep l) = S (count_occ ascii_dec l sep).
Proof.
  induction l as [|c l IH]; simpl; [done|].
  case_decide as Hc.
  - subst c. simpl. destruct (ascii_dec sep sep); [|done]. by rewrite IH.
  - destruct (ascii_dec c sep); [done|].
    pose proof (split_chars_nonempty sep l).
    destruct (str.split_chars sep l); simpl in *; [done|lia].
Qed.

(** X2. [base_name] removes the first two fields of a name, with the
    underscores that end them, and leaves nothing of a name that has fewer
    than two underscores. *)
Theorem base_name_strips_prefix (prefix1 prefix2 rest name : string) :
  ("_"%char ∉ list_ascii_of_string prefix1 ->
   "_"%char ∉ list_ascii_of_string prefix2 ->
   base_name (prefix1 ++ "_" ++ prefix2 ++ "_" ++ rest) = rest) /\
  (count_occ ascii_dec (list_ascii_of_string name) "_"%char < 2 ->
   base_name name = "").
Proof.
  unfold base_name. split.
  - intros H1 H2. unfold str.split_on.
    rewrite !list_ascii_of_string_app. simpl.
    rewrite split_chars_piece by done. rewrite split_chars_piece by done.
    simpl. apply (join_split_on "_" rest).
  - intros Hcount. unfold str.split_on.
    pose proof (split_chars_length "_" (list_ascii_of_string name)) as Hlen.
    destruct (str.split_chars "_" (list_ascii_of_string name))
      as [|p1 [|p2 [|p3 ps]]]; simpl in *; try done. lia.
Qed.

Lemma split_chars_whole sep l : sep ∉ l -> str.split_chars sep l = [l].
Proof.
  induction l as [|c l IH]; simpl; [done|].
  intros [Hc Hl]%not_elem_of_cons.
  rewrite decide_False by done. by rewrite IH.
Qed.

Lemma split_chars_app sep l1 l2 :
  exists pieces,
    str.split_chars sep (l1 ++ sep :: l2) = pieces ++ str.split_chars sep l2 /\
    pieces ≠ [].
Proof.
  induction l1 as [|c l1 (pieces & IH & Hne)]; simpl.
  - rewrite decide_True by done. by exists [[]].
  - case_decide as Hc.
    + exists ([] :: pieces). by rewrite IH.
    + rewrite IH. destruct pieces as [|piece pieces]; [done|].
      by exists ((c :: piece) :: pieces).
Qed.

Lemma split_chars_free sep l piece :
  piece ∈ str.split_chars sep l -> sep ∉ piece.
Proof.
  revert piece. induction l as [|c l IH]; simpl; intros piece.
  - intros ->%list_elem_of_singleton. by intros ?%elem_of_nil.
  - case_decide as Hc.
    + intros [->|Hin]%elem_of_cons; [by intros ?%elem_of_nil | by apply IH].
    + pose proof (split_chars_nonempty sep l).
      destruct (str.split_chars sep l) as [|p ps]; [done|].
      intros [->|Hin]%elem_of_cons.
      * apply not_elem_of_cons. split; [done|]. apply IH. left.
      * apply IH. by right.
Qed.

Lemma split_on_join (sep : ascii) (pieces : list string) :
  pieces ≠ [] -> Forall (free_of sep) pieces ->
  str.split_on sep (str.join (String sep EmptyString) pieces) = pieces.
Proof.
  unfold str.split_on, str.join, free_of. intros Hne Hfree.
  induction Hfree as [|p pieces Hp Hfree IH]; [done|].
  destruct pieces as [|q pieces].
  - simpl. rewrite split_chars_whole by done. simpl.
    by rewrite string_of_list_ascii_of_string.
  - change (String.concat (String sep "") (p :: q :: pieces))
      with (p ++ String sep "" ++ String.concat (String sep "") (q :: pieces))%string.
    rewrite !list_ascii_of_string_app. simpl.
    rewrite split_chars_piece by done. simpl.
    rewrite string_of_list_ascii_of_string. f_equal. by apply IH.
Qed.

Lemma of_uint_digits (u : Decimal.uint) :
  Forall (fun c => c ∈ list_ascii_of_string "0123456789")
    (list_ascii_of_string (DecimalString.NilEmpty.string_of_uint u)).
Proof.
  induction u; simpl; constructor; try done; set_solver.
Qed.

Lemma of_N_digits (n : N) :
  Forall (fun c => c ∈ list_ascii_of_string "0123456789")
    (list_ascii_of_string (str.of_N n)).
Proof.
  unfold str.of_N, DecimalString.NilZero.string_of_uint.
  destruct (N.to_uint n) eqn:Hu; try (rewrite <- Hu; apply of_uint_digits).
  simpl. constructor; [set_solver|constructor].
Qed.

Lemma of_Z_free_of_comma (z : Z) : free_of ","%char (str.of_Z z).
Proof.
  unfold free_of, str.of_Z. intros Hin.
  assert (forall n, ","%char ∉ list_ascii_of_string (str.of_N n)) as Hdigits.
  { intros n Hc. pose proof (of_N_digits n) as Hall.
    rewrite Forall_forall in Hall. apply Hall in Hc. simpl in Hc.
    repeat (apply elem_of_cons in Hc as [Hc|Hc]; [discriminate Hc|]).
    by apply elem_of_nil in Hc. }
  destruct (z <? 0)%Z.
  - simpl in Hin. apply elem_of_cons in Hin as [Hin|Hin]; [discriminate Hin|].
    by apply Hdigits in Hin.
  - by apply Hdigits in Hin.
Qed.

(** ** The score table *)

Lemma split_ws_words cur l piece :
  Forall (fun c => str.isspace c = false) cur ->
  piece ∈ str.split_ws cur l -> word piece.
Proof.
  assert (forall cur, cur ≠ [] -> Forall (fun c => str.isspace c = false) cur ->
            word (string_of_list_ascii (rev cur))) as Hword.
  { intros cur' Hne Hall. split.
    - intros Heq. apply (f_equal list_ascii_of_string) in Heq.
      rewrite list_ascii_of_string_of_list_ascii in Heq. simpl in Heq.
      apply (f_equal (@rev _)) in Heq. rewrite rev_involutive in Heq.
      simpl in Heq. done.
    - rewrite list_ascii_of_string_of_list_ascii. by apply Forall_rev. }
  revert cur. induction l as [|c l IH]; intros cur Hcur; simpl.
  - destruct cur as [|c0 cur]; [by intros ?%elem_of_nil|].
    intros ->%list_elem_of_singleton. by apply Hword.
  - destruct (str.isspace c) eqn:Hc.
    + destruct cur as [|c0 cur]; [by apply IH|].
      intros [->|Hin]%elem_of_cons; [by apply Hword | by apply (IH [])].
    + apply IH. by constructor.
Qed.

Lemma fields_words line piece : piece ∈ fields line -> word piece.
Proof. unfold fields, str.split. by apply split_ws_words. Qed.

Section ScoreTable.
Variable float_of_string : string -> option float.
Local Abbreviation score_line := (score_line float_of_string).
Local Abbreviation score_lines := (score_lines float_of_string).
Local Abbreviation parse_score_file := (parse_score_file float_of_string).
Local Abbreviation names_score := (names_score float_of_string).

Lemma score_line_cases scores line :
  (length (fields line) < 3 /\ score_line scores line = Ok scores) \/
  (3 <= length (fields line) /\
   float_of_string (nth 2 (fields line) "") = None /\
   score_line scores line = Raise ValueError) \/
  (exists score, names_score line (nth 1 (fields line) "") score /\
     score_line scores line = Ok (dict_set scores (nth 1 (fields line) "") score)).
Proof.
  unfold score_line, names_score, fields.
  destruct (3 <=? _) eqn:Hlen.
  - apply Nat.leb_le in Hlen. right.
    destruct (float_of_string _) as [score|] eqn:Hf; [right | by left].
    by exists score.
  - apply Nat.leb_gt in Hlen. by left.
Qed.

(** X3. Reading the table raises exactly when a line after the first has three
    fields or more and a third field that is no number, and what it raises
    then is [ValueError]. *)
Theorem parse_score_file_raises (lines : list string) :
  (is_Ok (parse_score_file lines) <->
   forall line, line ∈ drop 1 lines -> 3 <= length (fields line) ->
                is_Some (float_of_string (nth 2 (fields line) ""))) /\
  (forall e, parse_score_file lines = Raise e -> e = ValueError).
Proof.
  unfold parse_score_file. generalize (drop 1 lines) (@nil (string * float)).
  clear lines. intros lines. induction lines as [|line lines IH]; intros scores.
  { simpl. split; [|done]. split; [by intros _ line ?%elem_of_nil | by eexists]. }
  simpl.
  destruct (score_line_cases scores line)
    as [[Hlen ->]|[(Hlen & Hnone & ->)|(score & (Hlen & _ & Hsome) & ->)]];
    simpl.
  - destruct (IH scores) as [Hiff Hexn]. split; [|done].
    rewrite Hiff. split.
    + intros Hall l [->|Hl]%elem_of_cons; [lia | by apply Hall].
    + intros Hall l Hl. apply Hall. by right.
  - split; [|by intros e [= <-]]. split; [by intros [? ?]|].
    intros Hall. destruct (Hall line) as [? ?]; [left|done|congruence].
  - destruct (IH (dict_set scores (nth 1 (fields line) "") score)) as [Hiff Hexn].
    split; [|done]. rewrite Hiff. split.
    + intros Hall l [->|Hl]%elem_of_cons; [by rewrite Hsome | by apply Hall].
    + intros Hall l Hl. apply Hall. by right.
Qed.

Lemma score_lines_keeps scores lines scores' name :
  score_lines scores lines = Ok scores' ->
  (forall l, l ∈ lines -> 3 <= length (fields l) -> nth 1 (fields l) "" ≠ name) ->
  dict_find scores' name = dict_find scores name.
Proof.
  revert scores. induction lines as [|line lines IH]; intros scores; simpl.
  { by intros [= <-]. }
  intros Hrun Hother.
  destruct (score_line_cases scores line)
    as [[Hlen Hl]|[(Hlen & Hnone & Hl)|(score & (Hlen & _ & Hsome) & Hl)]];
    rewrite Hl in Hrun; simpl in Hrun; [|done|].
  - apply IH; [done|]. intros l ?. apply Hother. by right.
  - rewrite (IH _ Hrun).
    + apply dict_find_set_ne. apply Hother; [left|done].
    + intros l ?. apply Hother. by right.
Qed.

(** X4. The score of a name is the one of the last line that names it: a line
    that gives [name] a score, followed by no line of three fields or more
    whose second field is [name], leaves that score under [name]. *)
Theorem last_line_wins (header : string) (before after : list string)
    (line name : string) (score : float) (scores : dict string float) :
  parse_score_file (header :: before ++ line :: after) = Ok scores ->
  names_score line name score ->
  (forall l, l ∈ after -> 3 <= length (fields l) -> nth 1 (fields l) "" ≠ name) ->
  dict_find scores name = Some score.
Proof.
  unfold parse_score_file. change (drop 1 (header :: ?l)) with l.
  rewrite score_lines_app. intros Hrun (Hlen & Hname & Hscore) Hafter.
  destruct (score_lines [] before) as [scores0|];
    simpl in Hrun; [|done].
  destruct (score_line_cases scores0 line)
    as [[Hlen' Hl]|[(_ & Hnone & Hl)|(score' & (_ & _ & Hsome) & Hl)]];
    [lia|congruence|].
  rewrite Hl in Hrun. simpl in Hrun.
  rewrite (score_lines_keeps _ _ _ name Hrun Hafter), Hname.
  rewrite dict_find_set_eq. congruence.
Qed.

Lemma score_lines_keys scores lines scores' name :
  score_lines scores lines = Ok scores' ->
  name ∈ dict_keys scores' <->
  name ∈ dict_keys scores \/
  exists line score, line ∈ lines /\ names_score line name score.
Proof.
  revert scores. induction lines as [|line lines IH]; intros scores; simpl.
  { intros [= <-]. split; [auto|]. intros [?|(l & ? & ?%elem_of_nil & _)]; done. }
  intros Hrun.
  destruct (score_line_cases scores line)
    as [[Hlen Hl]|[(Hlen & Hnone & Hl)|(score & Hns & Hl)]];
    rewrite Hl in Hrun; simpl in Hrun; [|done|].
  - rewrite (IH _ Hrun). split.
    + intros [?|(l & sc & ? & ?)]; [by left|]. right. exists l, sc.
      split; [by right|done].
    + intros [?|(l & sc & [->|?]%elem_of_cons & Hns)]; [by left| |].
      * destruct Hns as [? _]. lia.
      * right. by exists l, sc.
  - rewrite (IH _ Hrun), dict_keys_set. split.
    + intros [[->|?]|(l & sc & ? & ?)]; [|by left|].
      * right. exists line, score. split; [left|done].
      * right. exists l, sc. split; [by right|done].
    + intros [?|(l & sc & [->|?]%elem_of_cons & Hns')]; [left; by right| |].
      * left. left. by destruct Hns' as (_ & <- & _).
      * right. by exists l, sc.
Qed.

(** X5. The names of the table are the second fields of the lines after the
    first that give a score, and each of them is a word. *)
Theorem score_table_names (lines : list string) (scores : dict string float)
    (name : string) :
  parse_score_file lines = Ok scores ->
  (name ∈ dict_keys scores <->
   exists line score, line ∈ drop 1 lines /\ names_score line name score) /\
  (name ∈ dict_keys scores -> word name).
Proof.
  unfold parse_score_file. intros Hrun.
  pose proof (score_lines_keys _ _ _ name Hrun) as Hkeys.
  assert (name ∈ dict_keys scores <->
          exists line score, line ∈ drop 1 lines /\ names_score line name score)
    as Hiff.
  { rewrite Hkeys. split; [|auto]. by intros [?%elem_of_nil|?]. }
  split; [done|].
  intros (line & score & _ & Hlen & <- & _)%Hiff.
  apply (fields_words line). apply list_elem_of_In, nth_In. lia.
Qed.
End ScoreTable.

(** ** The alignment *)

Lemma SF_sqrt_not_negative x s : SFltb (SFsqrt prec emax x) (S754_zero s) = false.
Proof.
  destruct x as [[]|[]| |[] m e]; try reflexivity.
  unfold SFsqrt. destruct (SFsqrt_core_binary _ _ _ _) as [[mz ez] lz].
  unfold binary_round_aux.
  destruct (shr_fexp _ _ mz ez lz) as [mrs' e'].
  destruct (shr_fexp _ _ _ e' _) as [mrs'' e''].
  destruct (shr_m mrs'') as [|p|p]; [reflexivity| |reflexivity].
  by destruct (e'' <=? emax - prec)%Z.
Qed.

Lemma sqrt_not_negative x : PrimFloat.ltb (PrimFloat.sqrt x) 0 = false.
Proof.
  rewrite FloatAxioms.ltb_spec, FloatAxioms.sqrt_spec.
  apply (SF_sqrt_not_negative _ false).
Qed.

Lemma SF_below_nothing r c :
  SFltb r (S754_zero false) = false -> SFltb (S754_zero false) c = false ->
  SFltb r c = false.
Proof. sf_order. Qed.

Lemma not_below_nonpositive r c :
  PrimFloat.ltb r 0 = false -> PrimFloat.ltb 0 c = false ->
  PrimFloat.ltb r c = false.
Proof. rewrite !FloatAxioms.ltb_spec. apply SF_below_nothing. Qed.

Section KabschShapes.
Variable svd : nat -> nat -> list (list float) ->
               option (list (list float) * list float * list (list float)).
Variable det : list (list float) -> float.

(** The RMSD that [kabsch_algorithm] returns is a square root. *)
Lemma kabsch_rmsd_sqrt (P Q R t : ndarray) (rmsd : float) :
  kabsch_algorithm svd det P Q = Ok (R, t, rmsd) ->
  exists x, rmsd = PrimFloat.sqrt x.
Proof.
  unfold kabsch_algorithm.
  repeat first
    [ match goal with
      | |- bind _ _ = Ok _ -> _ =>
          let H := fresh in
          intros H; apply bind_Ok in H as (? & _ & H); revert H
      end
    | match goal with
      | |- context [match ?x with _ => _ end] => is_var x; destruct x as [[? ?] ?]
      end ].
  intros [= _ _ <-]. by eexists.
Qed.

Lemma kabsch_rmsd_sign (P Q R t : ndarray) (rmsd : float) :
  kabsch_algorithm svd det P Q = Ok (R, t, rmsd) ->
  PrimFloat.ltb rmsd 0 = false.
Proof. intros [x ->]%kabsch_rmsd_sqrt. apply sqrt_not_negative. Qed.

(** X6. Whatever it is given, [kabsch_algorithm] returns no negative RMSD: the
    RMSD is not below zero, and so not below any cutoff that is not above
    zero. *)
Theorem kabsch_rmsd_not_negative (P Q R t : ndarray) (rmsd cutoff : float) :
  kabsch_algorithm svd det P Q = Ok (R, t, rmsd) ->
  PrimFloat.ltb rmsd 0 = false /\
  (PrimFloat.ltb 0 cutoff = false -> PrimFloat.ltb rmsd cutoff = false).
Proof.
  intros [x ->]%kabsch_rmsd_sqrt.
  pose proof (sqrt_not_negative x) as Hsign. split; [done|].
  by apply not_below_nonpositive.
Qed.

Lemma mean0_Mat c rows :
  exists v, np.mean0 (Mat c rows) = Ok (Vec v) /\ length v = c.
Proof. eexists. split; [done|]. by rewrite length_map, length_seq. Qed.

Lemma elementwise_Mat_Vec op c rows v :
  length v = c ->
  exists rows', np.elementwise op (Mat c rows) (Vec v) = Ok (Mat c rows') /\
                length rows' = length rows.
Proof.
  intros <-. unfold np.elementwise. simpl.
  rewrite bdim_one, bdim_refl. eexists. split; [done|].
  by rewrite length_map, length_seq.
Qed.

Lemma elementwise_Mat_Mat op c rows1 rows2 :
  length rows1 = length rows2 ->
  exists rows', np.elementwise op (Mat c rows1) (Mat c rows2) = Ok (Mat c rows') /\
                length rows' = length rows1.
Proof.
  intros Hlen. unfold np.elementwise. simpl.
  rewrite Hlen, !bdim_refl. eexists. split; [done|].
  by rewrite length_map, length_seq.
Qed.

Lemma elementwise_Vec_Vec op u v :
  length u = length v ->
  exists w, np.elementwise op (Vec u) (Vec v) = Ok (Vec w) /\ length w = length u.
Proof.
  intros Hlen. unfold np.elementwise. simpl.
  rewrite Hlen, !bdim_refl. eexists. split; [done|].
  by rewrite length_map, length_seq.
Qed.

Lemma T_Mat c rows :
  exists rows', np.T (Mat c rows) = Mat (length rows) rows' /\ length rows' = c.
Proof. eexists. split; [done|]. by rewrite length_map, length_seq. Qed.

Lemma matmul_Mat_Mat c1 rows1 c2 rows2 :
  c1 = length rows2 ->
  exists rows, np.matmul (Mat c1 rows1) (Mat c2 rows2) = Ok (Mat c2 rows) /\
               length rows = length rows1.
Proof.
  intros ->. simpl. rewrite Nat.eqb_refl. eexists. split; [done|].
  by rewrite length_map.
Qed.

Lemma matmul_Mat_Vec c rows v :
  c = length v ->
  exists w, np.matmul (Mat c rows) (Vec v) = Ok (Vec w) /\ length w = length rows.
Proof.
  intros ->. simpl. rewrite Nat.eqb_refl. eexists. split; [done|].
  by rewrite length_map.
Qed.

Lemma negate_last_row_Mat c rows :
  rows ≠ [] ->
  exists rows', np.negate_last_row (Mat c rows) = Ok (Mat c rows') /\
                length rows' = length rows.
Proof.
  intros Hne. simpl. destruct (rev rows) as [|last front] eqn:Hrev.
  { apply (f_equal (@rev _)) in Hrev. rewrite rev_involutive in Hrev. done. }
  eexists. split; [done|].
  rewrite length_app, length_rev. simpl.
  apply (f_equal (@length _)) in Hrev. rewrite length_rev in Hrev. simpl in Hrev. lia.
Qed.

(** The covariance matrix of two sets of as many points is 3 by 3. *)
Lemma covariance_3x3 rowsP rowsQ :
  length rowsP = length rowsQ ->
  exists cP cQ Pc Qc H,
    np.mean0 (Mat 3 rowsP) = Ok (Vec cP) /\ length cP = 3 /\
    np.mean0 (Mat 3 rowsQ) = Ok (Vec cQ) /\ length cQ = 3 /\
    np.sub (Mat 3 rowsP) (Vec cP) = Ok Pc /\
    np.sub (Mat 3 rowsQ) (Vec cQ) = Ok Qc /\
    np.matmul (np.T Pc) Qc = Ok (Mat 3 H) /\ length H = 3.
Proof.
  intros Hlen.
  destruct (mean0_Mat 3 rowsP) as (cP & HcP & HlP).
  destruct (mean0_Mat 3 rowsQ) as (cQ & HcQ & HlQ).
  destruct (elementwise_Mat_Vec PrimFloat.sub 3 rowsP cP HlP) as (Pc & HPc & HlPc).
  destruct (elementwise_Mat_Vec PrimFloat.sub 3 rowsQ cQ HlQ) as (Qc & HQc & HlQc).
  destruct (T_Mat 3 Pc) as (Pt & HPt & HlPt).
  destruct (matmul_Mat_Mat (length Pc) Pt 3 Qc) as (H & HH & HlH); [lia|].
  exists cP, cQ, (Mat 3 Pc), (Mat 3 Qc), H.
  rewrite HPt. repeat split; try done. by rewrite HlH.
Qed.

Lemma rotation_3x3 (U Vt : list (list float)) :
  length U = 3 -> length Vt = 3 ->
  exists R, np.matmul (np.T (Mat 3 Vt)) (np.T (Mat 3 U)) = Ok (Mat 3 R) /\
            length R = 3.
Proof.
  intros HU HVt.
  destruct (T_Mat 3 Vt) as (Vtt & -> & HlVtt).
  destruct (T_Mat 3 U) as (Ut & -> & HlUt).
  destruct (matmul_Mat_Mat (length Vt) Vtt (length U) Ut) as (R & HR & HlR);
    [lia|].
  exists R. rewrite HR, HU. split; [done|lia].
Qed.

(** X7. On two sets of as many points, of three coordinates each, the
    covariance matrix is 3 by 3 and the outcome is decided by its
    decomposition: [LinAlgError] when LAPACK does not converge, and with
    factors of three rows a 3 by 3 rotation, a translation of three numbers
    and an RMSD. *)
Theorem kabsch_equal_lengths (rowsP rowsQ : list (list float)) :
  length rowsP = length rowsQ ->
  exists H,
    covariance (Mat 3 rowsP) (Mat 3 rowsQ) = Ok (Mat 3 H) /\ length H = 3 /\
    match svd 3 3 H with
    | None =>
        kabsch_algorithm svd det (Mat 3 rowsP) (Mat 3 rowsQ) = Raise LinAlgError
    | Some (U, _, Vt) =>
        length U = 3 -> length Vt = 3 ->
        exists R t rmsd,
          kabsch_algorithm svd det (Mat 3 rowsP) (Mat 3 rowsQ)
            = Ok (Mat 3 R, Vec t, rmsd) /\
          length R = 3 /\ length t = 3
    end.
Proof.
  intros Hlen.
  destruct (covariance_3x3 rowsP rowsQ Hlen)
    as (cP & cQ & Pc & Qc & H & HcP & HlP & HcQ & HlQ & HPc & HQc & HH & HlH).
  exists H. unfold covariance, kabsch_algorithm.
  rewrite HcP, HcQ. cbn [bind]. rewrite HPc, HQc. cbn [bind]. rewrite HH.
  cbn [bind np.linalg_svd]. rewrite HlH.
  split; [done|]. split; [done|].
  destruct (svd 3 3 H) as [[[U Sv] Vt]|]; [|done].
  intros HU HVt. cbn [bind].
  destruct (rotation_3x3 U Vt HU HVt) as (R0 & -> & HlR0).
  cbn [bind np.linalg_det]. rewrite HlR0. cbn [Nat.eqb bind].
  assert (exists R,
            (if PrimFloat.ltb (det R0) 0 then
               Vt' <- np.negate_last_row (Mat 3 Vt) ;;
               np.matmul (np.T Vt') (np.T (Mat 3 U))
             else Ok (Mat 3 R0)) = Ok (Mat 3 R) /\ length R = 3)
    as (R & -> & HlR).
  { destruct (PrimFloat.ltb (det R0) 0); [|by exists R0].
    destruct (negate_last_row_Mat 3 Vt) as (Vt' & -> & HlVt').
    { by destruct Vt. }
    cbn [bind]. apply rotation_3x3; [done|lia]. }
  cbn [bind].
  destruct (matmul_Mat_Vec 3 R cP) as (w & -> & Hlw); [done|].
  cbn [bind].
  destruct (elementwise_Vec_Vec PrimFloat.sub cQ w) as (t & Ht & Hlt); [lia|].
  unfold np.sub at 1. rewrite Ht. cbn [bind].
  destruct (T_Mat 3 rowsP) as (Pt & -> & HlPt).
  destruct (matmul_Mat_Mat 3 R (length rowsP) Pt) as (RP & -> & HlRP); [done|].
  cbn [bind].
  destruct (T_Mat (length rowsP) RP) as (X & -> & HlX). rewrite HlRP, HlR.
  destruct (elementwise_Mat_Vec PrimFloat.add 3 X t) as (Y & HY & HlY); [lia|].
  unfold np.add. rewrite HY. cbn [bind].
  destruct (elementwise_Mat_Mat PrimFloat.sub 3 rowsQ Y) as (D & HD & HlD); [lia|].
  unfold np.sub. rewrite HD. cbn [bind np.len].
  eexists R, t, _. split; [done|]. split; [done|lia].
Qed.
End KabschShapes.

(** ** The clusters *)

Section ClusterGuarantees.
Context {coords : Type}.
Variable kabsch : coords -> coords -> Res (ndarray * ndarray * float).
Variable coords_dict : dict string coords.
Variable structure_order : list string.
Variable set_iter : gset string -> list string.
Variable rmsd_cutoff : float.

Local Abbreviation rmsd_below := (rmsd_below kabsch coords_dict rmsd_cutoff).
Local Abbreviation all_close := (all_close kabsch coords_dict rmsd_cutoff).
Local Abbreviation separated := (separated kabsch coords_dict rmsd_cutoff).
Local Abbreviation within := (within kabsch coords_dict rmsd_cutoff).
Local Abbreviation aligns := (aligns kabsch coords_dict).
Local Abbreviation joiners := (joiners kabsch coords_dict rmsd_cutoff).
Local Abbreviation turn :=
  (turn kabsch coords_dict structure_order set_iter rmsd_cutoff).
Local Abbreviation cluster_structures :=
  (cluster_structures kabsch set_iter coords_dict structure_order rmsd_cutoff).
Local Abbreviation loop :=
  (cluster_loop kabsch set_iter coords_dict structure_order rmsd_cutoff).

Lemma within_true cc s : within cc s = true <-> rmsd_below true cc s.
Proof.
  unfold within, rmsd_below.
  destruct (dict_get coords_dict s) as [c|] eqn:Hc.
  2:{ split; [done|]. by intros (? & ? & ? & ? & ? & _). }
  destruct (kabsch c cc) as [[[R t] rmsd]|] eqn:Hk.
  - split; [by exists c, R, t, rmsd|].
    intros (c' & R' & t' & rmsd' & [= <-] & Hk' & Hlt). congruence.
  - split; [done|]. intros (c' & R' & t' & rmsd' & [= <-] & Hk' & _). congruence.
Qed.

Lemma within_false cc s :
  aligns cc s -> within cc s = false -> rmsd_below false cc s.
Proof.
  unfold within, rmsd_below, aligns. intros (c & [[R t] rmsd] & -> & Hk).
  rewrite Hk. intros Hlt. by exists c, R, t, rmsd.
Qed.

Lemma rmsd_below_false_within cc s : rmsd_below false cc s -> within cc s = false.
Proof. unfold within. by intros (c & R & t & rmsd & -> & -> & ->). Qed.

Lemma all_close_turn (U : gset string) Cl U' Cl' :
  all_close Cl -> turn U Cl U' Cl' -> all_close Cl'.
Proof.
  intros Hold (center & cc & _ & _ & Hcc & _ & -> & ->).
  intros rep members [?| [= -> ->]]%dict_set_elem_of; [by apply Hold|].
  exists cc. split; [done|].
  intros m [->|Hm]%elem_of_cons; [by left | right].
  apply joiners_elem_of in Hm as [[_ Hm] _]. by apply within_true.
Qed.

(** X8. Every member of a cluster other than its representative was aligned
    onto the representative, with an RMSD strictly below the cutoff. *)
Theorem members_within_cutoff clusters rep members :
  cluster_structures = Ok clusters ->
  (rep, members) ∈ clusters ->
  exists rep_coords,
    dict_get coords_dict rep = Ok rep_coords /\
    forall m, m ∈ members -> m = rep \/ rmsd_below true rep_coords m.
Proof.
  unfold cluster_structures. intros Hrun.
  destruct (cluster_loop_invariant kabsch coords_dict structure_order set_iter
              rmsd_cutoff (fun _ Cl => all_close Cl))
    with (size (list_to_set structure_order : gset string))
         (list_to_set structure_order : gset string)
         (@nil (string * list string)) clusters
    as (_ & Hall & _); [| |done|by apply Hall].
  - intros U Cl U' Cl'. apply all_close_turn.
  - by intros rep' members' ?%elem_of_nil.
Qed.

(** *** Separation *)

Lemma joiners_in (U : gset string) center cc s :
  enumerates set_iter -> s ∈ joiners center cc (set_iter U) -> s ∈ U /\ s ≠ center.
Proof.
  intros Hiter [[? _] Hs]%joiners_elem_of.
  by rewrite (Hiter U), elem_of_elements in Hs.
Qed.

Lemma left_out_is_outside (U : gset string) center cc s :
  enumerates set_iter ->
  (forall s, s ∈ set_iter U -> s ≠ center -> aligns cc s) ->
  s ∈ U ∖ list_to_set (center :: joiners center cc (set_iter U)) ->
  rmsd_below false cc s.
Proof.
  intros Hiter Hal [HsU Hout]%elem_of_difference.
  rewrite elem_of_list_to_set, elem_of_cons in Hout.
  assert (s ∈ set_iter U) as Hs by by rewrite (Hiter U), elem_of_elements.
  assert (s ≠ center) as Hne by naive_solver.
  apply within_false; [by apply Hal|].
  apply not_true_is_false. intros Hw. apply Hout. right.
  by apply joiners_elem_of.
Qed.

Lemma separated_turn (U : gset string) Cl U' Cl' :
  enumerates set_iter -> separated U Cl -> turn U Cl U' Cl' -> separated U' Cl'.
Proof.
  intros Hiter (Hkeys & Hout & Hpairs)
    (center & cc & Hne & Hc & Hcc & Hal & -> & ->).
  apply pick_center_Some in Hc as [Hin _].
  rewrite dict_set_fresh by (intros Hk; by apply Hkeys in Hk).
  split; [|split].
  - intros k. unfold dict_keys. rewrite map_app, elem_of_app. simpl.
    intros [Hk| ->%list_elem_of_singleton]; [apply Hkeys in Hk|]; set_solver.
  - intros rep ms [Hold| [= -> ->]%list_elem_of_singleton]%elem_of_app.
    + destruct (Hout _ _ Hold) as (cc' & ? & Hall). exists cc'.
      split; [done|]. intros s Hs. apply Hall. set_solver.
    + exists cc. split; [done|]. intros s Hs.
      by eapply left_out_is_outside.
  - intros i j ci cj Hi Hj Hlt. unfold dict in *.
    assert (i < length Cl) as Hilen.
    { apply lookup_lt_Some in Hj. rewrite length_app in Hj. simpl in Hj. lia. }
    rewrite lookup_app_l in Hi by done.
    destruct (decide (j < length Cl)) as [Hjlen|Hjlen].
    { rewrite lookup_app_l in Hj by done. by eapply Hpairs. }
    rewrite lookup_app_r in Hj by lia.
    apply list_lookup_singleton_Some in Hj as [_ <-]. simpl.
    destruct ci as [rep ms].
    destruct (Hout rep ms) as (cc' & ? & Hall).
    { by eapply list_elem_of_lookup_2. }
    exists cc'. split; [done|].
    intros m [->|Hm]%elem_of_cons; apply Hall; [done|].
    by eapply joiners_in.
Qed.

(** X9. A member of a cluster was left out of every cluster formed before its
    own: its alignment onto each earlier representative returned an RMSD that
    is not below the cutoff. *)
Theorem later_members_outside clusters i j rep_i members_i rep_j members_j :
  enumerates set_iter ->
  cluster_structures = Ok clusters ->
  clusters !! i = Some (rep_i, members_i) ->
  clusters !! j = Some (rep_j, members_j) ->
  i < j ->
  exists rep_coords,
    dict_get coords_dict rep_i = Ok rep_coords /\
    forall m, m ∈ members_j -> rmsd_below false rep_coords m.
Proof.
  unfold cluster_structures. intros Hiter Hrun Hi Hj Hlt.
  destruct (cluster_loop_invariant kabsch coords_dict structure_order set_iter
              rmsd_cutoff separated)
    with (size (list_to_set structure_order : gset string))
         (list_to_set structure_order : gset string)
         (@nil (string * list string)) clusters
    as (_ & (_ & _ & Hpairs) & _); [| |done|].
  - intros U Cl U' Cl'. by apply separated_turn.
  - split; [by intros k ?%elem_of_nil|].
    split; [by intros rep ms ?%elem_of_nil|].
    by intros [|?] ? ? ? ?.
  - by apply (Hpairs i j (rep_i, members_i) (rep_j, members_j)).
Qed.

(** *** The order of the representatives *)

Lemma in_order_turn (U : gset string) Cl U' Cl' :
  (exists pre post, structure_order = pre ++ post /\
      dict_keys Cl `sublist_of` pre /\ forall s, s ∈ pre -> s ∉ U) ->
  turn U Cl U' Cl' ->
  exists pre post, structure_order = pre ++ post /\
      dict_keys Cl' `sublist_of` pre /\ forall s, s ∈ pre -> s ∉ U'.
Proof.
  intros (pre & post & Horder & Hsub & Hpre)
    (center & cc & Hne & Hc & Hcc & Hal & -> & ->).
  apply pick_center_Some in Hc as (Hin & before & after & Horder' & Hbefore).
  assert (center ∉ pre) as Hcpre.
  { intros Hc'. by apply Hpre in Hc'. }
  assert (exists k, before = pre ++ k) as [k ->].
  { rewrite Horder in Horder'. apply app_eq_inv in Horder' as [(k & -> & Hk)|(k & ? & _)].
    - destruct k as [|c k]; [exists []; by rewrite !app_nil_r|].
      simplify_eq/=. exfalso. apply Hcpre. set_solver.
    - by exists k. }
  rewrite dict_set_fresh.
  2:{ intros Hk. apply Hcpre. by eapply elem_of_sublist. }
  exists ((pre ++ k) ++ [center]), after. split; [by rewrite <- app_assoc|].
  split.
  - unfold dict_keys. rewrite map_app. simpl. rewrite <- app_assoc.
    apply sublist_app; [done|]. by apply sublist_inserts_l.
  - intros s [Hs| ->%list_elem_of_singleton]%elem_of_app; [|set_solver].
    apply Hbefore in Hs. set_solver.
Qed.

(** X10. The representatives come out in the processing order: the keys of the
    result, in the order of the dictionary, are a subsequence of
    [structure_order]. *)
Theorem representatives_in_order clusters :
  cluster_structures = Ok clusters ->
  dict_keys clusters `sublist_of` structure_order.
Proof.
  unfold cluster_structures. intros Hrun.
  destruct (cluster_loop_invariant kabsch coords_dict structure_order set_iter
              rmsd_cutoff
              (fun U Cl => exists pre post, structure_order = pre ++ post /\
                  dict_keys Cl `sublist_of` pre /\ forall s, s ∈ pre -> s ∉ U))
    with (size (list_to_set structure_order : gset string))
         (list_to_set structure_order : gset string)
         (@nil (string * list string)) clusters
    as (_ & (pre & post & -> & Hsub & _) & _); [| |done|].
  - intros U Cl U' Cl'. apply in_order_turn.
  - exists [], structure_order. split; [done|]. split; [constructor|].
    by intros s ?%elem_of_nil.
  - by apply sublist_inserts_r.
Qed.

(** *** Names without coordinates *)

Lemma pick_center_first (U : gset string) before center after :
  structure_order = before ++ center :: after ->
  (forall s, s ∈ before -> s ∉ U) -> center ∈ U ->
  pick_center structure_order U = Some center.
Proof.
  unfold pick_center. intros -> Hbefore Hin.
  induction before as [|s before IH]; simpl.
  - by rewrite bool_decide_eq_true_2.
  - rewrite bool_decide_eq_false_2 by (apply Hbefore; left).
    apply IH. intros s' Hs'. apply Hbefore. by right.
Qed.

(** X11. A name of the processing order that has no entry in [coords_dict]
    makes the call raise; when it is the first name of the order, the
    exception is the [KeyError] of that name. *)
Theorem missing_coordinates_raise name :
  enumerates set_iter ->
  name ∈ structure_order ->
  dict_find coords_dict name = None ->
  (exists e, cluster_structures = Raise e) /\
  (head structure_order = Some name ->
   cluster_structures = Raise (KeyError name)).
Proof.
  intros Hiter Hin Hnone. unfold cluster_structures.
  set (S0 := list_to_set structure_order : gset string).
  assert (name ∈ S0) as HinS by by apply elem_of_list_to_set.
  assert (dict_get coords_dict name = Raise (KeyError name)) as Hget.
  { unfold dict_get. by rewrite Hnone. }
  destruct (size S0) as [|fuel] eqn:Hsz.
  { apply size_empty_iff in Hsz. set_solver. }
  simpl. rewrite decide_False by set_solver.
  destruct (pick_center structure_order S0) as [center|] eqn:Hc.
  2:{ exfalso. by eapply pick_center_None. }
  split.
  - destruct (dict_get coords_dict center) as [cc|e] eqn:Hcc; simpl; [|by exists e].
    destruct (absorb _ _ _ _ _ _ _) as [ms|e] eqn:Hab; simpl; [|by exists e].
    exfalso. apply absorb_Ok in Hab as [Hal _].
    destruct (decide (name = center)) as [->|Hne]; [congruence|].
    destruct (Hal name) as (c & r & Hc' & _); [|done|congruence].
    by rewrite (Hiter S0), elem_of_elements.
  - intros [rest Horder]%head_Some.
    rewrite (pick_center_first S0 [] name rest) in Hc; [|done| |done].
    2:{ by intros s ?%elem_of_nil. }
    injection Hc as <-. by rewrite Hget.
Qed.

(** *** One cluster, and clusters of one *)

(** X12. When every other name aligns onto the first of the order with an RMSD
    below the cutoff, the result is one cluster: the first name, then all the
    others, each once. *)
Theorem all_within_one_cluster center rest cc :
  enumerates set_iter ->
  structure_order = center :: rest ->
  dict_get coords_dict center = Ok cc ->
  (forall s, s ∈ rest -> s ≠ center -> rmsd_below true cc s) ->
  exists members,
    cluster_structures = Ok [(center, members)] /\
    head members = Some center /\
    NoDup members /\
    forall s, s ∈ members <-> s ∈ structure_order.
Proof.
  intros Hiter Horder Hcc Hclose. unfold cluster_structures.
  set (S0 := list_to_set structure_order : gset string).
  assert (center ∈ S0) as Hin by (unfold S0; rewrite Horder; set_solver).
  assert (forall s, s ∈ S0 -> s ≠ center -> within cc s = true) as Hw.
  { intros s Hs Hne. apply within_true, Hclose; [|done].
    unfold S0 in Hs. rewrite Horder in Hs. set_solver. }
  destruct (size S0) as [|fuel] eqn:Hsz.
  { apply size_empty_iff in Hsz. set_solver. }
  set (ms := center :: joiners center cc (set_iter S0)).
  assert (forall s, s ∈ ms <-> s ∈ S0) as Hms.
  { intros s. unfold ms. rewrite elem_of_cons, joiners_elem_of, (Hiter S0),
      elem_of_elements.
    split; [intros [->|[_ ?]]; done|].
    intros Hs. destruct (decide (s = center)); [by left | right]. auto. }
  exists ms. split; [|split; [done|split]].
  - rewrite (cluster_loop_step kabsch coords_dict structure_order set_iter
               rmsd_cutoff fuel S0 [] center cc); [|done|set_solver| | |].
    + fold ms. assert (S0 ∖ list_to_set ms = ∅) as ->.
      { apply leibniz_equiv. intros s.
        rewrite elem_of_difference, elem_of_list_to_set, Hms. set_solver. }
      destruct fuel; simpl; by rewrite decide_True.
    + apply (pick_center_first S0 [] center rest); [done| |done].
      by intros s ?%elem_of_nil.
    + done.
    + intros s Hs Hne. specialize (Hw s Hs Hne).
      apply within_true in Hw as (c & R & t & rmsd & ? & ? & _).
      by exists c, (R, t, rmsd).
  - unfold ms. constructor.
    + intros [[? _] _]%joiners_elem_of. done.
    + apply NoDup_filter. rewrite (Hiter S0). apply NoDup_elements.
  - intros s. rewrite Hms. unfold S0. by rewrite elem_of_list_to_set.
Qed.

Lemma cluster_loop_singletons (finished todo : list string) fuel :
  enumerates set_iter ->
  structure_order = finished ++ todo -> NoDup structure_order ->
  (forall a, a ∈ structure_order ->
     exists ca, dict_get coords_dict a = Ok ca /\
       forall b, b ∈ structure_order -> b ≠ a -> rmsd_below false ca b) ->
  length todo <= fuel ->
  loop fuel (list_to_set todo) (map (fun s => (s, [s])) finished)
  = Ok (map (fun s => (s, [s])) structure_order).
Proof.
  intros Hiter Horder Hnd Hapart. revert finished fuel Horder.
  induction todo as [|a todo IH]; intros finished fuel Horder Hfuel.
  - rewrite app_nil_r in Horder. subst finished.
    destruct fuel; simpl; by rewrite decide_True.
  - destruct fuel as [|fuel]; [simpl in Hfuel; lia|].
    set (U := list_to_set (a :: todo) : gset string).
    assert (NoDup (finished ++ a :: todo)) as Hnd' by by rewrite <- Horder.
    apply NoDup_app in Hnd' as (_ & Hdisj & [Ha _]%NoDup_cons).
    destruct (Hapart a) as (ca & Hca & Hout).
    { rewrite Horder. set_solver. }
    assert (joiners a ca (set_iter U) = []) as Hnone.
    { destruct (joiners a ca (set_iter U)) as [|s js] eqn:Hjs; [done|].
      exfalso. assert (s ∈ joiners a ca (set_iter U)) as Hs
        by (rewrite Hjs; left).
      apply joiners_elem_of in Hs as [[Hne Hw] Hs].
      rewrite (Hiter U), elem_of_elements in Hs.
      rewrite (rmsd_below_false_within ca s) in Hw; [done|].
      apply Hout; [|done]. rewrite Horder. set_solver. }
    rewrite (cluster_loop_step kabsch coords_dict structure_order set_iter
               rmsd_cutoff fuel U _ a ca); [|done|set_solver| |done|].
    + rewrite Hnone.
      assert (U ∖ list_to_set [a] = list_to_set todo) as ->.
      { apply leibniz_equiv. intros s. unfold U.
        rewrite elem_of_difference, !elem_of_list_to_set, elem_of_cons,
          list_elem_of_singleton.
        split; [naive_solver|]. intros Hs. split; [by right|]. by intros ->. }
      rewrite dict_set_fresh.
      2:{ unfold dict_keys. rewrite map_map. simpl. rewrite map_id.
          intros Hf. by apply (Hdisj a); [|left]. }
      replace (map (fun s => (s, [s])) finished ++ [(a, [a])])
        with (map (fun s : string => (s, [s])) (finished ++ [a]))
        by by rewrite map_app.
      apply IH; [by rewrite <- app_assoc | simpl in Hfuel; lia].
    + apply (pick_center_first U finished a todo); [done| |set_solver].
      intros s Hs HsU. apply (Hdisj s Hs). unfold U in HsU. set_solver.
    + intros s Hs Hne.
      destruct (Hout s) as (c & R & t & rmsd & ? & ? & _); [|done|].
      { rewrite Horder. unfold U in Hs. set_solver. }
      by exists c, (R, t, rmsd).
Qed.

(** X13. When no name aligns onto another with an RMSD below the cutoff, every
    name is a cluster of its own, in the processing order. *)
Theorem none_within_singletons :
  enumerates set_iter ->
  NoDup structure_order ->
  (forall a, a ∈ structure_order ->
     exists ca, dict_get coords_dict a = Ok ca /\
       forall b, b ∈ structure_order -> b ≠ a -> rmsd_below false ca b) ->
  cluster_structures = Ok (map (fun s => (s, [s])) structure_order).
Proof.
  intros Hiter Hnd Hapart. unfold cluster_structures.
  apply (cluster_loop_singletons [] structure_order); [done..|].
  rewrite size_list_to_set by done. lia.
Qed.
End ClusterGuarantees.

Section ClusterOk.
Context {coords : Type}.
Variable kabsch : coords -> coords -> Res (ndarray * ndarray * float).
Variable coords_dict : dict string coords.
Variable structure_order : list string.
Variable set_iter : gset string -> list string.
Variable rmsd_cutoff : float.

Lemma cluster_structures_Ok clusters :
  enumerates set_iter ->
  cluster_structures kabsch set_iter coords_dict structure_order rmsd_cutoff
    = Ok clusters ->
  NoDup (concat (dict_values clusters)) /\
  (forall name, name ∈ concat (dict_values clusters) <-> name ∈ structure_order) /\
  Forall (fun kv => head kv.2 = Some kv.1) clusters.
Proof.
  intros Hiter Hrun. unfold cluster_structures in Hrun.
  set (S0 := list_to_set structure_order : gset string) in *.
  destruct (cluster_loop_invariant kabsch coords_dict structure_order set_iter
              rmsd_cutoff (partitions S0))
    with (size S0) S0 (@nil (string * list string)) clusters
    as (U' & (HU' & Hnd & Hmem & Hhd & Hlen) & Hdone); [| |done|].
  { intros U Cl U1 Cl1. by apply partitions_turn. }
  { split; [done|]. split; [constructor|]. split.
    - intros name. split; [by intros ?%elem_of_nil | naive_solver].
    - split; [constructor | simpl; lia]. }
  split; [done|]. split; [|done].
  intros name. rewrite Hmem. unfold S0. rewrite elem_of_list_to_set.
  split; [by intros [? _]|]. intros Hin. split; [done|]. by apply Hdone.
Qed.

Lemma clusters_keys_NoDup (clusters : dict string (list string)) :
  NoDup (concat (dict_values clusters)) ->
  Forall (fun kv => head kv.2 = Some kv.1) clusters ->
  NoDup (dict_keys clusters).
Proof.
  induction clusters as [|[k ms] Cl IH]; simpl; [constructor|].
  intros (Hms & Hdisj & Hrest)%NoDup_app [Hhd Hall]%Forall_cons.
  constructor; [|by apply IH].
  change (k ∉ dict_keys Cl). intros Hk%keys_in_members; [|done].
  apply (Hdisj k); [|done]. simpl in Hhd. destruct ms; simplify_eq/=. left.
Qed.
End ClusterOk.

Section ClusterRaise.
Context {coords : Type}.
Variable kabsch : coords -> coords -> Res (ndarray * ndarray * float).
Variable coords_dict : dict string coords.
Variable structure_order : list string.
Variable set_iter : gset string -> list string.
Variable rmsd_cutoff : float.

Lemma absorb_Raise center cc todo members e :
  absorb kabsch coords_dict rmsd_cutoff center cc todo members = Raise e ->
  (forall s, s ∈ todo -> s ∈ dict_keys coords_dict) ->
  exists s c, s ∈ todo /\ dict_find coords_dict s = Some c /\
              kabsch c cc = Raise e.
Proof.
  revert members. induction todo as [|s todo IH]; intros members; simpl; [done|].
  intros Hrun Hkeys.
  assert (forall members',
            absorb kabsch coords_dict rmsd_cutoff center cc todo members' = Raise e ->
            exists s' c, s' ∈ s :: todo /\ dict_find coords_dict s' = Some c /\
                         kabsch c cc = Raise e) as Hrest.
  { intros members' (s' & c & ? & ? & ?)%IH; [|intros; apply Hkeys; by right].
    exists s', c. split; [by right | done]. }
  case_decide as Hs; [by eapply Hrest|].
  destruct (dict_find_keys coords_dict s) as [c Hc]; [apply Hkeys; left|].
  unfold dict_get in Hrun. rewrite Hc in Hrun. simpl in Hrun.
  destruct (kabsch c cc) as [[[R t] rmsd]|e'] eqn:Hk; simpl in Hrun.
  - destruct (PrimFloat.ltb rmsd rmsd_cutoff); by eapply Hrest.
  - injection Hrun as ->. exists s, c. split; [left | done].
Qed.

(** With every name of the order in [coords_dict], the clustering raises
    only what an alignment of two of its coordinate sets raises. *)
Lemma cluster_loop_Raise fuel (U : gset string) Cl e :
  enumerates set_iter ->
  ranked coords_dict structure_order ->
  U ⊆ list_to_set structure_order -> size U <= fuel ->
  cluster_loop kabsch set_iter coords_dict structure_order rmsd_cutoff fuel U Cl
    = Raise e ->
  exists a b ca cb,
    dict_find coords_dict a = Some ca /\ dict_find coords_dict b = Some cb /\
    kabsch ca cb = Raise e.
Proof.
  intros Hiter Hr. revert U Cl.
  induction fuel as [|fuel IH]; intros U Cl HU Hsz; simpl.
  { rewrite decide_True; [done|]. apply leibniz_equiv, size_empty_iff. lia. }
  case_decide as Hne; [done|].
  destruct (pick_center structure_order U) as [center|] eqn:Hc; [|done].
  apply pick_center_Some in Hc as [Hin _].
  assert (forall s, s ∈ U -> s ∈ dict_keys coords_dict) as Hkeys.
  { intros s Hs. apply Hr. apply HU in Hs. by apply elem_of_list_to_set in Hs. }
  destruct (dict_find_keys coords_dict center) as [cc Hcc]; [by apply Hkeys|].
  unfold dict_get at 1. rewrite Hcc. simpl.
  destruct (absorb _ _ _ _ _ _ _) as [ms|e'] eqn:Hab; simpl.
  - apply absorb_Ok in Hab as [_ ->]. rewrite discard_all_difference.
    apply IH; [set_solver|].
    match goal with
    | |- size ?X <= _ =>
        assert (size X < size U) by (apply subset_size; set_solver)
    end.
    lia.
  - intros [= ->]. apply absorb_Raise in Hab as (s & c & _ & Hs & Hk).
    + by exists s, center, c, cc.
    + intros s Hs. apply Hkeys. by rewrite (Hiter U), elem_of_elements in Hs.
Qed.
End ClusterRaise.

Section NoRadius.
Variable svd : nat -> nat -> list (list float) ->
               option (list (list float) * list float * list (list float)).
Variable det : list (list float) -> float.
Variable coords_dict : dict string ndarray.
Variable structure_order : list string.
Variable set_iter : gset string -> list string.

(** X14. With a cutoff that is not above zero (zero, a negative number or a
    NaN) no structure joins another: since no RMSD is below zero, every name
    of the order becomes a cluster of its own. *)
Theorem no_cutoff_no_members (rmsd_cutoff : float) :
  enumerates set_iter ->
  NoDup structure_order ->
  ranked coords_dict structure_order ->
  comparable (kabsch_algorithm svd det) coords_dict ->
  PrimFloat.ltb 0 rmsd_cutoff = false ->
  cluster_structures (kabsch_algorithm svd det) set_iter coords_dict
    structure_order rmsd_cutoff
  = Ok (map (fun s => (s, [s])) structure_order).
Proof.
  intros Hiter Hnd Hr Hcmp Hcut. unfold cluster_structures.
  apply (cluster_loop_singletons _ _ _ _ _ [] structure_order); [done..| |].
  2:{ rewrite size_list_to_set by done. lia. }
  intros a Ha.
  destruct (dict_get_ranked coords_dict structure_order a Hr Ha) as (ca & Hca & Hva).
  exists ca. split; [done|]. intros b Hb _.
  destruct (dict_get_ranked coords_dict structure_order b Hr Hb) as (cb & Hcb & Hvb).
  destruct (Hcmp cb ca Hvb Hva) as [[[R t] rmsd] Hk].
  exists cb, R, t, rmsd. split; [done|]. split; [done|].
  apply not_below_nonpositive; [|done].
  by eapply kabsch_rmsd_sign.
Qed.
End NoRadius.

(** ** The loaded structures *)

Section LoadInvariant.
Variable scores : dict string float.

Lemma dict_mem_find k :
  dict_mem scores k = true <-> is_Some (dict_find scores k).
Proof.
  rewrite dict_mem_keys. split; [apply dict_find_keys|].
  intros [v Hv]. by eapply dict_find_Some_keys.
Qed.

Lemma grouped_load st f n name coords :
  grouped (load_file scores st f) n name coords <->
  match extract_backbone_coords f with
  | Ok (coords_f, n_f) =>
      if dict_mem scores (base_name (file_name f)) then
        if decide (n_f = n /\ file_name f = name) then coords = coords_f
        else grouped st n name coords
      else grouped st n name coords
  | Raise _ => grouped st n name coords
  end.
Proof.
  unfold load_file.
  destruct (dict_mem scores _) eqn:Hmem; simpl.
  2:{ by destruct (extract_backbone_coords f) as [[? ?]|]. }
  destruct (extract_backbone_coords f) as [[coords_f n_f]|e]; [|done].
  assert (forall si w,
          grouped
            {| coords_by_length :=
                 dict_set (coords_by_length st) n_f
                   (dict_set (default [] (dict_find (coords_by_length st) n_f))
                      (file_name f) coords_f);
               structure_info := si; warnings := w |}
            n name coords <->
          if decide (n_f = n /\ file_name f = name) then coords = coords_f
          else grouped st n name coords) as Hiff.
  { intros si w. unfold grouped. simpl. rewrite dict_find_set.
    destruct (decide (n_f = n)) as [->|Hn].
    - destruct (decide (file_name f = name)) as [->|Hname].
      + rewrite decide_True by done. split.
        * intros (group & [= <-] & Hfind). rewrite dict_find_set_eq in Hfind.
          congruence.
        * intros ->. eexists. split; [done|]. apply dict_find_set_eq.
      + rewrite decide_False by naive_solver. split.
        * intros (group & [= <-] & Hfind).
          rewrite dict_find_set_ne in Hfind by done.
          destruct (dict_find (coords_by_length st) n) as [g|]; [|done].
          by exists g.
        * intros (g & Hg & Hfind). eexists. split; [done|].
          rewrite dict_find_set_ne by done. by rewrite Hg.
    - rewrite decide_False by naive_solver. done. }
  destruct (dict_find scores _); apply Hiff.
Qed.

Lemma structure_info_load st f name :
  dict_find (structure_info (load_file scores st f)) name =
  match extract_backbone_coords f, dict_find scores (base_name (file_name f)) with
  | Ok (_, n_f), Some score =>
      if decide (file_name f = name) then Some (n_f, score)
      else dict_find (structure_info st) name
  | _, _ => dict_find (structure_info st) name
  end.
Proof.
  unfold load_file.
  destruct (dict_mem scores _) eqn:Hmem; simpl.
  - apply dict_mem_find in Hmem as [score Hscore]. rewrite Hscore.
    destruct (extract_backbone_coords f) as [[coords_f n_f]|e]; [|done].
    simpl. apply dict_find_set.
  - assert (dict_find scores (base_name (file_name f)) = None) as ->.
    { apply dict_find_None. intros Hin%dict_mem_keys. congruence. }
    by destruct (extract_backbone_coords f) as [[? ?]|].
Qed.

Lemma load_files_snoc files f :
  load_files scores (files ++ [f]) = load_file scores (load_files scores files) f.
Proof. unfold load_files. by rewrite fold_left_app. Qed.

(** What the loading loop keeps. *)
Lemma grouped_from_file files n name coords :
  grouped (load_files scores files) n name coords ->
  dict_mem scores (base_name name) = true /\
  exists f, f ∈ files /\ file_name f = name /\
            extract_backbone_coords f = Ok (coords, n).
Proof.
  induction files as [|f files IH] using rev_ind.
  { by intros (group & ? & _). }
  rewrite load_files_snoc, grouped_load.
  assert (grouped (load_files scores files) n name coords ->
          dict_mem scores (base_name name) = true /\
          exists f', f' ∈ files ++ [f] /\ file_name f' = name /\
                     extract_backbone_coords f' = Ok (coords, n)) as Hold.
  { intros (? & g & ? & ? & ?)%IH. split; [done|]. exists g.
    split; [|done]. apply elem_of_app. by left. }
  destruct (extract_backbone_coords f) as [[coords_f n_f]|e] eqn:Hext;
    [|exact Hold].
  destruct (dict_mem scores (base_name (file_name f))) eqn:Hmem; [|exact Hold].
  case_decide as Hd; [|exact Hold].
  destruct Hd as [<- <-]. intros ->. split; [done|]. exists f.
  split; [|done]. apply elem_of_app. right. left.
Qed.

Lemma structure_info_grouped files name n score :
  dict_find (structure_info (load_files scores files)) name = Some (n, score) ->
  dict_find scores (base_name name) = Some score /\
  exists coords, grouped (load_files scores files) n name coords.
Proof.
  induction files as [|f files IH] using rev_ind; [done|].
  rewrite load_files_snoc, structure_info_load.
  setoid_rewrite grouped_load.
  destruct (extract_backbone_coords f) as [[coords_f n_f]|e] eqn:Hext; [|done].
  destruct (dict_find scores (base_name (file_name f))) as [score_f|] eqn:Hsc.
  - assert (dict_mem scores (base_name (file_name f)) = true) as ->.
    { apply dict_mem_find. by eexists. }
    case_decide as Hname.
    + intros [= <- <-]. subst name. split; [done|]. exists coords_f.
      by rewrite decide_True.
    + intros (? & coords & Hg)%IH. split; [done|]. exists coords.
      by rewrite decide_False by naive_solver.
  - assert (dict_mem scores (base_name (file_name f)) = false) as ->; [|done].
    apply not_true_is_false. intros [? ?]%dict_mem_find. congruence.
Qed.

Lemma grouped_structure_info files n name coords :
  NoDup (map file_name files) ->
  grouped (load_files scores files) n name coords ->
  exists score, dict_find (structure_info (load_files scores files)) name
                = Some (n, score).
Proof.
  induction files as [|f files IH] using rev_ind.
  { by intros _ (group & ? & _). }
  rewrite map_app. simpl. intros [Hnd [Hfresh _]]%NoDup_app.
  rewrite load_files_snoc, structure_info_load, grouped_load.
  destruct (extract_backbone_coords f) as [[coords_f n_f]|e] eqn:Hext; [|by apply IH].
  destruct (dict_mem scores (base_name (file_name f))) eqn:Hmem.
  - apply dict_mem_find in Hmem as [score_f ->].
    case_decide as Hd.
    + destruct Hd as [<- <-]. intros _. rewrite decide_True by done. by eexists.
    + intros Hg. case_decide as Hname; [|by apply IH].
      exfalso. apply grouped_from_file in Hg as (_ & g & Hg & Hgname & _).
      apply (Hfresh (file_name g)).
      * apply list_elem_of_fmap. by exists g.
      * rewrite Hgname, <- Hname. left.
  - intros Hg. apply IH in Hg as [score Hscore]; [|done].
    exists score.
    destruct (dict_find scores (base_name (file_name f))) eqn:Hsc; [|done].
    exfalso. assert (dict_mem scores (base_name (file_name f)) = true) as Hm.
    { apply dict_mem_find. by eexists. }
    congruence.
Qed.
End LoadInvariant.

Section Loading.
Variable scores : dict string float.

Lemma file_loaded files f coords n score :
  NoDup (map file_name files) ->
  f ∈ files ->
  dict_find scores (base_name (file_name f)) = Some score ->
  extract_backbone_coords f = Ok (coords, n) ->
  dict_find (structure_info (load_files scores files)) (file_name f)
    = Some (n, score) /\
  grouped (load_files scores files) n (file_name f) coords.
Proof.
  intros Hnd Hin Hscore Hext.
  induction files as [|g files IH] using rev_ind.
  { by apply elem_of_nil in Hin. }
  rewrite map_app in Hnd. simpl in Hnd.
  apply NoDup_app in Hnd as (Hnd & Hfresh & _).
  rewrite load_files_snoc, structure_info_load, grouped_load.
  apply elem_of_app in Hin as [Hin|Hfg%list_elem_of_singleton]; [|subst g].
  - destruct (IH Hnd Hin) as [Hsi Hgr].
    assert (file_name g ≠ file_name f) as Hne.
    { intros Heq. apply (Hfresh (file_name f)); [|rewrite Heq; left].
      apply list_elem_of_fmap. by exists f. }
    destruct (extract_backbone_coords g) as [[coords_g n_g]|]; [|done].
    split.
    + destruct (dict_find scores (base_name (file_name g))); [|done].
      by rewrite decide_False.
    + destruct (dict_mem scores _); [|done].
      by rewrite decide_False by naive_solver.
  - rewrite Hext, Hscore.
    assert (dict_mem scores (base_name (file_name f)) = true) as ->.
    { apply dict_mem_find. by eexists. }
    by rewrite !decide_True.
Qed.

(** X15. What the loading loop leaves in its two dictionaries, for file names
    that are all different: a name has the entry [(n, score)] in
    [structure_info] and the coordinates [coords] under the length [n] exactly
    when the table scores its base name [score] and its file was read with
    these coordinates and this residue count. *)
Theorem loaded_exactly (files : list cif_file) (name : string) (n : nat)
    (score : float) (coords : ndarray) :
  NoDup (map file_name files) ->
  (dict_find (structure_info (load_files scores files)) name = Some (n, score) /\
   grouped (load_files scores files) n name coords) <->
  (dict_find scores (base_name name) = Some score /\
   exists f, f ∈ files /\ file_name f = name /\
             extract_backbone_coords f = Ok (coords, n)).
Proof.
  intros Hnd. split.
  - intros [[Hscore _]%structure_info_grouped [_ Hf]%grouped_from_file]. done.
  - intros (Hscore & f & Hin & <- & Hext). by apply file_loaded.
Qed.

Lemma load_file_unscored st f :
  dict_mem scores (base_name (file_name f)) = false -> load_file scores st f = st.
Proof. intros Hf. unfold load_file. by rewrite Hf. Qed.

Lemma load_files_unscored before f after :
  dict_mem scores (base_name (file_name f)) = false ->
  load_files scores (before ++ f :: after) = load_files scores (before ++ after).
Proof.
  intros Hf. unfold load_files. rewrite !fold_left_app. simpl.
  by rewrite load_file_unscored.
Qed.

Lemma load_files_none files :
  (forall f, f ∈ files -> dict_mem scores (base_name (file_name f)) = false) ->
  load_files scores files
  = {| coords_by_length := []; structure_info := []; warnings := [] |}.
Proof.
  induction files as [|f files IH] using rev_ind; [done|].
  intros Hall. rewrite load_files_snoc, IH.
  - apply load_file_unscored, Hall. apply elem_of_app. right. left.
  - intros g Hg. apply Hall. apply elem_of_app. by left.
Qed.
End Loading.

Section Extraction.

Lemma residue_backbone_length residue : length (residue_backbone residue) <= 4.
Proof.
  unfold residue_backbone. simpl. rewrite !length_app.
  repeat match goal with
         | |- context [gemmi.find_atom ?r ?a ?z] => destruct (gemmi.find_atom r a z)
         end; simpl; lia.
Qed.

Lemma backbone_length (model : gemmi.Model) :
  length (flat_map (fun chain => flat_map residue_backbone chain) model)
  <= 4 * length (concat model).
Proof.
  induction model as [|chain model IH]; simpl; [done|].
  rewrite !length_app.
  assert (length (flat_map residue_backbone chain) <= 4 * length chain); [|lia].
  clear. induction chain as [|residue chain IH]; simpl; [done|].
  rewrite length_app. pose proof (residue_backbone_length residue). lia.
Qed.

(** X16. The residue count that [extract_backbone_coords] returns is the
    number of points it returns divided by four, rounded down; there are at
    most four points for each residue of the first model, so the count never
    exceeds the number of its residues. *)
Theorem extract_counts (f : cif_file) (coords : ndarray) (n_residues : nat) :
  extract_backbone_coords f = Ok (coords, n_residues) ->
  exists points,
    np.len coords = Ok points /\
    n_residues = points / 4 /\
    points <= 4 * length (residues_of f) /\
    n_residues <= length (residues_of f).
Proof.
  unfold extract_backbone_coords, residues_of.
  destruct (read_structure f) as [[|model structure]|e]; simpl; [done| |done].
  pose proof (backbone_length model) as Hlen.
  match goal with |- context [np.array ?l] => set (rows := l) in * end.
  assert (np.len (np.array rows) = Ok (length rows)) as Hnp by by destruct rows.
  rewrite Hnp. cbn [bind]. intros Heq.
  assert (coords = np.array rows /\ n_residues = length rows / 4) as [-> ->]
    by (by injection Heq).
  exists (length rows). split; [done|]. split; [done|]. split; [done|].
  apply Nat.Div0.div_le_upper_bound. lia.
Qed.

(** X17. A file whose first model has all four backbone atoms in every residue
    gives four points for each residue and the number of residues. *)
Theorem complete_structure_extracted (f : cif_file) (model : gemmi.Model)
    (rest : gemmi.Structure) :
  read_structure f = Ok (model :: rest) ->
  Forall complete (concat model) ->
  exists coords,
    extract_backbone_coords f = Ok (coords, length (concat model)) /\
    np.len coords = Ok (4 * length (concat model)).
Proof.
  intros Hread Hall.
  destruct (extract_backbone_coords f) as [[coords n]|e] eqn:Hext.
  - destruct (extract_complete f coords n) as [-> Hlen]; [|done|].
    + unfold residues_of. by rewrite Hread.
    + unfold residues_of in *. rewrite Hread in *. by exists coords.
  - apply extract_backbone_coords_raises in Hext as [?|[? _]]; congruence.
Qed.
End Extraction.

(** ** The run *)

Lemma for_each_prefix {A St : Type} (whole : list A) (I : list A -> St -> Prop)
    (body : St -> A -> Res St) :
  (forall pre a post st st',
      whole = pre ++ a :: post -> I pre st -> body st a = Ok st' ->
      I (pre ++ [a]) st') ->
  forall l pre st st',
    whole = pre ++ l -> I pre st -> for_each body l st = Ok st' -> I whole st'.
Proof.
  intros Hstep l. induction l as [|a l IH]; intros pre st st' Hwhole HI; simpl.
  - rewrite app_nil_r in Hwhole. subst pre. by intros [= <-].
  - destruct (body st a) as [st1|] eqn:Hbody; simpl; [|done].
    apply (IH (pre ++ [a])).
    + by rewrite <- app_assoc.
    + by eapply Hstep.
Qed.

Lemma for_each_Raise {A St : Type} (body : St -> A -> Res St) l st e :
  for_each body l st = Raise e ->
  exists pre a post st1,
    l = pre ++ a :: post /\ for_each body pre st = Ok st1 /\ body st1 a = Raise e.
Proof.
  revert st. induction l as [|a l IH]; intros st; simpl; [done|].
  destruct (body st a) as [st1|e'] eqn:Hbody; simpl.
  - intros (pre & b & post & st2 & -> & Hpre & Hb)%IH.
    exists (a :: pre), b, post, st2. simpl. by rewrite Hbody.
  - intros [= ->]. by exists [], a, l, st.
Qed.

Lemma sorted_lengths (l : list nat) :
  exists lengths, sorted_by Nat.ltb (fun n => Ok n) l = Ok lengths /\ lengths ≡ₚ l.
Proof.
  destruct (sorted_by_returns Nat.ltb (fun n : nat => Ok n) l) as [lengths Hs].
  { intros n _. by exists n. }
  exists lengths. split; [done|]. by apply sorted_by_Ok in Hs as [? _].
Qed.

Lemma sum_n_members (infos : list cluster_info) :
  Forall (fun info => n_members info = length (members info)) infos ->
  sum_list (map n_members infos) = length (concat (map members infos)).
Proof.
  induction 1 as [|info infos Hinfo _ IH]; simpl; [done|].
  rewrite length_app. lia.
Qed.

Lemma write_representatives_returns all_clusters all_representatives :
  (forall rep, rep ∈ all_representatives ->
               is_Some (dict_find all_clusters rep)) ->
  is_Ok (write_representatives all_clusters all_representatives).
Proof.
  intros Hall. unfold write_representatives.
  destruct (sorted_by_returns PrimFloat.ltb
              (fun r => info <- dict_get all_clusters r ;;
                        Ok (representative_score info)) all_representatives)
    as [reps_sorted Hsort].
  { intros rep [info Hinfo]%Hall. unfold dict_get. rewrite Hinfo. by eexists. }
  rewrite Hsort. cbn [bind].
  apply sorted_by_Ok in Hsort as [Hperm _].
  destruct (rows_written all_clusters reps_sorted []) as (rows & -> & _).
  { intros rep Hrep. apply Hall. by rewrite <- Hperm. }
  by eexists.
Qed.

Section MainRun.
Variable float_of_string : string -> option float.
Variable svd : nat -> nat -> list (list float) ->
               option (list (list float) * list float * list (list float)).
Variable det : list (list float) -> float.
Variable set_iter : gset string -> list string.

Local Abbreviation main := (main float_of_string svd det set_iter).
Local Abbreviation parse_score_file := (parse_score_file float_of_string).
Local Abbreviation kabsch := (kabsch_algorithm svd det).
Local Abbreviation cluster_group := (cluster_group svd det set_iter).
Local Abbreviation entry_of := (entry_of kabsch).

Lemma main_Ok score_file cif_files r :
  main score_file cif_files = Ok r <->
  exists scores lengths all_clusters all_representatives txt,
    parse_score_file score_file = Ok scores /\
    sorted_by Nat.ltb (fun n => Ok n)
      (dict_keys (coords_by_length (load_files scores cif_files))) = Ok lengths /\
    for_each (cluster_group scores (coords_by_length (load_files scores cif_files)))
      lengths ([], []) = Ok (all_clusters, all_representatives) /\
    write_representatives all_clusters all_representatives = Ok txt /\
    r = {| clusters_json := all_clusters; representatives_txt := txt;
           run_warnings := warnings (load_files scores cif_files) |}.
Proof.
  unfold main. split.
  - destruct (parse_score_file score_file) as [scores|]; simpl; [|done].
    destruct (sorted_by _ _ _) as [lengths|] eqn:Hs; simpl; [|done].
    destruct (for_each _ lengths _) as [[ac ar]|] eqn:Hl; simpl; [|done].
    destruct (write_representatives ac ar) as [txt|] eqn:Hw; simpl; [|done].
    intros [= <-]. by exists scores, lengths, ac, ar, txt.
  - intros (scores & lengths & ac & ar & txt & -> & Hs & Hl & Hw & ->).
    simpl. rewrite Hs. simpl. rewrite Hl. simpl. by rewrite Hw.
Qed.

(** What [cluster_group] does on the length [n], spelled out. *)
Lemma cluster_group_Ok scores by_length acc n acc' :
  cluster_group scores by_length acc n = Ok acc' <->
  exists group order clusters,
    dict_find by_length n = Some group /\
    sorted_by PrimFloat.ltb (get_score scores) (dict_keys group) = Ok order /\
    cluster_structures kabsch set_iter group order 1.5 = Ok clusters /\
    for_each (fun '(all_clusters, all_representatives) '(rep, members) =>
                score <- dict_get scores (base_name rep) ;;
                Ok (dict_set all_clusters rep
                      {| members := members;
                         n_residues := n;
                         n_members := List.length members;
                         representative_score := score |},
                    all_representatives ++ [rep]))
      clusters acc = Ok acc'.
Proof.
  unfold cluster_group, sort_and_cluster. split.
  - destruct (dict_find by_length n) as [group|]; simpl; [|done].
    destruct (sorted_by _ _ _) as [order|] eqn:Hs; simpl; [|done].
    destruct (cluster_structures _ _ _ _ _) as [clusters|] eqn:Hc; simpl; [|done].
    intros Hstore. by exists group, order, clusters.
  - intros (group & order & clusters & -> & Hs & Hc & Hstore).
    simpl. rewrite Hs. simpl. rewrite Hc. done.
Qed.

Lemma grouped_keys (st : loaded) n group name :
  dict_find (coords_by_length st) n = Some group ->
  name ∈ dict_keys group <-> exists c, grouped st n name c.
Proof.
  intros Hg. split.
  - intros [c Hc]%dict_find_keys. exists c, group. done.
  - intros (c & g & Hg' & Hc). rewrite Hg in Hg'. injection Hg' as <-.
    by eapply dict_find_Some_keys.
Qed.

(** The entries that one length group adds to [all_clusters]. *)
Lemma cluster_group_entries scores cif_files acc n acc' :
  enumerates set_iter ->
  let st := load_files scores cif_files in
  (forall rep info, dict_find acc.1 rep = Some info -> entry_of scores st rep info) ->
  cluster_group scores (coords_by_length st) acc n = Ok acc' ->
  forall rep info, dict_find acc'.1 rep = Some info -> entry_of scores st rep info.
Proof.
  intros Hiter st Hacc (group & order & clusters & Hg & Hs & Hc & Hstore)%cluster_group_Ok.
  pose proof (cluster_structures_Ok _ _ _ _ _ _ Hiter Hc) as (_ & _ & Hhd).
  destruct (cluster_loop_invariant kabsch group order set_iter 1.5%float
              (fun _ Cl => all_close kabsch group 1.5%float Cl))
    with (size (list_to_set order : gset string))
         (list_to_set order : gset string)
         (@nil (string * list string)) clusters
    as (_ & Hclose & _); [| |done|].
  { intros U Cl U' Cl'. apply all_close_turn. }
  { by intros rep' members' ?%elem_of_nil. }
  revert Hstore. apply (for_each_prefix clusters
    (fun _ acc => forall rep info, dict_find acc.1 rep = Some info ->
                    entry_of scores st rep info)) with (pre := []);
    [|done|done].
  intros pre [rep ms] post [ac ar] st' Hwhole Hold.
  destruct (dict_get scores (base_name rep)) as [score|] eqn:Hscore; simpl; [|done].
  intros [= <-] rep' info'. simpl. rewrite dict_find_set.
  case_decide as Hrep; [|by apply Hold]. subst rep'. intros [= <-].
  assert ((rep, ms) ∈ clusters) as Hin.
  { rewrite Hwhole. apply elem_of_app. right. left. }
  unfold entry_of. simpl.
  split; [done|]. split.
  { rewrite Forall_forall in Hhd. by apply (Hhd (rep, ms)). }
  split; [by apply dict_get_Ok|].
  destruct (Hclose rep ms Hin) as (cc & Hcc & Hms).
  exists cc. split.
  { exists group. split; [done|]. by apply dict_get_Ok. }
  intros m [->|(c & R & t & rmsd & Hc' & Hk & Hlt)]%Hms; [by left | right].
  exists c, R, t, rmsd. split; [|done].
  exists group. split; [done|]. by apply dict_get_Ok.
Qed.

(** X18. Every entry of [clusters.json] describes a cluster of structures that
    were loaded under one residue count: its first member is the
    representative, its member count is the number of members, its score is
    the representative's, and each other member was aligned onto the
    representative with an RMSD below 1.5. *)
Theorem clusters_json_entries score_file cif_files scores r rep info :
  enumerates set_iter ->
  parse_score_file score_file = Ok scores ->
  main score_file cif_files = Ok r ->
  dict_find (clusters_json r) rep = Some info ->
  entry_of scores (load_files scores cif_files) rep info.
Proof.
  intros Hiter Hparse
    (scores' & lengths & ac & ar & txt & Hparse' & _ & Hloop & _ & ->)%main_Ok.
  rewrite Hparse in Hparse'. injection Hparse' as <-. simpl.
  revert rep info.
  eapply (for_each_invariant
            (fun acc => forall rep info, dict_find acc.1 rep = Some info ->
                          entry_of scores (load_files scores cif_files) rep info)
            _ lengths ([], []) (ac, ar));
    [|done|exact Hloop].
  intros acc n acc' Hacc Hgroup. by eapply cluster_group_entries.
Qed.
End MainRun.

Section LoadedNames.
Variable scores : dict string float.

Lemma load_files_NoDup files :
  NoDup (dict_keys (structure_info (load_files scores files))) /\
  NoDup (dict_keys (coords_by_length (load_files scores files))).
Proof.
  induction files as [|f files [IH1 IH2]] using rev_ind.
  { split; constructor. }
  rewrite load_files_snoc. unfold load_file.
  destruct (negb _); [done|].
  destruct (extract_backbone_coords f) as [[coords n]|e]; [|done].
  destruct (dict_find scores _); simpl.
  - split; by apply dict_set_NoDup.
  - split; [done | by apply dict_set_NoDup].
Qed.

Lemma groups_disjoint files name n1 n2 c1 c2 :
  NoDup (map file_name files) ->
  grouped (load_files scores files) n1 name c1 ->
  grouped (load_files scores files) n2 name c2 ->
  n1 = n2.
Proof.
  intros Hnd [s1 H1]%grouped_structure_info [s2 H2]%grouped_structure_info;
    [|done..].
  congruence.
Qed.

Lemma loaded_names files name :
  NoDup (map file_name files) ->
  name ∈ dict_keys (structure_info (load_files scores files)) <->
  exists n c, grouped (load_files scores files) n name c.
Proof.
  intros Hnd. split.
  - intros [[n score] Hf]%dict_find_keys.
    apply structure_info_grouped in Hf as (_ & c & Hc). by exists n, c.
  - intros (n & c & [score Hs]%grouped_structure_info); [|done].
    by eapply dict_find_Some_keys.
Qed.
End LoadedNames.

Section MainPartition.
Variable float_of_string : string -> option float.
Variable svd : nat -> nat -> list (list float) ->
               option (list (list float) * list float * list (list float)).
Variable det : list (list float) -> float.
Variable set_iter : gset string -> list string.

Local Abbreviation main := (main float_of_string svd det set_iter).
Local Abbreviation parse_score_file := (parse_score_file float_of_string).
Local Abbreviation kabsch := (kabsch_algorithm svd det).
Local Abbreviation cluster_group := (cluster_group svd det set_iter).

(** Storing the clusters of a group under representatives that are all
    new appends one entry for each. *)
Lemma store_fresh scores n (clusters : dict string (list string)) ac ar acc' :
  for_each (fun '(all_clusters, all_representatives) '(rep, members) =>
              score <- dict_get scores (base_name rep) ;;
              Ok (dict_set all_clusters rep
                    {| members := members;
                       n_residues := n;
                       n_members := List.length members;
                       representative_score := score |},
                  all_representatives ++ [rep]))
    clusters (ac, ar) = Ok acc' ->
  NoDup (dict_keys clusters) ->
  (forall rep, rep ∈ dict_keys clusters -> rep ∉ dict_keys ac) ->
  exists infos,
    acc' = (ac ++ infos, ar ++ dict_keys clusters) /\
    Forall2 (fun c kv => kv.1 = c.1 /\ members kv.2 = c.2 /\
                         n_members kv.2 = length c.2) clusters infos.
Proof.
  revert ac ar. induction clusters as [|[rep ms] clusters IH]; intros ac ar; simpl.
  { intros [= <-] _ _. exists []. by rewrite !app_nil_r. }
  destruct (dict_get scores (base_name rep)) as [score|]; simpl; [|done].
  intros Hrun [Hrep Hnd]%NoDup_cons Hfresh.
  rewrite dict_set_fresh in Hrun by (apply Hfresh; left).
  apply IH in Hrun as (infos & -> & Hinfos); [|done|].
  - eexists (_ :: infos). rewrite <- !app_assoc. simpl. split; [done|].
    by constructor.
  - intros rep' Hrep'. unfold dict_keys. rewrite map_app, elem_of_app. simpl.
    intros [Hin| ->%list_elem_of_singleton].
    + apply (Hfresh rep'); [by right | done].
    + done.
Qed.

Lemma keys_clustered (ac : dict string cluster_info) k :
  Forall (fun kv => head (members kv.2) = Some kv.1 /\
                    n_members kv.2 = length (members kv.2)) ac ->
  k ∈ dict_keys ac -> k ∈ clustered_names ac.
Proof.
  intros Hhd ([k' info] & -> & Hin)%list_elem_of_fmap.
  rewrite Forall_forall in Hhd. destruct (Hhd _ Hin) as [Hk _]. simpl in *.
  apply elem_of_concat. exists (members info). split.
  - destruct (members info); simplify_eq/=. left.
  - apply list_elem_of_fmap. exists info. split; [done|].
    apply list_elem_of_fmap. by exists (k', info).
Qed.

Lemma cluster_group_stored scores cif_files pre n post acc acc' :
  enumerates set_iter ->
  NoDup (map file_name cif_files) ->
  let st := load_files scores cif_files in
  NoDup (pre ++ n :: post) ->
  stored st pre acc ->
  cluster_group scores (coords_by_length st) acc n = Ok acc' ->
  stored st (pre ++ [n]) acc'.
Proof.
  intros Hiter Hnames st Hnd (Har & Hhd & Hndm & Hmem)
    (group & order & clusters & Hg & Hs & Hc & Hstore)%cluster_group_Ok.
  destruct acc as [ac ar]. simpl in *. subst ar.
  pose proof (cluster_structures_Ok _ _ _ _ _ _ Hiter Hc) as (Hcnd & Hcmem & Hchd).
  apply sorted_by_Ok in Hs as [Hperm _].
  assert (forall name, name ∈ concat (dict_values clusters) <->
                       exists c, grouped st n name c) as Hcgroup.
  { intros name. rewrite Hcmem, Hperm. by apply grouped_keys. }
  assert (n ∉ pre) as Hn.
  { apply NoDup_app in Hnd as (_ & Hdisj & _). intros Hin.
    apply (Hdisj n Hin). left. }
  apply store_fresh in Hstore as (infos & -> & Hinfos).
  2:{ by apply clusters_keys_NoDup. }
  2:{ intros rep Hrep%keys_in_members Hold%keys_clustered; [|done..].
      apply Hcgroup in Hrep as [c Hc1].
      apply Hmem in Hold as (n' & c' & Hn' & Hc2).
      assert (n' = n) as -> by by eapply (groups_disjoint scores cif_files).
      done. }
  assert (map fst infos = dict_keys clusters /\
          map members (map snd infos) = dict_values clusters /\
          Forall (fun kv => head (members kv.2) = Some kv.1 /\
                            n_members kv.2 = length (members kv.2)) infos)
    as (Hkeys & Hvalues & Hinfohd).
  { clear -Hinfos Hchd. unfold dict_keys, dict_values.
    induction Hinfos as [|c kv cs kvs (Hk & Hm & Hl) _ IH]; [done|].
    apply Forall_cons in Hchd as [Hc Hcs].
    destruct (IH Hcs) as (Hk' & Hv' & Hf'). simpl.
    rewrite Hk', Hv', Hk, Hm. repeat split; try done.
    constructor; [|done]. by rewrite Hm, Hk. }
  assert (clustered_names (ac ++ infos)
          = clustered_names ac ++ concat (dict_values clusters)) as Hnames'.
  { unfold clustered_names, dict_values at 1.
    rewrite !map_app, concat_app. by rewrite <- Hvalues. }
  split; [|split; [|split]]; simpl.
  - unfold dict_keys at 3. rewrite map_app. by rewrite Hkeys.
  - by apply Forall_app.
  - rewrite Hnames'. apply NoDup_app. split; [done|]. split; [|done].
    intros name (n' & c' & Hn' & Hc2)%Hmem [c Hc1]%Hcgroup.
    assert (n' = n) as -> by by eapply (groups_disjoint scores cif_files).
    done.
  - intros name. rewrite Hnames', elem_of_app, Hmem, Hcgroup. split.
    + intros [(n' & c & Hn' & Hc')|[c Hc']].
      * exists n', c. split; [|done]. apply elem_of_app. by left.
      * exists n, c. split; [|done]. apply elem_of_app. right. left.
    + intros (n' & c & [Hn'| ->%list_elem_of_singleton]%elem_of_app & Hc').
      * left. by exists n', c.
      * right. by exists c.
Qed.

(** X19. The clusters of a run partition the structures that were loaded: with
    file names that are all different, the members of the entries of
    [clusters.json], taken together, are the names of [structure_info], each
    once, and the member counts add up to their number. *)
Theorem main_partitions score_file cif_files scores r :
  enumerates set_iter ->
  NoDup (map file_name cif_files) ->
  parse_score_file score_file = Ok scores ->
  main score_file cif_files = Ok r ->
  let loaded_names := dict_keys (structure_info (load_files scores cif_files)) in
  clustered_names (clusters_json r) ≡ₚ loaded_names /\
  NoDup (clustered_names (clusters_json r)) /\
  sum_list (map n_members (dict_values (clusters_json r))) = length loaded_names.
Proof.
  intros Hiter Hnames Hparse
    (scores' & lengths & ac & ar & txt & Hparse' & Hsort & Hloop & _ & ->)%main_Ok.
  rewrite Hparse in Hparse'. injection Hparse' as <-. simpl.
  set (st := load_files scores cif_files) in *.
  apply sorted_by_Ok in Hsort as [Hperm _].
  assert (NoDup lengths) as Hnd.
  { rewrite Hperm. apply load_files_NoDup. }
  assert (stored st lengths (ac, ar)) as (_ & Hhd & Hndm & Hmem).
  { revert Hloop.
    apply (for_each_prefix lengths (stored st)) with (pre := []); [|done|].
    - intros pre n post acc acc' Hwhole Hacc Hgroup.
      eapply cluster_group_stored; [done|done| |done|done].
      by rewrite <- Hwhole.
    - split; [done|]. split; [constructor|]. split; [constructor|].
      intros name. split; [by intros ?%elem_of_nil|].
      by intros (? & ? & ?%elem_of_nil & _). }
  simpl in *.
  assert (clustered_names ac ≡ₚ dict_keys (structure_info st)) as Hp.
  { apply NoDup_Permutation; [done|apply load_files_NoDup|].
    intros name. rewrite Hmem. unfold st.
    rewrite (loaded_names scores cif_files name Hnames). split.
    - intros (n & c & _ & Hc). by exists n, c.
    - intros (n & c & Hc). exists n, c. split; [|done].
      rewrite Hperm. destruct Hc as (group & Hg & _).
      by eapply dict_find_Some_keys. }
  split; [done|]. split; [done|].
  rewrite <- Hp. unfold clustered_names. apply sum_n_members.
  unfold dict_values. apply Forall_fmap. eapply Forall_impl; [done|].
  by intros kv [_ ?].
Qed.
End MainPartition.

Section MainRaises.
Variable float_of_string : string -> option float.
Variable svd : nat -> nat -> list (list float) ->
               option (list (list float) * list float * list (list float)).
Variable det : list (list float) -> float.
Variable set_iter : gset string -> list string.

Local Abbreviation main := (main float_of_string svd det set_iter).
Local Abbreviation parse_score_file := (parse_score_file float_of_string).
Local Abbreviation kabsch := (kabsch_algorithm svd det).
Local Abbreviation cluster_group := (cluster_group svd det set_iter).

Lemma cluster_group_Raise scores cif_files acc n e :
  enumerates set_iter ->
  let st := load_files scores cif_files in
  n ∈ dict_keys (coords_by_length st) ->
  cluster_group scores (coords_by_length st) acc n = Raise e ->
  exists a b ca cb,
    grouped st n a ca /\ grouped st n b cb /\ kabsch ca cb = Raise e.
Proof.
  intros Hiter st [group Hg]%dict_find_keys.
  unfold cluster_group, sort_and_cluster.
  rewrite Hg. cbn [bind].
  assert (forall name, name ∈ dict_keys group ->
                       is_Ok (dict_get scores (base_name name))) as Hscored.
  { intros name [c Hc]%(grouped_keys st n group name Hg).
    apply grouped_from_file in Hc as [[score Hs]%dict_mem_find _].
    exists score. by apply dict_get_Ok. }
  destruct (sorted_by_returns PrimFloat.ltb (get_score scores) (dict_keys group))
    as [order Hs]; [done|].
  rewrite Hs. cbn [bind].
  apply sorted_by_Ok in Hs as [Hperm _].
  destruct (cluster_structures _ _ _ _ _) as [clusters|e'] eqn:Hc; cbn [bind].
  - intros (pre & [rep ms] & post & [ac ar] & Hwhole & _ & Hbody)%for_each_Raise.
    exfalso.
    pose proof (cluster_structures_Ok _ _ _ _ _ _ Hiter Hc) as (_ & Hmem & Hhd).
    destruct (Hscored rep) as [score Hscore]; [|by rewrite Hscore in Hbody].
    rewrite <- Hperm. apply Hmem. apply keys_in_members; [done|].
    rewrite Hwhole. unfold dict_keys. rewrite map_app. apply elem_of_app.
    right. left.
  - intros [= ->]. unfold cluster_structures in Hc.
    apply cluster_loop_Raise in Hc as (a & b & ca & cb & Ha & Hb & Hk);
      [|done| |done|done].
    + exists a, b, ca, cb. split; [by exists group|]. split; [by exists group|done].
    + intros name. by rewrite Hperm.
Qed.

(** X20. A run fails in two ways only: on a score that is no number, with the
    [ValueError] of the table, or on an alignment of two structures of one
    length group, with what the alignment raises. No lookup of the run raises.
    *)
Theorem main_raises_only score_file cif_files e :
  enumerates set_iter ->
  main score_file cif_files = Raise e ->
  (parse_score_file score_file = Raise e /\ e = ValueError) \/
  exists scores n a b ca cb,
    parse_score_file score_file = Ok scores /\
    grouped (load_files scores cif_files) n a ca /\
    grouped (load_files scores cif_files) n b cb /\
    kabsch ca cb = Raise e.
Proof.
  intros Hiter. unfold main.
  destruct (parse_score_file score_file) as [scores|e'] eqn:Hparse; cbn [bind].
  2:{ intros [= ->]. left. split; [done|].
      by eapply score_lines_ValueError. }
  destruct (sorted_lengths
              (dict_keys (coords_by_length (load_files scores cif_files))))
    as (lengths & -> & Hperm).
  cbn [bind].
  destruct (for_each _ lengths _) as [[ac ar]|e'] eqn:Hloop; cbn [bind].
  - destruct (write_representatives_returns ac ar) as [txt ->]; [|done].
    eapply (for_each_invariant listed _ lengths ([], []) (ac, ar));
      [| |exact Hloop].
    + intros acc n acc'. apply cluster_group_listed.
    + by intros rep ?%elem_of_nil.
  - intros [= ->]. right.
    apply for_each_Raise in Hloop as (pre & n & post & acc & Hwhole & _ & Hbody).
    apply cluster_group_Raise in Hbody as (a & b & ca & cb & Ha & Hb & Hk);
      [|done|].
    + by exists scores, n, a, b, ca, cb.
    + rewrite <- Hperm, Hwhole. apply elem_of_app. right. left.
Qed.
End MainRaises.

Section MainEdges.
Variable float_of_string : string -> option float.
Variable svd : nat -> nat -> list (list float) ->
               option (list (list float) * list float * list (list float)).
Variable det : list (list float) -> float.
Variable set_iter : gset string -> list string.

Local Abbreviation main := (main float_of_string svd det set_iter).
Local Abbreviation parse_score_file := (parse_score_file float_of_string).

(** X21. A structure file whose base name the table does not score changes
    nothing of the run. *)
Theorem unscored_file_ignored (score_file : list string)
    (before after : list cif_file) (f : cif_file) :
  (forall scores, parse_score_file score_file = Ok scores ->
                  dict_mem scores (base_name (file_name f)) = false) ->
  main score_file (before ++ f :: after) = main score_file (before ++ after).
Proof.
  intros Hf. unfold main.
  destruct (parse_score_file score_file) as [scores|] eqn:Hparse; [|done].
  cbn [bind]. by rewrite load_files_unscored by by apply Hf.
Qed.

(** X22. When no structure file has a scored base name, and so when there is
    no file at all, the run clusters nothing and still writes its output: an
    empty [clusters.json] and the two heading lines of the summary. *)
Theorem nothing_to_cluster (score_file : list string) (cif_files : list cif_file)
    (scores : dict string float) :
  parse_score_file score_file = Ok scores ->
  (forall f, f ∈ cif_files ->
             dict_mem scores (base_name (file_name f)) = false) ->
  main score_file cif_files
  = Ok {| clusters_json := [];
          representatives_txt := [title_line; header_line];
          run_warnings := [] |}.
Proof.
  intros Hparse Hnone. unfold main.
  rewrite Hparse. cbn [bind]. by rewrite load_files_none.
Qed.
End MainEdges.

(** ** The pocket file *)

Lemma sorted_ints_perm l : sorted_ints l ≡ₚ l.
Proof.
  unfold sorted_ints. rewrite sort_keyed_perm, map_map. simpl. by rewrite map_id.
Qed.

Lemma sorted_ints_sorted l : StronglySorted Z.le (sorted_ints l).
Proof.
  unfold sorted_ints.
  assert (StronglySorted (fun kx ky : Z * Z => (kx.1 <= ky.1)%Z)
            (sort_keyed Z.ltb (map (fun z => (z, z)) l))) as Hsorted.
  { apply (sort_keyed_sorted (A:=Z) Z.ltb Z.le (fun _ => True)).
    - intros a b c. apply Z.le_trans.
    - intros a b Hab. apply Z.ltb_lt in Hab. lia.
    - intros a b _ _ Hba. apply Z.ltb_ge in Hba. lia.
    - by apply Forall_forall. }
  assert (Forall (fun kz : Z * Z => kz.1 = kz.2)
            (sort_keyed Z.ltb (map (fun z => (z, z)) l))) as Hdiag.
  { rewrite sort_keyed_perm. apply Forall_forall.
    by intros kz (z & -> & _)%list_elem_of_fmap. }
  induction Hsorted as [|kz kl _ IH Hall]; simpl; [constructor|].
  apply Forall_cons in Hdiag as [Hkz Hkl].
  constructor; [by apply IH|].
  rewrite Forall_forall in Hall, Hkl. apply Forall_forall.
  intros z (kz' & -> & Hin)%list_elem_of_fmap.
  rewrite <- Hkz, <- (Hkl kz' Hin). by apply Hall.
Qed.

Lemma sorted_ints_ascending l :
  NoDup l -> StronglySorted Z.lt (sorted_ints l).
Proof.
  intros Hnd. rewrite <- sorted_ints_perm in Hnd.
  pose proof (sorted_ints_sorted l) as Hs.
  induction Hs as [|z zs _ IH Hall]; [constructor|].
  apply NoDup_cons in Hnd as [Hz Hnd].
  constructor; [by apply IH|].
  rewrite Forall_forall in Hall. apply Forall_forall. intros z' Hz'.
  specialize (Hall z' Hz'). assert (z ≠ z') by (by intros ->). lia.
Qed.

Lemma ascending_unique (l1 l2 : list Z) :
  StronglySorted Z.lt l1 -> StronglySorted Z.lt l2 ->
  (forall z, z ∈ l1 <-> z ∈ l2) -> l1 = l2.
Proof.
  intros H1. revert l2. induction H1 as [|a l1 _ IH Ha]; intros l2 H2 Hsame.
  - destruct l2 as [|b l2]; [done|]. exfalso.
    assert (b ∈ @nil Z) as Hb by (apply Hsame; left). by apply elem_of_nil in Hb.
  - destruct H2 as [|b l2 H2 Hb].
    { exfalso. assert (a ∈ @nil Z) as Ha' by (apply Hsame; left).
      by apply elem_of_nil in Ha'. }
    rewrite Forall_forall in Ha, Hb.
    assert (a = b) as <-.
    { assert (a ∈ b :: l2) as [->|Hab]%elem_of_cons by (apply Hsame; left);
        [done|].
      assert (b ∈ a :: l1) as [->|Hba]%elem_of_cons by (apply Hsame; left);
        [done|].
      specialize (Ha b Hba). specialize (Hb a Hab). lia. }
    f_equal. apply IH; [done|]. intros z. split; intros Hz.
    + assert (z ∈ a :: l2) as [->|?]%elem_of_cons by (apply Hsame; by right);
        [|done].
      specialize (Ha a Hz). lia.
    + assert (z ∈ a :: l1) as [->|?]%elem_of_cons by (apply Hsame; by right);
        [|done].
      specialize (Hb a Hz). lia.
Qed.

(** Sorting the distinct integers of a set gives the same list in whatever
    order the set is enumerated. *)
Lemma sorted_ints_enumeration (s : gset Z) (l : list Z) :
  l ≡ₚ elements s -> sorted_ints l = sorted_ints (elements s).
Proof.
  intros Hperm. apply ascending_unique.
  - apply sorted_ints_ascending. rewrite Hperm. apply NoDup_elements.
  - apply sorted_ints_ascending, NoDup_elements.
  - intros z. by rewrite !sorted_ints_perm, Hperm.
Qed.

Section PocketFacts.
Import parse_pocket_for_boltzgen.
Variable int_of_string : string -> option Z.
Local Abbreviation pocket_line := (pocket_line int_of_string).
Local Abbreviation parse_pocket_residues := (parse_pocket_residues int_of_string).
Local Abbreviation gives_residue := (gives_residue int_of_string).

Lemma pocket_line_elem_of residues line z :
  z ∈ pocket_line residues line <-> z ∈ residues \/ gives_residue line z.
Proof.
  unfold pocket_line, gives_residue.
  destruct (str.startswith "ATOM" line || str.startswith "HETATM" line) eqn:Hstart.
  2:{ apply orb_false_iff in Hstart as [-> ->]. naive_solver. }
  apply orb_true_iff in Hstart.
  destruct (15 <=? _) eqn:Hlen.
  2:{ apply Nat.leb_gt in Hlen. split; [auto|]. intros [?|(_ & ? & _)]; [done|lia]. }
  apply Nat.leb_le in Hlen.
  destruct (int_of_string _) as [res_num|] eqn:Hint.
  - rewrite elem_of_union, elem_of_singleton. split.
    + intros [?| ->]; [by left | by right].
    + intros [?|(_ & _ & [= ->])]; [by left | by right].
  - split; [auto|]. by intros [?|(_ & _ & ?)].
Qed.

Lemma pocket_lines_elem_of lines residues z :
  z ∈ fold_left pocket_line lines residues <->
  z ∈ residues \/ exists line, line ∈ lines /\ gives_residue line z.
Proof.
  revert residues. induction lines as [|line lines IH]; intros residues; simpl.
  - split; [auto|]. by intros [?|(? & ?%elem_of_nil & _)].
  - rewrite IH, pocket_line_elem_of. split.
    + intros [[?|?]|(l & ? & ?)]; [by left| |].
      * right. exists line. split; [left|done].
      * right. exists l. split; [by right|done].
    + intros [?|(l & [->|?]%elem_of_cons & ?)]; [left; by left| |].
      * left. by right.
      * right. by exists l.
Qed.

Lemma pocket_residues_elem_of lines z :
  z ∈ parse_pocket_residues lines <->
  exists line, line ∈ lines /\ gives_residue line z.
Proof.
  unfold parse_pocket_residues.
  rewrite sorted_ints_perm, elem_of_elements, pocket_lines_elem_of.
  split; [|auto]. by intros [?%not_elem_of_empty|?].
Qed.

(** X23. The residues of a pocket file come out in strictly ascending order,
    each once, and they are exactly the numbers that its lines give. *)
Theorem pocket_residues_sorted (lines : list string) :
  StronglySorted Z.lt (parse_pocket_residues lines) /\
  forall z, z ∈ parse_pocket_residues lines <->
            exists line, line ∈ lines /\ gives_residue line z.
Proof.
  split; [|apply pocket_residues_elem_of].
  unfold parse_pocket_residues. apply sorted_ints_ascending, NoDup_elements.
Qed.

(** X24. Two pocket files with the same lines, in any order and with any
    repetition, give the same residues. *)
Theorem pocket_residues_of_lines (lines1 lines2 : list string) :
  (forall line, line ∈ lines1 <-> line ∈ lines2) ->
  parse_pocket_residues lines1 = parse_pocket_residues lines2.
Proof.
  intros Hsame. apply ascending_unique.
  - apply sorted_ints_ascending, NoDup_elements.
  - apply sorted_ints_ascending, NoDup_elements.
  - intros z. rewrite !pocket_residues_elem_of. by setoid_rewrite Hsame.
Qed.
End PocketFacts.

Section PocketWriter.
Import parse_pocket_for_boltzgen.

(** X25. The binding string that [create_boltzgen_yaml] returns lists the
    residue numbers: split at its commas it gives, for a list that is not
    empty, the decimal numerals of the residues in their order. The call
    raises only without an output file. *)
Theorem binding_residues_listed (structure_file peptide_sequence chain_id : string)
    (pocket_residues : list Z) (output_file : option string) :
  (output_file = None ->
   create_boltzgen_yaml structure_file pocket_residues peptide_sequence chain_id
     output_file = Raise TypeError) /\
  (forall path, output_file = Some path ->
     exists text binding,
       create_boltzgen_yaml structure_file pocket_residues peptide_sequence
         chain_id output_file
       = Ok ({| yaml_path := path; yaml_text := text |}, binding) /\
       (pocket_residues ≠ [] ->
        str.split_on "," binding = map str.of_Z pocket_residues) /\
       (pocket_residues = [] -> binding = "")).
Proof.
  split; [by intros ->|]. intros path ->. unfold create_boltzgen_yaml.
  eexists _, _. split; [done|]. split.
  - intros Hne. apply (split_on_join ","%char).
    + by destruct pocket_residues.
    + apply Forall_forall. intros s (z & -> & _)%list_elem_of_fmap.
      apply of_Z_free_of_comma.
  - by intros ->.
Qed.

(** X26. [Path(path).name] is a bare file name: it holds no slash and is not a
    dot; and of a path that ends in a slash and a name, it is that name. *)
Theorem path_name_bare (path : string) :
  free_of "/"%char (path_name path) /\
  path_name path ≠ "." /\
  forall dir name,
    path = (dir ++ "/" ++ name)%string ->
    free_of "/"%char name -> name ≠ "" -> name ≠ "." ->
    path_name path = name.
Proof.
  unfold path_name, str.split_on.
  set (parts := filter (fun part : string => part ≠ "" /\ part ≠ ".") _).
  assert (forall part, part ∈ parts -> free_of "/"%char part /\ part ≠ ".")
    as Hparts.
  { intros part [[_ Hdot] (piece & -> & Hin)%list_elem_of_fmap]%list_elem_of_filter.
    split; [|done]. unfold free_of.
    rewrite list_ascii_of_string_of_list_ascii. by eapply split_chars_free. }
  assert (List.last parts "" = "" \/ List.last parts "" ∈ parts) as Hlast.
  { destruct parts as [|p ps] using rev_ind; [by left | right].
    rewrite last_last. apply elem_of_app. right. left. }
  split; [|split].
  - destruct Hlast as [->|Hin]; [by intros ?%elem_of_nil | by apply Hparts].
  - destruct Hlast as [->|Hin]; [done | by apply Hparts].
  - intros dir name -> Hfree Hne Hdot. unfold parts.
    rewrite !list_ascii_of_string_app. simpl.
    destruct (split_chars_app "/"%char (list_ascii_of_string dir)
                (list_ascii_of_string name)) as (pieces & -> & _).
    rewrite split_chars_whole by done.
    rewrite map_app, filter_app. simpl.
    rewrite string_of_list_ascii_of_string.
    rewrite filter_cons_True by done. rewrite filter_nil. apply last_last.
Qed.

End PocketWriter.

Section PocketMain.
Import parse_pocket_for_boltzgen.
Variable int_of_string : string -> option Z.
Variable path_exists : string -> bool.
Variable lines_of : string -> list string.
Local Abbreviation main := (main int_of_string path_exists lines_of).
Local Abbreviation parse_pocket_residues := (parse_pocket_residues int_of_string).
Local Abbreviation gives_residue := (gives_residue int_of_string).

(** X27. The run of [main] on its arguments ends in one of two ways. With both
    files present and a line of the pocket file that gives a residue, it
    writes the YAML file that [create_boltzgen_yaml] makes of the residues,
    under the output name, and returns 0. Otherwise it writes nothing and
    returns 1. *)
Theorem pocket_main_outcome (args : arguments) :
  let found :=
    path_exists (structure args) = true /\
    path_exists (pocket args) = true /\
    exists line z, line ∈ lines_of (pocket args) /\ gives_residue line z in
  (found /\
   exists text binding,
     create_boltzgen_yaml (structure args)
       (parse_pocket_residues (lines_of (pocket args)))
       (sequence args) (chain args) (Some (output args))
     = Ok ({| yaml_path := output args; yaml_text := text |}, binding) /\
     main args
     = Ok (0%Z, Some {| yaml_path := output args; yaml_text := text |})) \/
  (~ found /\ main args = Ok (1%Z, None)).
Proof.
  intros found. unfold found, main, parse_pocket_for_boltzgen.main.
  destruct (path_exists (structure args)); simpl; [|right; naive_solver].
  destruct (path_exists (pocket args)); simpl; [|right; naive_solver].
  pose proof (pocket_residues_elem_of int_of_string (lines_of (pocket args)))
    as Hmem.
  destruct (parse_pocket_residues (lines_of (pocket args))) as [|z zs] eqn:Hres.
  - right. split; [|done]. intros (_ & _ & line & z & Hin & Hz).
    assert (z ∈ @nil Z) as Hnil by (apply Hmem; by exists line).
    by apply elem_of_nil in Hnil.
  - left. split.
    + split; [done|]. split; [done|].
      destruct (Hmem z) as [(line & ? & ?) _]; [left|]. by exists line, z.
    + by eexists _, _.
Qed.
End PocketMain.

(** * The properties on the worked inputs *)

Lemma forwards_enumerates : enumerates Example.forwards.
Proof. by intros s. Qed.

Lemma backwards_enumerates : enumerates Example.backwards.
Proof. intros s. unfold Example.backwards. by rewrite reverse_Permutation. Qed.

Lemma six_ranked : ranked Example.six Example.six_order.
Proof. intros name. unfold Example.six_order, Example.six, dict_keys. set_solver. Qed.

Lemma six_comparable : comparable Example.kabsch Example.six.
Proof.
  intros ca cb Ha Hb. unfold dict_values, Example.six in Ha, Hb. simpl in Ha, Hb.
  repeat (apply elem_of_cons in Ha as [->|Ha]);
    try (by apply elem_of_nil in Ha);
    repeat (apply elem_of_cons in Hb as [->|Hb]);
    try (by apply elem_of_nil in Hb);
    eexists; vm_compute; reflexivity.
Qed.

Lemma six_sorted :
  Sorted (fun a b => Float.le (Example.six_score a) (Example.six_score b))
    Example.six_order.
Proof. unfold Example.six_order. repeat constructor. Qed.

(** Witness of C1: the six two-residue structures at cutoff 1.5. *)
Lemma cluster_structures_partition_six :
  exists clusters,
    cluster_structures Example.kabsch Example.forwards Example.six
      Example.six_order 1.5%float = Ok clusters /\
    NoDup (concat (dict_values clusters)) /\
    (forall name,
        name ∈ concat (dict_values clusters) <-> name ∈ dict_keys Example.six) /\
    length clusters <= size (list_to_set (dict_keys Example.six) : gset string) /\
    Forall (fun '(rep, members) => head members = Some rep) clusters.
Proof.
  apply (cluster_structures_partition Example.kabsch Example.six Example.six_order
           Example.forwards 1.5%float).
  - exact forwards_enumerates.
  - exact six_ranked.
  - exact six_comparable.
Defined.

(** Witness of C6. *)
Lemma cluster_structures_representative_six :
  (forall clusters,
      cluster_structures Example.kabsch Example.forwards Example.six
        Example.six_order 1.5%float = Ok clusters ->
      forall rep members, (rep, members) ∈ clusters ->
        rep ∈ members /\
        forall m, m ∈ members ->
          PrimFloat.ltb (Example.six_score m) (Example.six_score rep) = false) /\
  (ranked Example.six Example.six_order ->
   comparable Example.kabsch Example.six ->
   is_Ok (cluster_structures Example.kabsch Example.forwards Example.six
            Example.six_order 1.5%float)).
Proof.
  apply (cluster_structures_representative Example.kabsch Example.six
           Example.six_order Example.forwards 1.5%float Example.six_score).
  - exact forwards_enumerates.
  - exact six_sorted.
Defined.

(** Witness of C2 as amended: cutoffs 1.0 and 1.5. *)
Lemma first_cluster_monotone_six :
  exists clusters_lo clusters_hi,
    cluster_structures Example.kabsch Example.forwards Example.six
      Example.six_order 1%float = Ok clusters_lo /\
    cluster_structures Example.kabsch Example.backwards Example.six
      Example.six_order 1.5%float = Ok clusters_hi /\
    forall rep members_lo,
      head clusters_lo = Some (rep, members_lo) ->
      exists members_hi,
        head clusters_hi = Some (rep, members_hi) /\
        (forall name, name ∈ members_lo -> name ∈ members_hi) /\
        length members_lo <= length members_hi.
Proof.
  apply (first_cluster_monotone Example.kabsch Example.six Example.six_order
           Example.forwards Example.backwards 1%float 1.5%float).
  - exact forwards_enumerates.
  - exact backwards_enumerates.
  - exact six_ranked.
  - exact six_comparable.
  - reflexivity.
Defined.

(** Counterexample to C2: from cutoff 1.5 down to 1.0 the six structures
    go from four clusters to three, and the cluster of [c] from one member
    to two. *)
Lemma lower_cutoff_fewer_clusters :
  cluster_structures Example.kabsch Example.forwards Example.six
    Example.six_order 1.5%float
  = Ok [("a", ["a"; "f"; "b"]); ("c", ["c"]); ("d", ["d"]); ("e", ["e"])] /\
  cluster_structures Example.kabsch Example.forwards Example.six
    Example.six_order 1%float
  = Ok [("a", ["a"]); ("c", ["c"; "b"]); ("f", ["f"; "e"; "d"])] /\
  ~ threshold_monotone
      (cluster_structures Example.kabsch Example.forwards Example.six
         Example.six_order).
Proof.
  assert (cluster_structures Example.kabsch Example.forwards Example.six
            Example.six_order 1.5%float
          = Ok [("a", ["a"; "f"; "b"]); ("c", ["c"]); ("d", ["d"]); ("e", ["e"])])
    as Hhi by (vm_compute; reflexivity).
  assert (cluster_structures Example.kabsch Example.forwards Example.six
            Example.six_order 1%float
          = Ok [("a", ["a"]); ("c", ["c"; "b"]); ("f", ["f"; "e"; "d"])])
    as Hlo by (vm_compute; reflexivity).
  split; [done|]. split; [done|].
  intros Hmono.
  destruct (Hmono 1%float 1.5%float _ _ eq_refl Hlo Hhi) as [Hcount _].
  simpl in Hcount. lia.
Qed.

(** Witness of C7: the scenario with the RMSD between B and C at 1.75. *)
Lemma three_structures_scenario_table :
  sort_and_cluster Example.three_kabsch (dict_get three_scores) 1.5%float
    Example.forwards (three "A" "B" "C")
  = Ok [("C", ["C"]); ("A", ["A"; "B"])]
  /\
  (forall (coords_dict : dict string string) cutoff center cc todo ms,
      absorb Example.three_kabsch coords_dict cutoff center cc todo [center]
        = Ok ms ->
      forall s,
        s ∈ ms <->
        s = center \/
        (s ∈ todo /\
         exists c R t rmsd,
           dict_get coords_dict s = Ok c /\
           Example.three_kabsch c cc = Ok (R, t, rmsd) /\
           PrimFloat.ltb rmsd cutoff = true)).
Proof.
  apply (three_structures_scenario Example.three_kabsch Example.forwards
           "A" "B" "C" 1.75%float).
  - exact forwards_enumerates.
  - split; eexists _, _; reflexivity.
  - split; eexists _, _; reflexivity.
  - split; eexists _, _; reflexivity.
  - reflexivity.
Defined.

Lemma six_no_nan :
  no_nan_score (dict_get Example.six_scores) (dict_keys Example.six).
Proof.
  intros name sc Hin. unfold Example.six, dict_keys in Hin. simpl in Hin.
  repeat (apply elem_of_cons in Hin as [->|Hin]);
    try (by apply elem_of_nil in Hin);
    vm_compute; by intros [= <-].
Qed.

Lemma six_no_ties :
  no_tied_scores (dict_get Example.six_scores) (dict_keys Example.six).
Proof.
  intros a b sa sb Ha Hb. unfold Example.six, dict_keys in Ha, Hb.
  simpl in Ha, Hb.
  repeat (apply elem_of_cons in Ha as [->|Ha]);
    try (by apply elem_of_nil in Ha);
    repeat (apply elem_of_cons in Hb as [->|Hb]);
    try (by apply elem_of_nil in Hb);
    try done;
    vm_compute; intros [= <-] [= <-]; discriminate.
Qed.

Lemma six_reversed name :
  dict_find Example.six name = dict_find (reverse Example.six) name.
Proof.
  cbv [Example.six reverse rev_append dict_find].
  repeat (case_decide; simplify_eq/=; try done).
Qed.



(** Witness of C3 as amended: eight points against nine. *)
Lemma kabsch_unequal_lengths_8_9 :
  (forall c,
      kabsch_algorithm Example.svd_of_diagonal Example.det_3x3
        (Mat c (Example.points_of (Example.cross 10 10)))
        (Mat c (Example.points_of (Example.cross 12.5 10) ++ [[1; 2; 3]%float]))
      = Raise ValueError) /\
  kabsch_algorithm Example.svd_of_diagonal Example.det_3x3
    (np.array (Example.points_of (Example.cross 10 10)))
    (np.array (Example.points_of (Example.cross 12.5 10) ++ [[1; 2; 3]%float]))
  = Raise ValueError.
Proof.
  destruct (kabsch_unequal_lengths Example.svd_of_diagonal Example.det_3x3
              (Example.points_of (Example.cross 10 10))
              (Example.points_of (Example.cross 12.5 10) ++ [[1; 2; 3]%float]))
    as [Hmat Harray]; [simpl; lia|].
  split; [exact Hmat|].
  apply Harray; repeat constructor.
Defined.

(** Counterexample to C3: two arrays of no points and three columns are
    not rejected; the alignment returns a rotation, a translation of NaNs
    and a NaN for the RMSD. *)
Lemma kabsch_accepts_no_points :
  exists R,
    kabsch_algorithm Example.svd_of_diagonal Example.det_3x3 (Mat 3 []) (Mat 3 [])
    = Ok (R, Vec [nan; nan; nan], nan).
Proof. eexists. vm_compute. reflexivity. Qed.

(** C4. The stratification files a structure under the quotient by four of
    its number of backbone atoms found, so two structures of the same length
    group can differ in point count: here eight points and nine, both under
    two residues. The run then ends in the [ValueError] of their alignment,
    whatever the decomposition and the determinant return. *)
Theorem same_group_unequal_lengths :
  parse_score_file Example.float_of_decimal Example.six_score_file
    = Ok Example.six_file_scores /\
  (exists c1 c2,
      dict_find
        (coords_by_length
           (load_files Example.six_file_scores
              [Example.complete_file; Example.clipped_file])) 2
      = Some [("alpha_0.01_a_chainA.cif", c1); ("alpha_0.01_b_chainA.cif", c2)] /\
      np.len c1 = Ok 8 /\ np.len c2 = Ok 9) /\
  (forall svd det,
      main Example.float_of_decimal svd det Example.forwards
        Example.six_score_file [Example.complete_file; Example.clipped_file]
      = Raise ValueError).
Proof.
  split; [by vm_compute|]. split; [|intros svd det; by vm_compute].
  eexists _, _. split; [by vm_compute|]. by split.
Qed.

(** C5. A structure with a missing backbone atom is not skipped: reading
    the file whose third residue has only its N raises nothing and gives
    nine points under two residues, and the run on this file alone ends
    with the structure clustered and without a warning, whatever the
    decomposition and the determinant return. *)
Theorem missing_atom_structure_loaded :
  Exists (fun residue => gemmi.find_atom residue "CA" zero = None)
    (residues_of Example.clipped_file) /\
  (exists coords,
      extract_backbone_coords Example.clipped_file = Ok (coords, 2) /\
      np.len coords = Ok 9) /\
  (forall svd det,
      (r <- main Example.float_of_decimal svd det Example.forwards
              Example.six_score_file [Example.clipped_file] ;;
       Ok (run_warnings r,
           map (fun entry => (entry.1, members entry.2, n_residues entry.2))
             (clusters_json r)))
      = Ok ([], [("alpha_0.01_b_chainA.cif", ["alpha_0.01_b_chainA.cif"], 2)])).
Proof.
  split; [|split].
  - vm_compute. do 2 apply Exists_cons_tl. apply Exists_cons_hd. reflexivity.
  - eexists. split; by vm_compute.
  - intros svd det. by vm_compute.
Qed.

(** Witness of X28: a file that cannot be read between two files that
    can. *)
Lemma unreadable_structure_skipped_broken :
  (coords_by_length
     (load_files Example.six_file_scores
        ([Example.complete_file] ++ Example.broken_file
           :: [Example.cif "d" (Example.cross 10 10)])) =
   coords_by_length
     (load_files Example.six_file_scores
        ([Example.complete_file] ++ [Example.cif "d" (Example.cross 10 10)])) /\
   structure_info
     (load_files Example.six_file_scores
        ([Example.complete_file] ++ Example.broken_file
           :: [Example.cif "d" (Example.cross 10 10)])) =
   structure_info
     (load_files Example.six_file_scores
        ([Example.complete_file] ++ [Example.cif "d" (Example.cross 10 10)])) /\
   (file_name Example.broken_file, ReadError)
   ∈ warnings
       (load_files Example.six_file_scores
          ([Example.complete_file] ++ Example.broken_file
             :: [Example.cif "d" (Example.cross 10 10)]))) /\
  (forall (g : cif_file) model rest (st : loaded),
      dict_mem Example.six_file_scores (base_name (file_name g)) = true ->
      read_structure g = Ok (model :: rest) ->
      warnings (load_file Example.six_file_scores st g) = warnings st /\
      is_Some (dict_find (structure_info (load_file Example.six_file_scores st g))
                 (file_name g))).
Proof.
  apply (unreadable_structure_skipped Example.six_file_scores
           [Example.complete_file] [Example.cif "d" (Example.cross 10 10)]
           Example.broken_file ReadError).
  - reflexivity.
  - left. reflexivity.
Defined.

(** A file that holds no model is skipped as well, with the [IndexError]
    of [structure[0]]. *)
Lemma empty_structure_skipped :
  extract_backbone_coords Example.empty_file = Raise IndexError /\
  load_files Example.six_file_scores [Example.empty_file]
  = {| coords_by_length := []; structure_info := [];
       warnings := [("alpha_0.01_d_chainA.cif", IndexError)] |}.
Proof. split; by vm_compute. Qed.



(** Witness of C10 as amended: a line of two fields between two data
    lines, and a line of four fields in its place. *)
Lemma short_line_ignored_comment :
  (score_line Example.float_of_decimal [] "# checked" = Ok [] /\
   parse_score_file Example.float_of_decimal
     ("rank structure score" :: ["1 a_chainA.cif -6.5"] ++ "# checked"
        :: ["2 c_chainA.cif -6.25"]) =
   parse_score_file Example.float_of_decimal
     ("rank structure score" :: ["1 a_chainA.cif -6.5"] ++ ["2 c_chainA.cif -6.25"])) /\
  (score_line Example.float_of_decimal [] "# sorted by score" = Raise ValueError /\
   parse_score_file Example.float_of_decimal
     ("rank structure score" :: ["1 a_chainA.cif -6.5"] ++ "# sorted by score"
        :: ["2 c_chainA.cif -6.25"]) =
   Raise ValueError).
Proof.
  split.
  - apply (short_line_ignored Example.float_of_decimal). vm_compute. lia.
  - apply (short_line_ignored Example.float_of_decimal).
    + vm_compute. lia.
    + vm_compute. reflexivity.
Defined.

(** Counterexample to C10: a data line of four fields that is no entry of
    the table, a comment among the data lines, makes [parse_score_file]
    raise. *)
Lemma malformed_line_raises :
  str.split (str.strip "# sorted by score") = ["#"; "sorted"; "by"; "score"] /\
  parse_score_file Example.float_of_decimal Example.malformed_score_file
  = Raise ValueError.
Proof. split; by vm_compute. Qed.

(** * The further properties on the worked inputs *)

(** A proposition that can be decided is settled by computing. *)
Ltac by_computing := apply (bool_decide_unpack _); vm_compute; exact I.

(** The alignment of a name of a worked input onto given coordinates, and
    the side of the cutoff on which its RMSD falls. *)
Ltac aligned_by_computing :=
  eexists _, _, _, _;
  split; [vm_compute; reflexivity|];
  split; vm_compute; reflexivity.

Lemma six_clusters_forwards :
  cluster_structures Example.kabsch Example.forwards Example.six
    Example.six_order 1.5%float
  = Ok [("a", ["a"; "f"; "b"]); ("c", ["c"]); ("d", ["d"]); ("e", ["e"])].
Proof. vm_compute. reflexivity. Qed.

Lemma six_parsed :
  parse_score_file Example.float_of_decimal Example.six_score_file
  = Ok Example.six_file_scores.
Proof. vm_compute. reflexivity. Qed.

Lemma six_main :
  main Example.float_of_decimal Example.svd_of_diagonal Example.det_3x3
    Example.forwards Example.six_score_file Example.six_files
  = Ok Example.six_run.
Proof. vm_compute. reflexivity. Qed.

Lemma six_files_distinct : NoDup (map file_name Example.six_files).
Proof. by_computing. Qed.

(** What the sample lines of a pocket file give. *)
Lemma pocket_lines_residues :
  parse_pocket_for_boltzgen.parse_pocket_residues Example.int_of_decimal
    Example.pocket_lines = [7; 25]%Z.
Proof. vm_compute. reflexivity. Qed.

(** The YAML file written for two residues. *)
Lemma create_boltzgen_yaml_sample :
  parse_pocket_for_boltzgen.create_boltzgen_yaml "/data/4QKZ.cif" [7; 25]%Z
    "ACDEF" "A" (Some "out.yaml")
  = Ok ({| parse_pocket_for_boltzgen.yaml_path := "out.yaml";
           parse_pocket_for_boltzgen.yaml_text :=
             String.concat str.newline
               ["entities:";
                "  - protein:";
                "      id: B";
                "      sequence: ACDEF";
                "      cyclic: true";
                "  - file:";
                "      path: 4QKZ.cif";
                "      include:";
                "        - chain:";
                "            id: A";
                "";
                "binding_types:";
                "  - chain:";
                "      id: A";
                "      binding: 7,25";
                "";
                "structure_groups: " ++ str.quote ++ "all" ++ str.quote;
                ""]%string |},
        "7,25").
Proof. vm_compute. reflexivity. Qed.

(** Witness of X2: a file name of the pipeline, and a name with no
    underscore. *)
Lemma base_name_strips_prefix_alpha :
  base_name ("alpha" ++ "_" ++ "0.01" ++ "_" ++ "1a85_cyclic_044_chainA.cif")
  = "1a85_cyclic_044_chainA.cif" /\
  base_name "structure.cif" = "".
Proof.
  destruct (base_name_strips_prefix "alpha" "0.01" "1a85_cyclic_044_chainA.cif"
              "structure.cif") as [Hprefix Hbare].
  split.
  - apply Hprefix; by_computing.
  - apply Hbare. vm_compute. lia.
Defined.

(** Witness of X3: a table whose last line has the score [n/a]. *)
Lemma parse_score_file_raises_word :
  parse_score_file Example.float_of_decimal Example.unread_score_file
  = Raise ValueError.
Proof.
  destruct (parse_score_file_raises Example.float_of_decimal
              Example.unread_score_file) as [Hreturns Hraises].
  destruct (parse_score_file Example.float_of_decimal Example.unread_score_file)
    as [scores|e] eqn:Hrun.
  - exfalso.
    assert (is_Some (Example.float_of_decimal
                       (nth 2 (fields "2 b_chainA.cif n/a") ""))) as [x Hx].
    { apply Hreturns; [by eexists | by_computing | vm_compute; lia]. }
    vm_compute in Hx. discriminate Hx.
  - f_equal. by apply Hraises.
Defined.

(** Witness of X4: a table that scores [a_chainA.cif] twice. *)
Lemma last_line_wins_twice :
  dict_find [("a_chainA.cif", (-6.5)%float); ("b_chainA.cif", 1%float)]
    "a_chainA.cif" = Some (-6.5)%float.
Proof.
  apply (last_line_wins Example.float_of_decimal Example.twice_header
           [Example.twice_first] [Example.twice_other] Example.twice_second
           "a_chainA.cif" (-6.5)%float).
  - vm_compute. reflexivity.
  - split; [vm_compute; lia|]. split; vm_compute; reflexivity.
  - intros l Hl%list_elem_of_singleton _. subst l. vm_compute. discriminate.
Defined.

(** Witness of X5: the table of the six and the name [a_chainA.cif]. *)
Lemma score_table_names_six :
  ("a_chainA.cif" ∈ dict_keys Example.six_file_scores <->
   exists line score,
     line ∈ drop 1 Example.six_score_file /\
     names_score Example.float_of_decimal line "a_chainA.cif" score) /\
  ("a_chainA.cif" ∈ dict_keys Example.six_file_scores -> word "a_chainA.cif").
Proof.
  apply (score_table_names Example.float_of_decimal Example.six_score_file
           Example.six_file_scores "a_chainA.cif").
  exact six_parsed.
Defined.

(** Witness of X6: the RMSD 1.25 of two of the six. *)
Lemma kabsch_rmsd_not_negative_a_b :
  PrimFloat.ltb 1.25 0 = false /\
  (PrimFloat.ltb 0 (-1) = false -> PrimFloat.ltb 1.25 (-1) = false).
Proof.
  eapply (kabsch_rmsd_not_negative Example.svd_of_diagonal Example.det_3x3
            (Example.cross 10 10) (Example.cross 12.5 10) _ _
            1.25%float (-1)%float).
  vm_compute. reflexivity.
Defined.

(** Witness of X7: eight points against eight. *)
Lemma kabsch_equal_lengths_8_8 :
  exists H,
    covariance (Mat 3 (Example.points_of (Example.cross 10 10)))
      (Mat 3 (Example.points_of (Example.cross 12.5 10))) = Ok (Mat 3 H) /\
    length H = 3 /\
    match Example.svd_of_diagonal 3 3 H with
    | None =>
        kabsch_algorithm Example.svd_of_diagonal Example.det_3x3
          (Mat 3 (Example.points_of (Example.cross 10 10)))
          (Mat 3 (Example.points_of (Example.cross 12.5 10)))
        = Raise LinAlgError
    | Some (U, _, Vt) =>
        length U = 3 -> length Vt = 3 ->
        exists R t rmsd,
          kabsch_algorithm Example.svd_of_diagonal Example.det_3x3
            (Mat 3 (Example.points_of (Example.cross 10 10)))
            (Mat 3 (Example.points_of (Example.cross 12.5 10)))
          = Ok (Mat 3 R, Vec t, rmsd) /\
          length R = 3 /\ length t = 3
    end.
Proof.
  apply (kabsch_equal_lengths Example.svd_of_diagonal Example.det_3x3
           (Example.points_of (Example.cross 10 10))
           (Example.points_of (Example.cross 12.5 10))).
  reflexivity.
Defined.

(** Witness of X8: the cluster of [a]. *)
Lemma members_within_cutoff_six :
  exists rep_coords,
    dict_get Example.six "a" = Ok rep_coords /\
    forall m, m ∈ ["a"; "f"; "b"] ->
      m = "a" \/
      rmsd_below Example.kabsch Example.six 1.5%float true rep_coords m.
Proof.
  apply (members_within_cutoff Example.kabsch Example.six Example.six_order
           Example.forwards 1.5%float _ "a" ["a"; "f"; "b"]
           six_clusters_forwards).
  left.
Defined.

(** Witness of X9: the cluster of [c] against the one of [a]. *)
Lemma later_members_outside_six :
  exists rep_coords,
    dict_get Example.six "a" = Ok rep_coords /\
    forall m, m ∈ ["c"] ->
      rmsd_below Example.kabsch Example.six 1.5%float false rep_coords m.
Proof.
  apply (later_members_outside Example.kabsch Example.six Example.six_order
           Example.forwards 1.5%float _ 0 1 "a" ["a"; "f"; "b"] "c" ["c"]
           forwards_enumerates six_clusters_forwards eq_refl eq_refl).
  lia.
Defined.

(** Witness of X10. *)
Lemma representatives_in_order_six :
  dict_keys [("a", ["a"; "f"; "b"]); ("c", ["c"]); ("d", ["d"]); ("e", ["e"])]
    `sublist_of` Example.six_order.
Proof.
  apply (representatives_in_order Example.kabsch Example.six Example.six_order
           Example.forwards 1.5%float _ six_clusters_forwards).
Defined.

(** Witness of X11: a name [g] that has no coordinates, first in the
    order. *)
Lemma missing_coordinates_raise_g :
  (exists e,
      cluster_structures Example.kabsch Example.forwards Example.six ["g"; "a"]
        1.5%float = Raise e) /\
  (head ["g"; "a"] = Some "g" ->
   cluster_structures Example.kabsch Example.forwards Example.six ["g"; "a"]
     1.5%float = Raise (KeyError "g")).
Proof.
  apply (missing_coordinates_raise Example.kabsch Example.six ["g"; "a"]
           Example.forwards 1.5%float "g" forwards_enumerates).
  - left.
  - reflexivity.
Defined.

(** Witness of X12: [f] and [b] are both within 1.5 of [a]. *)
Lemma all_within_one_cluster_afb :
  exists members,
    cluster_structures Example.kabsch Example.forwards Example.six
      ["a"; "f"; "b"] 1.5%float = Ok [("a", members)] /\
    head members = Some "a" /\
    NoDup members /\
    forall s, s ∈ members <-> s ∈ ["a"; "f"; "b"].
Proof.
  apply (all_within_one_cluster Example.kabsch Example.six ["a"; "f"; "b"]
           Example.forwards 1.5%float "a" ["f"; "b"] (Example.cross 10 10)
           forwards_enumerates eq_refl eq_refl).
  intros s Hs _.
  repeat (apply elem_of_cons in Hs as [->|Hs]; [aligned_by_computing|]).
  by apply elem_of_nil in Hs.
Defined.

(** Witness of X13: [c], [d] and [e] are 1.5 or more from one another. *)
Lemma none_within_singletons_cde :
  cluster_structures Example.kabsch Example.forwards Example.six
    ["c"; "d"; "e"] 1.5%float
  = Ok (map (fun s => (s, [s])) ["c"; "d"; "e"]).
Proof.
  apply (none_within_singletons Example.kabsch Example.six ["c"; "d"; "e"]
           Example.forwards 1.5%float forwards_enumerates).
  - by_computing.
  - intros a Ha.
    repeat (apply elem_of_cons in Ha as [->|Ha];
            [eexists; split; [vm_compute; reflexivity|];
             intros b Hb Hne;
             repeat (apply elem_of_cons in Hb as [->|Hb];
                     [first [done | aligned_by_computing]|]);
             by apply elem_of_nil in Hb|]).
    by apply elem_of_nil in Ha.
Defined.

(** Witness of X14: the six at cutoff zero. *)
Lemma no_cutoff_no_members_six :
  cluster_structures (kabsch_algorithm Example.svd_of_diagonal Example.det_3x3)
    Example.forwards Example.six Example.six_order 0%float
  = Ok (map (fun s => (s, [s])) Example.six_order).
Proof.
  apply (no_cutoff_no_members Example.svd_of_diagonal Example.det_3x3
           Example.six Example.six_order Example.forwards 0%float
           forwards_enumerates).
  - by_computing.
  - exact six_ranked.
  - exact six_comparable.
  - reflexivity.
Defined.

(** Witness of X15: the file of [a] among the six. *)
Lemma loaded_exactly_a :
  dict_find
    (structure_info (load_files Example.six_file_scores Example.six_files))
    "alpha_0.01_a_chainA.cif" = Some (2, (-6.5)%float) /\
  grouped (load_files Example.six_file_scores Example.six_files) 2
    "alpha_0.01_a_chainA.cif" (Example.cross 10 10).
Proof.
  apply (loaded_exactly Example.six_file_scores Example.six_files
           "alpha_0.01_a_chainA.cif" 2 (-6.5)%float (Example.cross 10 10)
           six_files_distinct).
  split; [vm_compute; reflexivity|].
  exists (Example.cif "a" (Example.cross 10 10)).
  split; [left|]. split; vm_compute; reflexivity.
Defined.

(** Witness of X16: a file of nine points. *)
Lemma extract_counts_clipped :
  exists points,
    np.len (Mat 3 (Example.points_of (Example.cross 12.5 10)
                     ++ [[1; 2; 3]%float])) = Ok points /\
    2 = points / 4 /\
    points <= 4 * length (residues_of Example.clipped_file) /\
    2 <= length (residues_of Example.clipped_file).
Proof.
  apply (extract_counts Example.clipped_file).
  vm_compute. reflexivity.
Defined.

(** Witness of X17: a file of two complete residues. *)
Lemma complete_structure_extracted_a :
  exists coords,
    extract_backbone_coords Example.complete_file
    = Ok (coords,
          length (concat [Example.residues
                            (Example.points_of (Example.cross 10 10))])) /\
    np.len coords
    = Ok (4 * length (concat [Example.residues
                                (Example.points_of (Example.cross 10 10))])).
Proof.
  apply (complete_structure_extracted Example.complete_file
           [Example.residues (Example.points_of (Example.cross 10 10))] []).
  - reflexivity.
  - repeat constructor; intros atom_name Hin;
      repeat (apply elem_of_cons in Hin as [->|Hin];
              [vm_compute; eexists; reflexivity|]);
      by apply elem_of_nil in Hin.
Defined.

(** Witness of X18: the entry of [a] in the run on the six. *)
Lemma clusters_json_entries_a :
  entry_of Example.kabsch Example.six_file_scores
    (load_files Example.six_file_scores Example.six_files)
    "alpha_0.01_a_chainA.cif"
    {| members := ["alpha_0.01_a_chainA.cif"; "alpha_0.01_f_chainA.cif";
                   "alpha_0.01_b_chainA.cif"];
       n_residues := 2;
       n_members := 3;
       representative_score := (-6.5)%float |}.
Proof.
  apply (clusters_json_entries Example.float_of_decimal Example.svd_of_diagonal
           Example.det_3x3 Example.forwards Example.six_score_file
           Example.six_files Example.six_file_scores Example.six_run
           "alpha_0.01_a_chainA.cif" _ forwards_enumerates six_parsed six_main).
  vm_compute. reflexivity.
Defined.

(** Witness of X19: the run on the six. *)
Lemma main_partitions_six :
  clustered_names Example.six_clusters
    ≡ₚ dict_keys (structure_info
                    (load_files Example.six_file_scores Example.six_files)) /\
  NoDup (clustered_names Example.six_clusters) /\
  sum_list (map n_members (dict_values Example.six_clusters))
  = length (dict_keys (structure_info
                         (load_files Example.six_file_scores Example.six_files))).
Proof.
  apply (main_partitions Example.float_of_decimal Example.svd_of_diagonal
           Example.det_3x3 Example.forwards Example.six_score_file
           Example.six_files Example.six_file_scores Example.six_run
           forwards_enumerates six_files_distinct six_parsed six_main).
Defined.

(** Witness of X20: eight points against nine. *)
Lemma main_raises_only_clipped :
  (parse_score_file Example.float_of_decimal Example.six_score_file
   = Raise ValueError /\ ValueError = ValueError) \/
  exists scores n a b ca cb,
    parse_score_file Example.float_of_decimal Example.six_score_file = Ok scores /\
    grouped (load_files scores [Example.complete_file; Example.clipped_file])
      n a ca /\
    grouped (load_files scores [Example.complete_file; Example.clipped_file])
      n b cb /\
    kabsch_algorithm Example.svd_of_diagonal Example.det_3x3 ca cb
    = Raise ValueError.
Proof.
  apply (main_raises_only Example.float_of_decimal Example.svd_of_diagonal
           Example.det_3x3 Example.forwards Example.six_score_file
           [Example.complete_file; Example.clipped_file] ValueError
           forwards_enumerates).
  vm_compute. reflexivity.
Defined.

(** Witness of X21: the six and a file that the table does not score. *)
Lemma unscored_file_ignored_g :
  main Example.float_of_decimal Example.svd_of_diagonal Example.det_3x3
    Example.forwards Example.six_score_file
    (Example.six_files ++ Example.unscored_file :: [])
  = main Example.float_of_decimal Example.svd_of_diagonal Example.det_3x3
      Example.forwards Example.six_score_file (Example.six_files ++ []).
Proof.
  apply (unscored_file_ignored Example.float_of_decimal Example.svd_of_diagonal
           Example.det_3x3 Example.forwards Example.six_score_file
           Example.six_files [] Example.unscored_file).
  intros scores Hparse. rewrite six_parsed in Hparse.
  injection Hparse as <-. vm_compute. reflexivity.
Defined.

(** Witness of X22: the table of the six and one file that it does not
    score. *)
Lemma nothing_to_cluster_g :
  main Example.float_of_decimal Example.svd_of_diagonal Example.det_3x3
    Example.forwards Example.six_score_file [Example.unscored_file]
  = Ok {| clusters_json := [];
          representatives_txt := [title_line; header_line];
          run_warnings := [] |}.
Proof.
  apply (nothing_to_cluster Example.float_of_decimal Example.svd_of_diagonal
           Example.det_3x3 Example.forwards Example.six_score_file
           [Example.unscored_file] Example.six_file_scores six_parsed).
  intros f Hf%list_elem_of_singleton. subst f. vm_compute. reflexivity.
Defined.

(** Witness of X23: the sample lines. *)
Lemma pocket_residues_sorted_sample :
  StronglySorted Z.lt [7; 25]%Z /\
  forall z, z ∈ [7; 25]%Z <->
            exists line, line ∈ Example.pocket_lines /\
                         gives_residue Example.int_of_decimal line z.
Proof.
  rewrite <- pocket_lines_residues.
  apply (pocket_residues_sorted Example.int_of_decimal Example.pocket_lines).
Defined.

(** Witness of X24: the sample lines, and the same lines once more in the
    opposite order. *)
Lemma pocket_residues_of_lines_reversed :
  parse_pocket_for_boltzgen.parse_pocket_residues Example.int_of_decimal
    Example.pocket_lines
  = parse_pocket_for_boltzgen.parse_pocket_residues Example.int_of_decimal
      (reverse Example.pocket_lines ++ Example.pocket_lines).
Proof.
  apply (pocket_residues_of_lines Example.int_of_decimal Example.pocket_lines
           (reverse Example.pocket_lines ++ Example.pocket_lines)).
  intros line. rewrite elem_of_app, elem_of_reverse. tauto.
Defined.

(** Witness of X25: three residues and an output file. *)
Lemma binding_residues_listed_three :
  exists text binding,
    parse_pocket_for_boltzgen.create_boltzgen_yaml "4QKZ.cif" [3; -1; 20]%Z
      "ACDEF" "A" (Some "out.yaml")
    = Ok ({| parse_pocket_for_boltzgen.yaml_path := "out.yaml";
             parse_pocket_for_boltzgen.yaml_text := text |}, binding) /\
    str.split_on "," binding = map str.of_Z [3; -1; 20]%Z.
Proof.
  destruct (binding_residues_listed "4QKZ.cif" "ACDEF" "A" [3; -1; 20]%Z
              (Some "out.yaml")) as [_ Hsome].
  destruct (Hsome "out.yaml" eq_refl) as (text & binding & Hcall & Hlist & _).
  exists text, binding. split; [exact Hcall|]. apply Hlist. discriminate.
Defined.

(** Witness of X26: a path of three components. *)
Lemma path_name_bare_4QKZ :
  free_of "/"%char (parse_pocket_for_boltzgen.path_name "/data/run1/4QKZ.cif") /\
  parse_pocket_for_boltzgen.path_name "/data/run1/4QKZ.cif" ≠ "." /\
  parse_pocket_for_boltzgen.path_name "/data/run1/4QKZ.cif" = "4QKZ.cif".
Proof.
  destruct (path_name_bare "/data/run1/4QKZ.cif") as (Hfree & Hdot & Hname).
  split; [exact Hfree|]. split; [exact Hdot|].
  apply (Hname "/data/run1" "4QKZ.cif");
    [reflexivity | by_computing | discriminate | discriminate].
Defined.

(** Witness of X27: both files present and the sample lines in the pocket
    file. *)
Lemma pocket_main_outcome_written :
  exists text,
    parse_pocket_for_boltzgen.main Example.int_of_decimal Example.every_path
      Example.sample_lines Example.pocket_arguments
    = Ok (0%Z,
          Some {| parse_pocket_for_boltzgen.yaml_path := "4QKZ_pocket1_cyclic.yaml";
                  parse_pocket_for_boltzgen.yaml_text := text |}).
Proof.
  destruct (pocket_main_outcome Example.int_of_decimal Example.every_path
              Example.sample_lines Example.pocket_arguments)
    as [[_ (text & binding & _ & Hmain)]|[Hnone _]].
  - exists text. exact Hmain.
  - exfalso. apply Hnone. split; [reflexivity|]. split; [reflexivity|].
    exists ("HETATM 3 O O . HOH B 2 7 ? 4.0 5.0 6.0 1.0 7 B" ++ str.newline)%string,
      7%Z.
    split; [by_computing|].
    split; [right; vm_compute; reflexivity|].
    split; [vm_compute; lia | vm_compute; reflexivity].
Defined.
